(** * Atomic primitives of HotSpot on Windows/x86

    A shallow embedding of
    [hotspot/src/os_cpu/windows_x86/vm/atomic_windows_x86.hpp]:
    the plain stores shared by both builds, the [AMD64] branch, which
    hands add, exchange and compare-exchange to the entry points of
    [os::], and the [!AMD64] branch, written in MSVC inline assembly.

    Values of the C types are kept as bit patterns: a [W]-byte object
    is an integer from 0 up to, and not including, [2^(8W)], and a C
    value given as any integer stands for its residue ([wrap]).  Memory
    is byte addressed and little endian; an access of [W] bytes at [a]
    touches the addresses [a] to [a+W-1], which are not reduced modulo
    the size of the address space (the slots of the interface are
    naturally aligned, so they never straddle its end).  Of the flags
    only [ZF] is kept, and no access faults. *)

From Stdlib Require Import ZArith List Lia Bool.
From Stdlib Require Import Permutation.
From Stdlib.Strings Require Import Byte.
Import ListNotations.
Local Open Scope Z_scope.

(** ** Fixed-width values *)

Definition modulus (W : nat) : Z := 2 ^ (8 * Z.of_nat W).

(** The [W]-byte bit pattern of an integer. *)
Definition wrap (W : nat) (v : Z) : Z := v mod modulus W.

(** The two's-complement reading of a [W]-byte bit pattern. *)
Definition signed (W : nat) (u : Z) : Z :=
  if wrap W u <? modulus W / 2 then wrap W u else wrap W u - modulus W.

(** [v] is a [W]-byte bit pattern. *)
Definition fits (W : nat) (v : Z) : Prop := 0 <= v < modulus W.

(** ** Byte-addressed memory *)

Definition byte_of_Z (z : Z) : byte :=
  match Byte.of_N (Z.to_N (z mod 256)) with
  | Some b => b
  | None => x00
  end.

Definition Z_of_byte (b : byte) : Z := Z.of_N (Byte.to_N b).

Definition mem := Z -> byte.

Definition upd (m : mem) (a : Z) (b : byte) : mem :=
  fun x => if x =? a then b else m x.

(** Little-endian read of [W] bytes at [a]. *)
Fixpoint read (W : nat) (m : mem) (a : Z) : Z :=
  match W with
  | O => 0
  | S W' => Z_of_byte (m a) + 256 * read W' m (a + 1)
  end.

(** Little-endian write of the low [W] bytes of [v] at [a]. *)
Fixpoint write (W : nat) (m : mem) (a v : Z) : mem :=
  match W with
  | O => m
  | S W' => write W' (upd m a (byte_of_Z v)) (a + 1) (v / 256)
  end.

(** [a] is one of the [W] bytes of the slot at [dest]. *)
Definition in_slot (dest : Z) (W : nat) (a : Z) : Prop :=
  dest <= a < dest + Z.of_nat W.

(** The object representation of a [W]-byte value, and the [jint]
    found at index [i] when that object is viewed as an array of
    [jint] (the cast [((jint* )&x) + i] of the source). *)
Fixpoint object_repr (W : nat) (v : Z) : list byte :=
  match W with
  | O => []
  | S W' => byte_of_Z v :: object_repr W' (v / 256)
  end.

Fixpoint decode_le (bs : list byte) : Z :=
  match bs with
  | [] => 0
  | b :: bs' => Z_of_byte b + 256 * decode_le bs'
  end.

Definition jint_at (bs : list byte) (i : nat) : Z :=
  decode_le (firstn 4 (skipn (4 * i) bs)).

(** ** The x87 unit, as far as [fild]/[fistp] of 64-bit integers go

    A register holds an extended-precision number
    [(-1)^neg * significand * 2^exponent] with a 64-bit significand,
    or a NaN.  The register stack has eight entries. *)

Inductive x87_value : Type :=
| X87_num (neg : bool) (significand exponent : Z)
| X87_nan.

Inductive rounding_control : Type := RC_nearest | RC_down | RC_up | RC_chop.

(** The 64-bit "integer indefinite" stored when a conversion is invalid. *)
Definition integer_indefinite : Z := - 2 ^ 63.

(** [fild]: a signed 64-bit integer, normalised to a 64-bit significand. *)
Definition x87_of_int (n : Z) : x87_value :=
  if n =? 0 then X87_num false 0 0
  else
    let k := 63 - Z.log2 (Z.abs n) in
    X87_num (n <? 0) (Z.abs n * 2 ^ k) (- k).

(** Rounding of the magnitude [q + r/d] (with [0 <= r < d]) of a number
    of sign [neg], under the rounding-control field. *)
Definition round_magnitude (rc : rounding_control) (neg : bool) (q r d : Z) : Z :=
  if r =? 0 then q
  else
    match rc with
    | RC_chop => q
    | RC_down => if neg then q + 1 else q
    | RC_up => if neg then q else q + 1
    | RC_nearest =>
        if 2 * r <? d then q
        else if d <? 2 * r then q + 1
        else if Z.even q then q else q + 1
    end.

(** [fistp m64]: the signed 64-bit integer that is stored. *)
Definition x87_to_int (rc : rounding_control) (x : x87_value) : Z :=
  match x with
  | X87_nan => integer_indefinite
  | X87_num neg m e =>
      let mag :=
        if 0 <=? e then m * 2 ^ e
        else round_magnitude rc neg (m / 2 ^ (- e)) (m mod 2 ^ (- e)) (2 ^ (- e)) in
      let n := if neg then - mag else mag in
      if (- 2 ^ 63 <=? n) && (n <? 2 ^ 63) then n else integer_indefinite
  end.

Definition x87_depth : nat := 8.

(** Push onto the register stack; on a full stack the new top is the
    indefinite NaN (masked stack overflow) and the oldest entry is lost. *)
Definition x87_push (x : x87_value) (st : list x87_value) : list x87_value :=
  if Nat.ltb (length st) x87_depth then x :: st
  else X87_nan :: removelast st.

(** The top of the register stack; an empty stack reads as the NaN. *)
Definition x87_top (st : list x87_value) : x87_value :=
  match st with
  | [] => X87_nan
  | x :: _ => x
  end.

(** ** Processor state

    The general registers the file names, the stack pointer, the zero
    flag, the x87 unit, and [latch], the internal temporary of a
    read-modify-write instruction between its read and its write. *)

Record cpu : Type := mkCpu {
  eax : Z; ebx : Z; ecx : Z; edx : Z; edi : Z; esp : Z;
  zf : bool;
  latch : Z;
  rc : rounding_control;
  st : list x87_value
}.

Record machine : Type := mkMachine { regs : cpu; memory : mem }.

Inductive reg32 : Type := EAX | EBX | ECX | EDX | EDI | ESP.
Inductive reg8 : Type := AL | CL.

Definition get32 (c : cpu) (r : reg32) : Z :=
  match r with
  | EAX => eax c | EBX => ebx c | ECX => ecx c
  | EDX => edx c | EDI => edi c | ESP => esp c
  end.

Definition set32 (c : cpu) (r : reg32) (v : Z) : cpu :=
  let w := wrap 4 v in
  match r with
  | EAX => mkCpu w (ebx c) (ecx c) (edx c) (edi c) (esp c) (zf c) (latch c) (rc c) (st c)
  | EBX => mkCpu (eax c) w (ecx c) (edx c) (edi c) (esp c) (zf c) (latch c) (rc c) (st c)
  | ECX => mkCpu (eax c) (ebx c) w (edx c) (edi c) (esp c) (zf c) (latch c) (rc c) (st c)
  | EDX => mkCpu (eax c) (ebx c) (ecx c) w (edi c) (esp c) (zf c) (latch c) (rc c) (st c)
  | EDI => mkCpu (eax c) (ebx c) (ecx c) (edx c) w (esp c) (zf c) (latch c) (rc c) (st c)
  | ESP => mkCpu (eax c) (ebx c) (ecx c) (edx c) (edi c) w (zf c) (latch c) (rc c) (st c)
  end.

(** [al] and [cl] are the low bytes of [eax] and [ecx]. *)
Definition parent (r : reg8) : reg32 :=
  match r with AL => EAX | CL => ECX end.

Definition get8 (c : cpu) (r : reg8) : Z := wrap 1 (get32 c (parent r)).

Definition set8 (c : cpu) (r : reg8) (v : Z) : cpu :=
  let old := get32 c (parent r) in
  set32 c (parent r) (old - wrap 1 old + wrap 1 v).

Definition set_zf (c : cpu) (b : bool) : cpu :=
  mkCpu (eax c) (ebx c) (ecx c) (edx c) (edi c) (esp c) b (latch c) (rc c) (st c).

Definition set_latch (c : cpu) (v : Z) : cpu :=
  mkCpu (eax c) (ebx c) (ecx c) (edx c) (edi c) (esp c) (zf c) v (rc c) (st c).

Definition set_st (c : cpu) (s : list x87_value) : cpu :=
  mkCpu (eax c) (ebx c) (ecx c) (edx c) (edi c) (esp c) (zf c) (latch c) (rc c) s.

(** ** Instructions

    An instruction is a sequence of micro-operations, each of which is
    one indivisible step of the processor.  A read-modify-write on
    memory is two of them (the read into [latch], then the write)
    unless it carries the [lock] prefix, which fuses them. *)

Definition uop : Type := machine -> machine.
Definition instr : Type := list uop.

Definition run_uops (us : list uop) (s : machine) : machine :=
  fold_left (fun s' u => u s') us s.

Definition lock (i : instr) : instr := [run_uops i].

Definition on_regs (f : cpu -> cpu) : uop :=
  fun s => mkMachine (f (regs s)) (memory s).

(** [mov r, x] for a C variable or immediate [x]. *)
Definition mov (r : reg32) (x : Z) : instr :=
  [on_regs (fun c => set32 c r x)].

(** [mov r, r']. *)
Definition mov_rr (r r' : reg32) : instr :=
  [on_regs (fun c => set32 c r (get32 c r'))].

(** [mov r8, x] for a one-byte C variable [x]. *)
Definition mov8 (r : reg8) (x : Z) : instr :=
  [on_regs (fun c => set8 c r x)].

(** [add r, r']. *)
Definition add_rr (r r' : reg32) : instr :=
  [on_regs (fun c =>
     let v := wrap 4 (get32 c r + get32 c r') in
     set_zf (set32 c r v) (v =? 0))].

(** The read half of a read-modify-write on [W] bytes at [[base]]. *)
Definition rmw_read (W : nat) (base : reg32) : uop :=
  fun s => mkMachine (set_latch (regs s) (read W (memory s) (get32 (regs s) base)))
                     (memory s).

(** [xadd dword ptr [base], r]: the sum goes to memory, the old
    content of memory to [r]. *)
Definition xadd_m32 (base r : reg32) : instr :=
  [ rmw_read 4 base;
    fun s =>
      let c := regs s in
      let v := wrap 4 (latch c + get32 c r) in
      mkMachine (set_zf (set32 c r (latch c)) (v =? 0))
                (write 4 (memory s) (get32 c base) v) ].

(** [add dword ptr [base], imm]. *)
Definition add_m32_imm (base : reg32) (imm : Z) : instr :=
  [ rmw_read 4 base;
    fun s =>
      let c := regs s in
      let v := wrap 4 (latch c + imm) in
      mkMachine (set_zf c (v =? 0)) (write 4 (memory s) (get32 c base) v) ].

(** [sub dword ptr [base], imm]. *)
Definition sub_m32_imm (base : reg32) (imm : Z) : instr :=
  [ rmw_read 4 base;
    fun s =>
      let c := regs s in
      let v := wrap 4 (latch c - imm) in
      mkMachine (set_zf c (v =? 0)) (write 4 (memory s) (get32 c base) v) ].

(** [xchg r, dword ptr [base]]: locked by the instruction itself. *)
Definition xchg_r_m32 (r base : reg32) : instr :=
  [ fun s =>
      let c := regs s in
      let a := get32 c base in
      mkMachine (set32 c r (read 4 (memory s) a))
                (write 4 (memory s) a (get32 c r)) ].

(** [cmpxchg byte ptr [base], r]: compares [al] with memory; on
    equality memory receives [r], otherwise [al] receives memory and
    memory is written back. *)
Definition cmpxchg_m8 (base : reg32) (r : reg8) : instr :=
  [ rmw_read 1 base;
    fun s =>
      let c := regs s in
      let a := get32 c base in
      if latch c =? get8 c AL
      then mkMachine (set_zf c true) (write 1 (memory s) a (get8 c r))
      else mkMachine (set_zf (set8 c AL (latch c)) false)
                     (write 1 (memory s) a (latch c)) ].

(** [cmpxchg dword ptr [base], r]: the same on [eax] and four bytes. *)
Definition cmpxchg_m32 (base r : reg32) : instr :=
  [ rmw_read 4 base;
    fun s =>
      let c := regs s in
      let a := get32 c base in
      if latch c =? get32 c EAX
      then mkMachine (set_zf c true) (write 4 (memory s) a (get32 c r))
      else mkMachine (set_zf (set32 c EAX (latch c)) false)
                     (write 4 (memory s) a (latch c)) ].

(** [cmpxchg8b qword ptr [base]]: compares [edx:eax] with memory; on
    equality memory receives [ecx:ebx], otherwise [edx:eax] receives
    memory and memory is written back. *)
Definition cmpxchg8b (base : reg32) : instr :=
  [ rmw_read 8 base;
    fun s =>
      let c := regs s in
      let a := get32 c base in
      if latch c =? get32 c EAX + 2 ^ 32 * get32 c EDX
      then mkMachine (set_zf c true)
                     (write 8 (memory s) a (get32 c EBX + 2 ^ 32 * get32 c ECX))
      else mkMachine (set_zf (set32 (set32 c EAX (latch c)) EDX (latch c / 2 ^ 32)) false)
                     (write 8 (memory s) a (latch c)) ].

(** [push r] and [pop r]. *)
Definition push (r : reg32) : instr :=
  [ fun s =>
      let c := regs s in
      let c' := set32 c ESP (esp c - 4) in
      mkMachine c' (write 4 (memory s) (esp c') (get32 c r)) ].

Definition pop (r : reg32) : instr :=
  [ fun s =>
      let c := regs s in
      let v := read 4 (memory s) (esp c) in
      let c' := set32 c ESP (esp c + 4) in
      mkMachine (set32 c' r v) (memory s) ].

(** [fild qword ptr [base]]: one 64-bit read, pushed on the x87 stack. *)
Definition fild_m64 (base : reg32) : instr :=
  [ fun s =>
      let c := regs s in
      let n := signed 8 (read 8 (memory s) (get32 c base)) in
      mkMachine (set_st c (x87_push (x87_of_int n) (st c))) (memory s) ].

(** [fistp qword ptr [base]]: the top of the x87 stack, converted to a
    64-bit integer, in one 64-bit write; the stack is popped. *)
Definition fistp_m64 (base : reg32) : instr :=
  [ fun s =>
      let c := regs s in
      let n := x87_to_int (rc c) (x87_top (st c)) in
      mkMachine (set_st c (tl (st c))) (write 8 (memory s) (get32 c base) n) ].

(** ** C-level glue: a state monad over the machine *)

Definition M (A : Type) : Type := machine -> A * machine.

Definition ret {A : Type} (x : A) : M A := fun s => (x, s).

Definition bind {A B : Type} (c : M A) (k : A -> M B) : M B :=
  fun s => let (x, s') := c s in k x s'.

Declare Scope asm_scope.
Delimit Scope asm_scope with asm.
Notation "x <- c ;; k" := (bind c (fun x => k))
  (at level 61, c at next level, right associativity) : asm_scope.
Notation "c ;; k" := (bind c (fun _ => k))
  (at level 61, right associativity) : asm_scope.

(** An [__asm { ... }] block. *)
Definition __asm (body : list instr) : M unit :=
  fun s => (tt, run_uops (concat body) s).

(** The value a function without [return] statement hands back is
    what its [__asm] block leaves in [al], [eax] or [edx:eax]. *)
Definition result_al : M Z := fun s => (get8 (regs s) AL, s).
Definition result_eax : M Z := fun s => (eax (regs s), s).
Definition result_edx_eax : M Z :=
  fun s => (eax (regs s) + 2 ^ 32 * edx (regs s), s).

(** [*p] for a [W]-byte object. *)
Definition deref (W : nat) (p : Z) : M Z := fun s => (read W (memory s) p, s).

(** A [W]-byte object with automatic storage whose address is taken:
    it lives in the frame of the function, below the stack pointer at
    entry.  [local] reserves it and yields its address, [local_init]
    also gives it a value (a by-value parameter), [leave] releases it. *)
Definition local (W : nat) : M Z :=
  fun s =>
    let c := set32 (regs s) ESP (esp (regs s) - Z.of_nat W) in
    (esp c, mkMachine c (memory s)).

Definition local_init (W : nat) (v : Z) : M Z :=
  fun s =>
    let c := set32 (regs s) ESP (esp (regs s) - Z.of_nat W) in
    (esp c, mkMachine c (write W (memory s) (esp c) v)).

Definition leave (W : nat) : M unit :=
  fun s =>
    (tt, mkMachine (set32 (regs s) ESP (esp (regs s) + Z.of_nat W)) (memory s)).

(** A C cast of a value to an integer or pointer type of [W] bytes.  (A
    cast of a pointer to another pointer type leaves the address as it
    is and is not written.) *)
Definition cast (W : nat) (v : Z) : Z := wrap W v.

(** ** The stores shared by both builds (lines 45-58)

    Each is the assignment [*dest = store_value]; the overloads on a
    [volatile] destination have the same body.  [sizeof_ptr] is the
    size of [intptr_t] and [void*] in the build at hand. *)

Definition Atomic_store_jbyte (store_value dest : Z) (m : mem) : mem :=
  write 1 m dest store_value.
Definition Atomic_store_jshort (store_value dest : Z) (m : mem) : mem :=
  write 2 m dest store_value.
Definition Atomic_store_jint (store_value dest : Z) (m : mem) : mem :=
  write 4 m dest store_value.

Definition Atomic_store_ptr (sizeof_ptr : nat) (store_value dest : Z) (m : mem) : mem :=
  write sizeof_ptr m dest store_value.
Definition Atomic_store_ptr_void (sizeof_ptr : nat) (store_value dest : Z) (m : mem) : mem :=
  write sizeof_ptr m dest store_value.

Definition Atomic_store_jbyte_volatile (store_value dest : Z) (m : mem) : mem :=
  write 1 m dest store_value.
Definition Atomic_store_jshort_volatile (store_value dest : Z) (m : mem) : mem :=
  write 2 m dest store_value.
Definition Atomic_store_jint_volatile (store_value dest : Z) (m : mem) : mem :=
  write 4 m dest store_value.

Definition Atomic_store_ptr_volatile (sizeof_ptr : nat) (store_value dest : Z) (m : mem) : mem :=
  write sizeof_ptr m dest store_value.
Definition Atomic_store_ptr_void_volatile (sizeof_ptr : nat) (store_value dest : Z) (m : mem) : mem :=
  write sizeof_ptr m dest store_value.

(** The plain read [*src] of a [W]-byte slot, which is how the callers
    load the widths for which the file defines no [load]. *)
Definition plain_load (W : nat) (src : Z) (m : mem) : Z := read W m src.

(** ** The [!AMD64] build: 32-bit registers, inline assembly *)

Module IA32.

Definition sizeof_intptr_t : nat := 4.

(** The [__asm] block of [PlatformAdd<4>::add_and_fetch]. *)
Definition add_and_fetch_asm (add_value dest : Z) : list instr :=
  [ mov EDX dest;
    mov EAX add_value;
    mov_rr ECX EAX;
    lock (xadd_m32 EDX EAX);
    add_rr EAX ECX ].

Definition PlatformAdd_4_add_and_fetch (add_value dest : Z) : M Z :=
  (__asm (add_and_fetch_asm add_value dest) ;;
   result_eax)%asm.

(** Modelled from the spec: the dispatcher [Atomic::add] of
    [runtime/atomic.hpp], which is not part of this file; it selects the
    [PlatformAdd] specialization of the operand's width, and [add_ptr]
    does so for the pointer-width operand. *)
Definition Atomic_add (add_value dest : Z) : M Z :=
  PlatformAdd_4_add_and_fetch add_value dest.
Definition Atomic_add_ptr (add_value dest : Z) : M Z :=
  PlatformAdd_4_add_and_fetch add_value dest.

Definition Atomic_inc (dest : Z) : M unit :=
  __asm [ mov EDX dest;
          lock (add_m32_imm EDX 1) ].

Definition Atomic_inc_ptr (dest : Z) : M unit := Atomic_inc dest.
Definition Atomic_inc_ptr_void (dest : Z) : M unit := Atomic_inc dest.

Definition Atomic_dec (dest : Z) : M unit :=
  __asm [ mov EDX dest;
          lock (sub_m32_imm EDX 1) ].

Definition Atomic_dec_ptr (dest : Z) : M unit := Atomic_dec dest.
Definition Atomic_dec_ptr_void (dest : Z) : M unit := Atomic_dec dest.

Definition Atomic_xchg (exchange_value dest : Z) : M Z :=
  (__asm [ mov EAX exchange_value;
           mov ECX dest;
           xchg_r_m32 EAX ECX ] ;;
   result_eax)%asm.

Definition Atomic_xchg_ptr (exchange_value dest : Z) : M Z :=
  (r <- Atomic_xchg (cast 4 exchange_value) dest ;;
   ret (cast 4 r))%asm.

Definition Atomic_xchg_ptr_void (exchange_value dest : Z) : M Z :=
  (r <- Atomic_xchg (cast 4 exchange_value) dest ;;
   ret (cast 4 r))%asm.

Definition PlatformCmpxchg_1 {cmpxchg_memory_order : Type}
    (exchange_value dest compare_value : Z) (order : cmpxchg_memory_order) : M Z :=
  (__asm [ mov EDX dest;
           mov8 CL exchange_value;
           mov8 AL compare_value;
           lock (cmpxchg_m8 EDX CL) ] ;;
   result_al)%asm.

Definition PlatformCmpxchg_4 {cmpxchg_memory_order : Type}
    (exchange_value dest compare_value : Z) (order : cmpxchg_memory_order) : M Z :=
  (__asm [ mov EDX dest;
           mov ECX exchange_value;
           mov EAX compare_value;
           lock (cmpxchg_m32 EDX ECX) ] ;;
   result_eax)%asm.

Definition PlatformCmpxchg_8 {cmpxchg_memory_order : Type}
    (exchange_value dest compare_value : Z) (order : cmpxchg_memory_order) : M Z :=
  let ex_lo := cast 4 exchange_value in
  let ex_hi := jint_at (object_repr 8 exchange_value) 1 in
  let cmp_lo := cast 4 compare_value in
  let cmp_hi := jint_at (object_repr 8 compare_value) 1 in
  (__asm [ push EBX;
           push EDI;
           mov EAX cmp_lo;
           mov EDX cmp_hi;
           mov EDI dest;
           mov EBX ex_lo;
           mov ECX ex_hi;
           lock (cmpxchg8b EDI);
           pop EDI;
           pop EBX ] ;;
   result_edx_eax)%asm.

Definition Atomic_load (src : Z) : M Z :=
  (pdest <- local 8 ;;
   __asm [ mov EAX src;
           fild_m64 EAX;
           mov EAX pdest;
           fistp_m64 EAX ] ;;
   r <- deref 8 pdest ;;
   leave 8 ;;
   ret r)%asm.

Definition Atomic_store_jlong_volatile (store_value dest : Z) : M unit :=
  (src <- local_init 8 store_value ;;
   __asm [ mov EAX src;
           fild_m64 EAX;
           mov EAX dest;
           fistp_m64 EAX ] ;;
   leave 8)%asm.

Definition Atomic_store_jlong (store_value dest : Z) : M unit :=
  Atomic_store_jlong_volatile store_value dest.

End IA32.

(** ** The [AMD64] build: delegation to the entry points of [os::] *)

Module AMD64.

Definition sizeof_intptr_t : nat := 8.

(** The entry points [os::atomic_*_func], which this file only calls.
    Each takes its value arguments, the destination and the memory, and
    yields its result and the memory it leaves. *)
Record os : Type := mkOs {
  atomic_add_func : Z -> Z -> mem -> Z * mem;
  atomic_add_ptr_func : Z -> Z -> mem -> Z * mem;
  atomic_xchg_func : Z -> Z -> mem -> Z * mem;
  atomic_xchg_ptr_func : Z -> Z -> mem -> Z * mem;
  atomic_cmpxchg_func : Z -> Z -> Z -> mem -> Z * mem;
  atomic_cmpxchg_byte_func : Z -> Z -> Z -> mem -> Z * mem;
  atomic_cmpxchg_long_func : Z -> Z -> Z -> mem -> Z * mem
}.

(** Modelled from the spec: the helpers [add_using_helper] and
    [cmpxchg_using_helper] of [runtime/atomic.hpp], which are not part
    of this file; they reinterpret the operands as the entry point's
    type of the same width, call it once, and reinterpret the result. *)
Definition add_using_helper (W : nat) (fn : Z -> Z -> mem -> Z * mem)
    (add_value dest : Z) (m : mem) : Z * mem :=
  let (r, m') := fn (cast W add_value) dest m in (cast W r, m').

Definition cmpxchg_using_helper (W : nat) (fn : Z -> Z -> Z -> mem -> Z * mem)
    (exchange_value dest compare_value : Z) (m : mem) : Z * mem :=
  let (r, m') := fn (cast W exchange_value) dest (cast W compare_value) m in
  (cast W r, m').

Section Entry_points.

Variable os_ : os.

Definition Atomic_store_jlong (store_value dest : Z) (m : mem) : mem :=
  write 8 m dest store_value.
Definition Atomic_store_jlong_volatile (store_value dest : Z) (m : mem) : mem :=
  write 8 m dest store_value.

Definition PlatformAdd_4_add_and_fetch (add_value dest : Z) (m : mem) : Z * mem :=
  add_using_helper 4 (atomic_add_func os_) add_value dest m.

Definition PlatformAdd_8_add_and_fetch (add_value dest : Z) (m : mem) : Z * mem :=
  add_using_helper 8 (atomic_add_ptr_func os_) add_value dest m.

(** Modelled from the spec: the dispatchers [Atomic::add] and
    [Atomic::add_ptr] of [runtime/atomic.hpp], which are not part of
    this file; each selects the [PlatformAdd] specialization of the
    operand's width. *)
Definition Atomic_add (add_value dest : Z) (m : mem) : Z * mem :=
  PlatformAdd_4_add_and_fetch add_value dest m.
Definition Atomic_add_ptr (add_value dest : Z) (m : mem) : Z * mem :=
  PlatformAdd_8_add_and_fetch add_value dest m.

Definition Atomic_inc (dest : Z) (m : mem) : mem := snd (Atomic_add 1 dest m).
Definition Atomic_inc_ptr (dest : Z) (m : mem) : mem := snd (Atomic_add_ptr 1 dest m).
Definition Atomic_inc_ptr_void (dest : Z) (m : mem) : mem := snd (Atomic_add_ptr 1 dest m).

Definition Atomic_dec (dest : Z) (m : mem) : mem := snd (Atomic_add (-1) dest m).
Definition Atomic_dec_ptr (dest : Z) (m : mem) : mem := snd (Atomic_add_ptr (-1) dest m).
Definition Atomic_dec_ptr_void (dest : Z) (m : mem) : mem := snd (Atomic_add_ptr (-1) dest m).

Definition Atomic_xchg (exchange_value dest : Z) (m : mem) : Z * mem :=
  let (r, m') := atomic_xchg_func os_ exchange_value dest m in (cast 4 r, m').

Definition Atomic_xchg_ptr (exchange_value dest : Z) (m : mem) : Z * mem :=
  let (r, m') := atomic_xchg_ptr_func os_ exchange_value dest m in (cast 8 r, m').

Definition Atomic_xchg_ptr_void (exchange_value dest : Z) (m : mem) : Z * mem :=
  let (r, m') := atomic_xchg_ptr_func os_ (cast 8 exchange_value) dest m in
  (cast 8 r, m').

(** [DEFINE_STUB_CMPXCHG(ByteSize, StubType, StubName)]. *)
Definition DEFINE_STUB_CMPXCHG {cmpxchg_memory_order : Type} (ByteSize : nat)
    (StubName : Z -> Z -> Z -> mem -> Z * mem)
    (exchange_value dest compare_value : Z) (order : cmpxchg_memory_order)
    (m : mem) : Z * mem :=
  cmpxchg_using_helper ByteSize StubName exchange_value dest compare_value m.

Definition PlatformCmpxchg_1 {cmpxchg_memory_order : Type} :=
  @DEFINE_STUB_CMPXCHG cmpxchg_memory_order 1 (atomic_cmpxchg_byte_func os_).
Definition PlatformCmpxchg_4 {cmpxchg_memory_order : Type} :=
  @DEFINE_STUB_CMPXCHG cmpxchg_memory_order 4 (atomic_cmpxchg_func os_).
Definition PlatformCmpxchg_8 {cmpxchg_memory_order : Type} :=
  @DEFINE_STUB_CMPXCHG cmpxchg_memory_order 8 (atomic_cmpxchg_long_func os_).

Definition Atomic_load (src : Z) (m : mem) : Z * mem := (read 8 m src, m).

End Entry_points.

End AMD64.

(** ** What the entry points of [os::] are required to do *)

(** The three read-modify-write operations on a [W]-byte slot. *)
Definition fetch_add (W : nat) (add_value dest : Z) (m : mem) : Z * mem :=
  let v := wrap W (read W m dest + add_value) in (v, write W m dest v).

Definition exchange (W : nat) (exchange_value dest : Z) (m : mem) : Z * mem :=
  (read W m dest, write W m dest exchange_value).

Definition compare_exchange (W : nat) (exchange_value dest compare_value : Z)
    (m : mem) : Z * mem :=
  let old := read W m dest in
  (old, if old =? wrap W compare_value then write W m dest exchange_value else m).

(** What a call in the 32-bit build hands back: its result and memory. *)
Definition outcome (x : Z * machine) : Z * mem := (fst x, memory (snd x)).

(** Two outcomes agree: same result, same content of every byte. *)
Definition agree (x y : Z * mem) : Prop :=
  fst x = fst y /\ forall a, snd x a = snd y a.

(** Modelled from the spec: the outbound dependency of section 6, the
    entry points of [os::], which are not part of this file; add returns
    the post-addition value, exchange the previous value, and
    compare-exchange the previous value, storing on equality. *)
Record os_contract (o : AMD64.os) : Prop := mkOsContract {
  atomic_add_ok : forall v dest m,
    agree (AMD64.atomic_add_func o v dest m) (fetch_add 4 v dest m);
  atomic_add_ptr_ok : forall v dest m,
    agree (AMD64.atomic_add_ptr_func o v dest m) (fetch_add 8 v dest m);
  atomic_xchg_ok : forall v dest m,
    agree (AMD64.atomic_xchg_func o v dest m) (exchange 4 v dest m);
  atomic_xchg_ptr_ok : forall v dest m,
    agree (AMD64.atomic_xchg_ptr_func o v dest m) (exchange 8 v dest m);
  atomic_cmpxchg_ok : forall e dest c m,
    agree (AMD64.atomic_cmpxchg_func o e dest c m) (compare_exchange 4 e dest c m);
  atomic_cmpxchg_byte_ok : forall e dest c m,
    agree (AMD64.atomic_cmpxchg_byte_func o e dest c m) (compare_exchange 1 e dest c m);
  atomic_cmpxchg_long_ok : forall e dest c m,
    agree (AMD64.atomic_cmpxchg_long_func o e dest c m) (compare_exchange 8 e dest c m)
}.

(** One provider that meets the contract. *)
Definition os_reference : AMD64.os :=
  AMD64.mkOs (fetch_add 4) (fetch_add 8) (exchange 4) (exchange 8)
             (compare_exchange 4) (compare_exchange 1) (compare_exchange 8).

(** ** Preconditions of the 32-bit build *)

(** A 32-bit address. *)
Definition ptr32 (a : Z) : Prop := 0 <= a < 2 ^ 32.

(** The x87 register stack has a free entry, as the calling convention
    grants on entry to a function. *)
Definition x87_free (s : machine) : Prop :=
  (length (st (regs s)) < x87_depth)%nat.

(** The stack pointer leaves room for [n] bytes of frame. *)
Definition stack_room (s : machine) (n : Z) : Prop :=
  n <= esp (regs s) < 2 ^ 32.

(** [a] lies in the [n] bytes just below the stack pointer of [s]: the
    frame a function entered in [s] may use for itself. *)
(** The [W]-byte slot at [dest] lies outside the [n] bytes just below
    the stack pointer of [s]. *)
Definition slot_off_frame (s : machine) (n : Z) (dest : Z) (W : nat) : Prop :=
  dest + Z.of_nat W <= esp (regs s) - n \/ esp (regs s) <= dest.

Definition in_frame (s : machine) (n : Z) (a : Z) : Prop :=
  esp (regs s) - n <= a < esp (regs s).

(** The registers a callee must preserve and the x87 unit are the same
    in both states. *)
Definition preserved (s1 s2 : machine) : Prop :=
  ebx (regs s1) = ebx (regs s2) /\
  edi (regs s1) = edi (regs s2) /\
  esp (regs s1) = esp (regs s2) /\
  rc (regs s1) = rc (regs s2) /\
  st (regs s1) = st (regs s2).

(** What a C caller can tell apart after a call: memory, the registers
    a callee must preserve, and the x87 unit.  ([eax], [ecx], [edx],
    the flags and the latch are scratch.) *)
Definition same_visible (s1 s2 : machine) : Prop :=
  (forall a, memory s1 a = memory s2 a) /\ preserved s1 s2.

(** ** The contracts, in the words of the specification *)

(** [m'] differs from [m] at most in the [W]-byte slot at [dest]. *)
Definition only_slot (dest : Z) (W : nat) (m m' : mem) : Prop :=
  forall a, ~ in_slot dest W a -> m' a = m a.

(** In the 32-bit build: [m'] differs from the memory of [s] at most in
    the [W]-byte slot at [dest] and in the [n] bytes of frame below the
    stack pointer of [s], which belong to the callee. *)
Definition only_slot_and_frame (dest : Z) (W : nat) (n : Z) (s : machine) (m' : mem) : Prop :=
  forall a, ~ in_slot dest W a -> ~ in_frame s n a -> m' a = memory s a.

(** Compare-exchange: the call returns the value the slot held before;
    if that value equals [compare_value] the slot then holds
    [exchange_value], otherwise the slot is unchanged. *)
Definition cmpxchg_post (W : nat) (exchange_value dest compare_value : Z)
    (m : mem) (r : Z) (m' : mem) : Prop :=
  r = read W m dest /\
  (read W m dest = wrap W compare_value -> read W m' dest = wrap W exchange_value) /\
  (read W m dest <> wrap W compare_value -> read W m' dest = read W m dest).

(** Add: starting from a slot that holds [v0], the call returns
    [v0 + d] modulo [2^(8W)] and the slot then holds it. *)
Definition add_post (W : nat) (v0 d dest : Z) (r : Z) (m' : mem) : Prop :=
  r = wrap W (v0 + d) /\ read W m' dest = wrap W (v0 + d).

(** Exchange: the call returns the value the slot held before, and the
    slot then holds the new value. *)
Definition xchg_post (W : nat) (n dest : Z) (m : mem) (r : Z) (m' : mem) : Prop :=
  r = read W m dest /\ read W m' dest = wrap W n.

(** ** A sample state

    All registers zero but the stack pointer, an empty x87 stack, and
    memory filled with zero bytes. *)

Definition zero_mem : mem := fun _ => x00.

Definition sample_cpu : cpu := mkCpu 0 0 0 0 0 (2 ^ 16) false 0 RC_nearest [].

Definition sample (m : mem) : machine := mkMachine sample_cpu m.

(** ** Concurrent callers

    Each caller owns a processor state and the micro-operations it has
    yet to execute; memory is shared.  One step lets one caller execute
    its next micro-operation; a schedule names the caller of each step. *)

Record thread : Type := mkThread { t_regs : cpu; t_code : list uop }.

Record system : Type := mkSystem { threads : list thread; shared : mem }.

Fixpoint set_nth {A : Type} (i : nat) (x : A) (l : list A) : list A :=
  match l, i with
  | [], _ => []
  | _ :: l', O => x :: l'
  | y :: l', S i' => y :: set_nth i' x l'
  end.

Definition step (i : nat) (c : system) : option system :=
  match nth_error (threads c) i with
  | Some t =>
      match t_code t with
      | u :: rest =>
          let s' := u (mkMachine (t_regs t) (shared c)) in
          Some (mkSystem (set_nth i (mkThread (regs s') rest) (threads c))
                         (memory s'))
      | [] => None
      end
  | None => None
  end.

Fixpoint run (sched : list nat) (c : system) : option system :=
  match sched with
  | [] => Some c
  | i :: sched' =>
      match step i c with
      | Some c' => run sched' c'
      | None => None
      end
  end.

Definition done (t : thread) : bool :=
  match t_code t with [] => true | _ :: _ => false end.

Definition finished (c : system) : bool := forallb done (threads c).

(** One caller per processor state of [cs], each about to execute
    [add(1, dest)], that is the [__asm] block of
    [PlatformAdd<4>::add_and_fetch] with [add_value = 1]. *)
Definition add_callers (cs : list cpu) (dest : Z) (m : mem) : system :=
  mkSystem (map (fun c => mkThread c (concat (IA32.add_and_fetch_asm 1 dest))) cs) m.

(** For comparison only, and not what the source has: the block of
    [add_and_fetch] with the [lock] prefix taken off its [xadd], whose
    read and write are then two steps. *)
Definition unlocked_add_asm (add_value dest : Z) : list instr :=
  [ mov EDX dest;
    mov EAX add_value;
    mov_rr ECX EAX;
    xadd_m32 EDX EAX;
    add_rr EAX ECX ].

(** The sum of a weight over the callers. *)
Fixpoint total (f : thread -> nat) (ts : list thread) : nat :=
  match ts with
  | [] => 0
  | t :: ts' => f t + total f ts'
  end%nat.

(** A caller has arrived once its locked [xadd] is behind it, that is
    when at most the last of its five micro-operations is left. *)
Definition arrived (t : thread) : bool := (length (t_code t) <=? 1)%nat.

Definition arrivals (c : system) : nat :=
  total (fun t => if arrived t then 1 else 0)%nat (threads c).

(** The micro-operations still to be executed. *)
Definition remaining (c : system) : nat :=
  total (fun t => length (t_code t)) (threads c).

(** Where a caller of [add(1, dest)] stands: [k] micro-operations of
    the block are behind it, [edx] holds [dest] once it is loaded, and
    [eax] holds the addend until the [xadd] replaces it. *)
Definition caller_at (dest : Z) (k : nat) (t : thread) : Prop :=
  t_code t = skipn k (concat (IA32.add_and_fetch_asm 1 dest)) /\
  ((1 <= k)%nat -> edx (t_regs t) = dest) /\
  ((2 <= k <= 3)%nat -> eax (t_regs t) = 1).

Definition caller_ok (dest : Z) (t : thread) : Prop :=
  exists k, (k <= 5)%nat /\ caller_at dest k t.

(** The invariant of the callers of [add(1, dest)] on a slot that held
    [v0]: the slot holds [v0] plus the number of arrivals. *)
Definition counting (dest v0 : Z) (c : system) : Prop :=
  Forall (caller_ok dest) (threads c) /\
  read 4 (shared c) dest = wrap 4 (v0 + Z.of_nat (arrivals c)).

(** ** Further preconditions and views, for the properties beyond the claims *)

(** The two registers [PlatformCmpxchg<8>] saves hold 32-bit values. *)
Definition saved_regs_32 (s : machine) : Prop :=
  0 <= ebx (regs s) < 2 ^ 32 /\ 0 <= edi (regs s) < 2 ^ 32.

(** The stack pointer holds a 32-bit value. *)
Definition esp_32 (s : machine) : Prop := 0 <= esp (regs s) < 2 ^ 32.

(** Two [W]-byte slots that share no byte. *)
Definition disjoint_slots (a1 a2 : Z) (W : nat) : Prop :=
  a1 + Z.of_nat W <= a2 \/ a2 + Z.of_nat W <= a1.

(** *** Concurrent callers of add: the values they return *)

(** The value a caller of [add(1, dest)] that has arrived returns: what
    [eax] holds once it is done, and before that one more than the
    value its [xadd] fetched. *)
Definition ticket (t : thread) : Z :=
  if done t then eax (t_regs t) else wrap 4 (eax (t_regs t) + 1).

(** [ecx] holds the addend while the [xadd] or the final [add] is the
    next instruction. *)
Definition addend_kept (t : thread) : Prop :=
  (1 <= length (t_code t) <= 2)%nat -> ecx (t_regs t) = 1.

(** The invariant of the callers of [add(1, dest)] on a slot that held
    0: the tickets of those that have arrived lie between 1 and the
    number of arrivals and are pairwise different. *)
Definition ticketed (dest : Z) (c : system) : Prop :=
  counting dest 0 c /\
  Forall addend_kept (threads c) /\
  (forall i t, nth_error (threads c) i = Some t -> arrived t = true ->
     1 <= ticket t <= Z.of_nat (arrivals c)) /\
  (forall i j ti tj, i <> j ->
     nth_error (threads c) i = Some ti -> nth_error (threads c) j = Some tj ->
     arrived ti = true -> arrived tj = true -> ticket ti <> ticket tj).

(** *** Concurrent callers of compare-exchange *)

(** The [__asm] block of [PlatformCmpxchg<4>::operator()]. *)
Definition cmpxchg_4_asm (exchange_value dest compare_value : Z) : list instr :=
  [ mov EDX dest;
    mov ECX exchange_value;
    mov EAX compare_value;
    lock (cmpxchg_m32 EDX ECX) ].

(** One caller per entry of [l], a processor state and an exchange
    value, each about to execute [cmpxchg(exchange_value, dest,
    compare_value)] at width 4. *)
Definition cas_callers (l : list (cpu * Z)) (dest compare_value : Z) (m : mem) : system :=
  mkSystem
    (map (fun p => mkThread (fst p) (concat (cmpxchg_4_asm (snd p) dest compare_value))) l)
    m.

(** Where a caller of [cmpxchg(e, dest, X)] stands after [k]
    micro-operations: the registers loaded so far hold the operands. *)
Definition cas_at (dest X : Z) (k : nat) (e : Z) (t : thread) : Prop :=
  t_code t = skipn k (concat (cmpxchg_4_asm e dest X)) /\
  ((1 <= k)%nat -> edx (t_regs t) = dest) /\
  ((2 <= k)%nat -> ecx (t_regs t) = wrap 4 e) /\
  (k = 3%nat -> eax (t_regs t) = wrap 4 X).

Definition cas_thread (dest X : Z) (p : cpu * Z) (t : thread) : Prop :=
  exists k, (k <= 4)%nat /\ cas_at dest X k (snd p) t.

(** The invariant of the callers of [cmpxchg(e_i, dest, X)] on a slot
    that held [X]: while the slot holds [X] no caller is done; once it
    does not, exactly one caller is done with result [X], the slot
    holds that caller's exchange value, and every other caller that is
    done has the slot's value as its result. *)
Definition cas_inv (l : list (cpu * Z)) (dest X : Z) (c : system) : Prop :=
  Forall2 (cas_thread dest X) l (threads c) /\
  (read 4 (shared c) dest = wrap 4 X ->
     forall i t, nth_error (threads c) i = Some t -> done t = false) /\
  (read 4 (shared c) dest <> wrap 4 X ->
     exists w p tw,
       nth_error l w = Some p /\ nth_error (threads c) w = Some tw /\
       done tw = true /\ eax (t_regs tw) = wrap 4 X /\
       read 4 (shared c) dest = wrap 4 (snd p) /\
       forall j tj, j <> w -> nth_error (threads c) j = Some tj -> done tj = true ->
         eax (t_regs tj) = read 4 (shared c) dest).

(** *** Concurrent callers of inc and dec *)

(** The [__asm] blocks of [Atomic::inc] and [Atomic::dec]. *)
Definition inc_asm (dest : Z) : list instr :=
  [ mov EDX dest;
    lock (add_m32_imm EDX 1) ].

Definition dec_asm (dest : Z) : list instr :=
  [ mov EDX dest;
    lock (sub_m32_imm EDX 1) ].

(** The block of a caller by its direction: [true] for [inc(dest)],
    [false] for [dec(dest)]; and what the direction adds to the slot. *)
Definition counter_asm (up : bool) (dest : Z) : list instr :=
  if up then inc_asm dest else dec_asm dest.

Definition delta (up : bool) : Z := if up then 1 else -1.

(** One caller per entry of [l], a processor state and a direction. *)
Definition counter_callers (l : list (cpu * bool)) (dest : Z) (m : mem) : system :=
  mkSystem (map (fun p => mkThread (fst p) (concat (counter_asm (snd p) dest))) l) m.

(** The callers of [inc] and of [dec] among [l]. *)
Definition incs (l : list (cpu * bool)) : Z :=
  Z.of_nat (length (filter (fun p => snd p) l)).

Definition decs (l : list (cpu * bool)) : Z :=
  Z.of_nat (length (filter (fun p => negb (snd p)) l)).

(** The net count of the callers that are done: one up for each [inc],
    one down for each [dec]. *)
Fixpoint net (l : list (cpu * bool)) (ts : list thread) : Z :=
  match l, ts with
  | p :: l', t :: ts' => (if done t then delta (snd p) else 0) + net l' ts'
  | _, _ => 0
  end.

(** Where a caller of [inc] or [dec] stands after [k] micro-operations. *)
Definition counter_at (dest : Z) (k : nat) (up : bool) (t : thread) : Prop :=
  t_code t = skipn k (concat (counter_asm up dest)) /\
  ((1 <= k)%nat -> edx (t_regs t) = dest).

Definition counter_thread (dest : Z) (p : cpu * bool) (t : thread) : Prop :=
  exists k, (k <= 2)%nat /\ counter_at dest k (snd p) t.

(** The invariant of the callers of [inc] and [dec] on a slot that held
    [v0]: the slot holds [v0] plus the net count of those done. *)
Definition counter_inv (l : list (cpu * bool)) (dest v0 : Z) (c : system) : Prop :=
  Forall2 (counter_thread dest) l (threads c) /\
  read 4 (shared c) dest = wrap 4 (v0 + net l (threads c)).

(** *** Concurrent callers of exchange *)

(** The [__asm] block of [Atomic::xchg]. *)
Definition xchg_asm (exchange_value dest : Z) : list instr :=
  [ mov EAX exchange_value;
    mov ECX dest;
    xchg_r_m32 EAX ECX ].

(** One caller per entry of [l], a processor state and an exchange
    value, each about to execute [xchg(exchange_value, dest)]. *)
Definition xchg_callers (l : list (cpu * Z)) (dest : Z) (m : mem) : system :=
  mkSystem (map (fun p => mkThread (fst p) (concat (xchg_asm (snd p) dest))) l) m.

(** The value a caller of [xchg(e, dest)] has in hand: the one it
    brought until its [xchg] is behind it, the one it returns then. *)
Definition hold (p : cpu * Z) (t : thread) : Z :=
  if done t then eax (t_regs t) else wrap 4 (snd p).

Fixpoint holds (l : list (cpu * Z)) (ts : list thread) : list Z :=
  match l, ts with
  | p :: l', t :: ts' => hold p t :: holds l' ts'
  | _, _ => []
  end.

(** Where a caller of [xchg(e, dest)] stands after [k] micro-operations. *)
Definition xchg_at (dest : Z) (k : nat) (e : Z) (t : thread) : Prop :=
  t_code t = skipn k (concat (xchg_asm e dest)) /\
  ((1 <= k <= 2)%nat -> eax (t_regs t) = wrap 4 e) /\
  (k = 2%nat -> ecx (t_regs t) = dest).

Definition xchg_thread (dest : Z) (p : cpu * Z) (t : thread) : Prop :=
  exists k, (k <= 3)%nat /\ xchg_at dest k (snd p) t.

(** The invariant of the callers of [xchg(e_i, dest)] on a slot that
    held [v0]: the value in the slot and the values the callers have in
    hand are, in some order, [v0] and the values the callers brought. *)
Definition xchg_inv (l : list (cpu * Z)) (dest v0 : Z) (c : system) : Prop :=
  Forall2 (xchg_thread dest) l (threads c) /\
  Permutation (read 4 (shared c) dest :: holds l (threads c))
              (wrap 4 v0 :: map (fun p => wrap 4 (snd p)) l).

(** * Properties *)

(** ** Fixed-width values and bytes *)

Lemma modulus_pos (W : nat) : 0 < modulus W.
Proof. unfold modulus. apply Z.pow_pos_nonneg; lia. Qed.

Lemma modulus_succ (W : nat) : modulus (S W) = 256 * modulus W.
Proof.
  unfold modulus.
  replace (8 * Z.of_nat (S W)) with (8 + 8 * Z.of_nat W) by lia.
  rewrite Z.pow_add_r by lia. reflexivity.
Qed.

Lemma wrap_range (W : nat) (v : Z) : 0 <= wrap W v < modulus W.
Proof. unfold wrap. apply Z.mod_pos_bound, modulus_pos. Qed.

Lemma wrap_small (W : nat) (v : Z) : 0 <= v < modulus W -> wrap W v = v.
Proof. intros H. unfold wrap. apply Z.mod_small, H. Qed.

Lemma wrap_wrap (W : nat) (v : Z) : wrap W (wrap W v) = wrap W v.
Proof. apply wrap_small, wrap_range. Qed.

Lemma wrap_add_l (W : nat) (u v : Z) : wrap W (wrap W u + v) = wrap W (u + v).
Proof. unfold wrap. apply Z.add_mod_idemp_l. pose proof (modulus_pos W). lia. Qed.

Lemma wrap_add_r (W : nat) (u v : Z) : wrap W (u + wrap W v) = wrap W (u + v).
Proof. unfold wrap. apply Z.add_mod_idemp_r. pose proof (modulus_pos W). lia. Qed.

Lemma wrap_succ (W : nat) (v : Z) :
  wrap (S W) v = v mod 256 + 256 * wrap W (v / 256).
Proof.
  unfold wrap. rewrite modulus_succ.
  pose proof (modulus_pos W).
  rewrite Z.rem_mul_r by lia. reflexivity.
Qed.

Lemma signed_wrap (W : nat) (u : Z) : wrap W (signed W u) = wrap W u.
Proof.
  unfold signed. destruct (wrap W u <? modulus W / 2).
  - apply wrap_wrap.
  - unfold wrap at 1.
    replace (wrap W u - modulus W) with (wrap W u + (-1) * modulus W) by lia.
    rewrite Z.mod_add by (pose proof (modulus_pos W); lia).
    apply wrap_wrap.
Qed.

Lemma signed_of_wrap (W : nat) (u : Z) : signed W (wrap W u) = signed W u.
Proof. unfold signed. rewrite wrap_wrap. reflexivity. Qed.

Lemma signed_range (W : nat) (u : Z) :
  (0 < W)%nat -> - (modulus W / 2) <= signed W u < modulus W / 2.
Proof.
  intros HW. unfold signed.
  pose proof (wrap_range W u) as Hr.
  assert (Hm : modulus W = 2 * (modulus W / 2)).
  { destruct W as [|W']; [lia|]. rewrite modulus_succ.
    pose proof (modulus_pos W').
    replace (256 * modulus W') with (2 * (128 * modulus W')) by lia.
    rewrite Z.mul_comm at 2. rewrite Z.div_mul by lia. lia. }
  destruct (Z.ltb_spec (wrap W u) (modulus W / 2)); lia.
Qed.

Lemma Z_of_byte_range (b : byte) : 0 <= Z_of_byte b < 256.
Proof.
  unfold Z_of_byte. pose proof (Byte.to_N_bounded b). lia.
Qed.

Lemma Z_of_byte_of_Z (z : Z) : Z_of_byte (byte_of_Z z) = z mod 256.
Proof.
  unfold Z_of_byte, byte_of_Z.
  pose proof (Z.mod_pos_bound z 256 ltac:(lia)) as Hz.
  destruct (Byte.of_N (Z.to_N (z mod 256))) as [b|] eqn:E.
  - apply Byte.to_of_N in E. rewrite E. lia.
  - apply Byte.of_N_None_iff in E. lia.
Qed.

Lemma byte_of_Z_of_byte (b : byte) : byte_of_Z (Z_of_byte b) = b.
Proof.
  unfold byte_of_Z.
  rewrite Z.mod_small by apply Z_of_byte_range.
  unfold Z_of_byte. rewrite N2Z.id, Byte.of_to_N. reflexivity.
Qed.

Lemma byte_of_Z_mod (z : Z) : byte_of_Z (z mod 256) = byte_of_Z z.
Proof.
  unfold byte_of_Z. rewrite Z.mod_mod by lia. reflexivity.
Qed.

Lemma div_256 (x y : Z) : 0 <= x < 256 -> (x + 256 * y) / 256 = y.
Proof. intros H. symmetry. apply Z.div_unique with x; lia. Qed.

Lemma mod_256 (x y : Z) : 0 <= x < 256 -> (x + 256 * y) mod 256 = x.
Proof. intros H. symmetry. apply Z.mod_unique with y; lia. Qed.

(** ** Memory *)

Lemma read_range (W : nat) (m : mem) (a : Z) : 0 <= read W m a < modulus W.
Proof.
  revert a. induction W as [|W IH]; intros a; cbn [read].
  - unfold modulus. simpl. lia.
  - rewrite modulus_succ. pose proof (Z_of_byte_range (m a)). specialize (IH (a + 1)). lia.
Qed.

Lemma read_ext (W : nat) (m1 m2 : mem) (a : Z) :
  (forall b, in_slot a W b -> m1 b = m2 b) -> read W m1 a = read W m2 a.
Proof.
  revert a. induction W as [|W IH]; intros a H; cbn [read]; [reflexivity|].
  rewrite (H a) by (unfold in_slot; lia).
  rewrite (IH (a + 1)); [reflexivity|].
  intros b Hb. apply H. unfold in_slot in *. lia.
Qed.

Lemma write_outside (W : nat) (m : mem) (a v b : Z) :
  ~ in_slot a W b -> write W m a v b = m b.
Proof.
  revert m a v. induction W as [|W IH]; intros m a v H; cbn [write]; [reflexivity|].
  rewrite IH by (unfold in_slot in *; lia).
  unfold upd. destruct (Z.eqb_spec b a); [|reflexivity].
  exfalso. apply H. unfold in_slot. lia.
Qed.

Lemma write_ext (W : nat) (m1 m2 : mem) (a v b : Z) :
  m1 b = m2 b -> write W m1 a v b = write W m2 a v b.
Proof.
  revert m1 m2 a v. induction W as [|W IH]; intros m1 m2 a v H; cbn [write]; [exact H|].
  apply IH. unfold upd. destruct (b =? a); [reflexivity|exact H].
Qed.

Lemma read_write_same (W : nat) (m : mem) (a v : Z) :
  read W (write W m a v) a = wrap W v.
Proof.
  revert m a v. induction W as [|W IH]; intros m a v.
  - simpl. unfold wrap, modulus. simpl. rewrite Z.mod_1_r. reflexivity.
  - cbn [read]. cbn [write]. rewrite IH.
    rewrite write_outside by (unfold in_slot; lia).
    unfold upd. rewrite Z.eqb_refl, Z_of_byte_of_Z.
    symmetry. apply wrap_succ.
Qed.

Lemma read_write_disjoint (W1 W2 : nat) (m : mem) (a1 a2 v : Z) :
  a2 + Z.of_nat W2 <= a1 \/ a1 + Z.of_nat W1 <= a2 ->
  read W1 (write W2 m a2 v) a1 = read W1 m a1.
Proof.
  intros H. apply read_ext. intros b Hb. apply write_outside.
  unfold in_slot in *. lia.
Qed.

Lemma write_read_id (W : nat) (m : mem) (a b : Z) :
  write W m a (read W m a) b = m b.
Proof.
  revert m a. induction W as [|W IH]; intros m a; cbn [read]; cbn [write]; [reflexivity|].
  pose proof (Z_of_byte_range (m a)) as Hb.
  rewrite div_256 by exact Hb.
  rewrite <- byte_of_Z_mod, mod_256 by exact Hb.
  rewrite byte_of_Z_of_byte.
  rewrite (write_ext W (upd m a (m a)) m).
  - apply IH.
  - unfold upd. destruct (Z.eqb_spec b a); subst; reflexivity.
Qed.

Lemma write_wrap (W : nat) (m : mem) (a v b : Z) :
  write W m a (wrap W v) b = write W m a v b.
Proof.
  revert m a v. induction W as [|W IH]; intros m a v; cbn [write]; [reflexivity|].
  rewrite wrap_succ.
  pose proof (Z.mod_pos_bound v 256 ltac:(lia)) as Hv.
  rewrite div_256 by exact Hv.
  rewrite IH.
  apply write_ext. unfold upd. destruct (b =? a); [|reflexivity].
  rewrite <- byte_of_Z_mod, mod_256 by exact Hv.
  apply byte_of_Z_mod.
Qed.

(** ** The x87 conversions *)

Lemma x87_int_roundtrip (r : rounding_control) (n : Z) :
  - 2 ^ 63 <= n < 2 ^ 63 -> x87_to_int r (x87_of_int n) = n.
Proof.
  intros Hn. unfold x87_of_int.
  destruct (Z.eqb_spec n 0) as [->|Hz]; [reflexivity|].
  set (k := 63 - Z.log2 (Z.abs n)).
  assert (Hk : 0 <= k).
  { assert (Z.log2 (Z.abs n) < 64); [|lia].
    apply Z.log2_lt_pow2; lia. }
  assert (Hin : (- 2 ^ 63 <=? n) && (n <? 2 ^ 63) = true).
  { apply andb_true_iff. split; [apply Z.leb_le | apply Z.ltb_lt]; lia. }
  assert (Hsign : (if n <? 0 then - Z.abs n else Z.abs n) = n).
  { destruct (Z.ltb_spec n 0); lia. }
  unfold x87_to_int.
  destruct (Z.leb_spec 0 (- k)) as [Hle|Hlt].
  - assert (k = 0) as -> by lia.
    change (- 0) with 0. rewrite Z.pow_0_r, !Z.mul_1_r.
    rewrite Hsign, Hin. reflexivity.
  - assert (Hp : 0 < 2 ^ k) by (apply Z.pow_pos_nonneg; lia).
    rewrite Z.opp_involutive.
    rewrite Z.div_mul, Z.mod_mul by lia.
    unfold round_magnitude. rewrite Z.eqb_refl.
    rewrite Hsign, Hin. reflexivity.
Qed.

Lemma x87_top_push (x : x87_value) (l : list x87_value) :
  (length l < x87_depth)%nat -> x87_top (x87_push x l) = x.
Proof.
  intros H. unfold x87_push. apply Nat.ltb_lt in H. rewrite H. reflexivity.
Qed.

Lemma x87_pop_push (x : x87_value) (l : list x87_value) :
  (length l < x87_depth)%nat -> tl (x87_push x l) = l.
Proof.
  intros H. unfold x87_push. apply Nat.ltb_lt in H. rewrite H. reflexivity.
Qed.

(** A 64-bit pattern survives [fild] followed by [fistp]. *)
Lemma x87_signed_roundtrip (r : rounding_control) (u : Z) :
  x87_to_int r (x87_of_int (signed 8 u)) = signed 8 u.
Proof.
  apply x87_int_roundtrip.
  pose proof (signed_range 8 u ltac:(lia)) as H.
  change (modulus 8 / 2) with (2 ^ 63) in H. exact H.
Qed.

(** ** Registers and casts *)

Lemma ptr32_wrap (a : Z) : ptr32 a -> wrap 4 a = a.
Proof. intros H. apply wrap_small. exact H. Qed.

Lemma wrap_read (W : nat) (m : mem) (a : Z) : wrap W (read W m a) = read W m a.
Proof. apply wrap_small, read_range. Qed.

Lemma wrap_1_4 (x : Z) : wrap 1 (wrap 4 x) = wrap 1 x.
Proof.
  unfold wrap. change (modulus 4) with (256 * 2 ^ 24). change (modulus 1) with 256.
  rewrite Z.rem_mul_r by lia. apply mod_256. apply Z.mod_pos_bound. lia.
Qed.

(** Writing the low byte of a register leaves that byte. *)
Lemma low_byte_set (x v : Z) : wrap 1 (wrap 4 (x - wrap 1 x + wrap 1 v)) = wrap 1 v.
Proof.
  rewrite wrap_1_4. unfold wrap. change (modulus 1) with 256.
  rewrite (Z.div_mod x 256) at 1 by lia.
  replace (256 * (x / 256) + x mod 256 - x mod 256 + v mod 256)
    with (v mod 256 + 256 * (x / 256)) by lia.
  apply mod_256. apply Z.mod_pos_bound. lia.
Qed.

Lemma decode_object_repr (W : nat) (v : Z) : decode_le (object_repr W v) = wrap W v.
Proof.
  revert v. induction W as [|W IH]; intros v; cbn [object_repr decode_le].
  - unfold wrap, modulus. simpl. rewrite Z.mod_1_r. reflexivity.
  - rewrite IH, Z_of_byte_of_Z. symmetry. apply wrap_succ.
Qed.

(** The second [jint] of a [jlong] is its upper half. *)
Lemma jint_at_1 (v : Z) : jint_at (object_repr 8 v) 1 = wrap 4 (v / 2 ^ 32).
Proof.
  unfold jint_at.
  change (firstn 4 (skipn (4 * 1) (object_repr 8 v)))
    with (object_repr 4 (v / 256 / 256 / 256 / 256)).
  rewrite decode_object_repr.
  rewrite !Z.div_div by lia. reflexivity.
Qed.

Lemma halves_of_jlong (v : Z) : wrap 4 v + 2 ^ 32 * wrap 4 (v / 2 ^ 32) = wrap 8 v.
Proof.
  unfold wrap. change (modulus 8) with (2 ^ 32 * 2 ^ 32). change (modulus 4) with (2 ^ 32).
  rewrite Z.rem_mul_r by lia. reflexivity.
Qed.

Lemma upper_half (u : Z) : 0 <= u < modulus 8 -> wrap 4 (u / 2 ^ 32) = u / 2 ^ 32.
Proof.
  intros H. apply wrap_small. change (modulus 8) with (2 ^ 32 * 2 ^ 32) in H.
  change (modulus 4) with (2 ^ 32). split.
  - apply Z.div_pos; lia.
  - apply Z.div_lt_upper_bound; lia.
Qed.

Lemma lower_upper (u : Z) : wrap 4 u + 2 ^ 32 * (u / 2 ^ 32) = u.
Proof.
  unfold wrap. change (modulus 4) with (2 ^ 32).
  rewrite (Z.div_mod u (2 ^ 32)) at 3 by lia. lia.
Qed.

Lemma low_byte_reset (x y v : Z) :
  wrap 1 x = y -> wrap 1 (wrap 4 (x - y + wrap 1 v)) = wrap 1 v.
Proof. intros <-. apply low_byte_set. Qed.

(** ** Symbolic execution of the [__asm] blocks *)

Ltac exec :=
  cbv beta iota zeta delta
    [IA32.PlatformAdd_4_add_and_fetch IA32.add_and_fetch_asm IA32.Atomic_add
     IA32.Atomic_add_ptr IA32.Atomic_inc IA32.Atomic_dec
     IA32.Atomic_inc_ptr IA32.Atomic_inc_ptr_void
     IA32.Atomic_dec_ptr IA32.Atomic_dec_ptr_void
     IA32.Atomic_xchg IA32.Atomic_xchg_ptr IA32.Atomic_xchg_ptr_void
     IA32.PlatformCmpxchg_1 IA32.PlatformCmpxchg_4 IA32.PlatformCmpxchg_8
     IA32.Atomic_load IA32.Atomic_store_jlong IA32.Atomic_store_jlong_volatile
     __asm bind ret result_al result_eax result_edx_eax deref local local_init leave
     run_uops concat app fold_left lock on_regs
     mov mov_rr mov8 add_rr rmw_read xadd_m32 add_m32_imm sub_m32_imm xchg_r_m32
     cmpxchg_m8 cmpxchg_m32 cmpxchg8b push pop fild_m64 fistp_m64
     get32 set32 get8 set8 parent set_zf set_latch set_st
     regs memory eax ebx ecx edx edi esp zf latch rc st fst snd
     preserved same_visible x87_free stack_room in_frame].

Ltac wrap_norm :=
  repeat first
    [ rewrite wrap_wrap | rewrite wrap_read | rewrite wrap_add_l | rewrite wrap_add_r ].

Lemma ia32_add_and_fetch_run (add_value dest : Z) (s : machine) :
  ptr32 dest ->
  let v := wrap 4 (read 4 (memory s) dest + add_value) in
  let out := IA32.PlatformAdd_4_add_and_fetch add_value dest s in
  fst out = v /\ memory (snd out) = write 4 (memory s) dest v /\ preserved s (snd out).
Proof.
  intros Hd. destruct s as [[a b c d di sp z l r f] m]. exec.
  rewrite (ptr32_wrap dest Hd). wrap_norm. repeat split.
Qed.

Lemma ia32_inc_run (dest : Z) (s : machine) :
  ptr32 dest ->
  let out := IA32.Atomic_inc dest s in
  memory (snd out) = write 4 (memory s) dest (wrap 4 (read 4 (memory s) dest + 1)) /\
  preserved s (snd out).
Proof.
  intros Hd. destruct s as [[a b c d di sp z l r f] m]. exec.
  rewrite (ptr32_wrap dest Hd). repeat split.
Qed.

Lemma ia32_dec_run (dest : Z) (s : machine) :
  ptr32 dest ->
  let out := IA32.Atomic_dec dest s in
  memory (snd out) = write 4 (memory s) dest (wrap 4 (read 4 (memory s) dest - 1)) /\
  preserved s (snd out).
Proof.
  intros Hd. destruct s as [[a b c d di sp z l r f] m]. exec.
  rewrite (ptr32_wrap dest Hd). repeat split.
Qed.

Lemma ia32_xchg_run (exchange_value dest : Z) (s : machine) :
  ptr32 dest ->
  let out := IA32.Atomic_xchg exchange_value dest s in
  fst out = read 4 (memory s) dest /\
  memory (snd out) = write 4 (memory s) dest (wrap 4 exchange_value) /\
  preserved s (snd out).
Proof.
  intros Hd. destruct s as [[a b c d di sp z l r f] m]. exec.
  rewrite (ptr32_wrap dest Hd). wrap_norm. repeat split.
Qed.

Lemma ia32_cmpxchg_4_run {cmo : Type} (exchange_value dest compare_value : Z)
    (order : cmo) (s : machine) :
  ptr32 dest ->
  let old := read 4 (memory s) dest in
  let out := IA32.PlatformCmpxchg_4 exchange_value dest compare_value order s in
  fst out = old /\
  memory (snd out) =
    write 4 (memory s) dest
      (if old =? wrap 4 compare_value then wrap 4 exchange_value else old) /\
  preserved s (snd out).
Proof.
  intros Hd. destruct s as [[a b c d di sp z l r f] m]. exec.
  rewrite (ptr32_wrap dest Hd).
  destruct (Z.eqb_spec (read 4 m dest) (wrap 4 compare_value)) as [E|E]; exec.
  - rewrite E. repeat split.
  - wrap_norm. repeat split.
Qed.

Lemma ia32_cmpxchg_1_run {cmo : Type} (exchange_value dest compare_value : Z)
    (order : cmo) (s : machine) :
  ptr32 dest ->
  let old := read 1 (memory s) dest in
  let out := IA32.PlatformCmpxchg_1 exchange_value dest compare_value order s in
  fst out = old /\
  memory (snd out) =
    write 1 (memory s) dest
      (if old =? wrap 1 compare_value then wrap 1 exchange_value else old) /\
  preserved s (snd out).
Proof.
  intros Hd. destruct s as [[a b c d di sp z l r f] m]. exec.
  rewrite (ptr32_wrap dest Hd).
  rewrite !low_byte_set.
  destruct (Z.eqb_spec (read 1 m dest) (wrap 1 compare_value)) as [E|E]; exec.
  - rewrite low_byte_set, E. repeat split.
  - rewrite low_byte_reset by apply low_byte_set. wrap_norm. repeat split.
Qed.


Lemma wrap_4_small (x : Z) : 0 <= x < 2 ^ 32 -> wrap 4 x = x.
Proof. intros H. apply wrap_small. exact H. Qed.

Lemma ia32_cmpxchg_8_run {cmo : Type} (exchange_value dest compare_value : Z)
    (order : cmo) (s : machine) :
  ptr32 dest -> stack_room s 8 -> slot_off_frame s 8 dest 8 ->
  let old := read 8 (memory s) dest in
  let sp := esp (regs s) in
  let out := IA32.PlatformCmpxchg_8 exchange_value dest compare_value order s in
  fst out = old /\
  memory (snd out) =
    write 8 (write 4 (write 4 (memory s) (sp - 4) (ebx (regs s))) (sp - 8) (edi (regs s)))
      dest (if old =? wrap 8 compare_value then wrap 8 exchange_value else old) /\
  esp (regs (snd out)) = sp.
Proof.
  intros Hd Hs Hf. destruct s as [[a b c d di sp z l r f] m].
  unfold stack_room, slot_off_frame in Hs, Hf. cbn [regs esp] in Hs, Hf.
  exec. unfold cast. rewrite !jint_at_1. wrap_norm. rewrite !halves_of_jlong.
  rewrite (ptr32_wrap dest Hd).
  rewrite (wrap_4_small (sp - 4)) by lia.
  rewrite (wrap_4_small (sp - 4 - 4)) by lia.
  replace (sp - 4 - 4) with (sp - 8) by lia.
  set (m1 := write 4 (write 4 m (sp - 4) b) (sp - 8) di).
  assert (Hr : read 8 m1 dest = read 8 m dest).
  { unfold m1. rewrite !read_write_disjoint by lia. reflexivity. }
  rewrite Hr.
  destruct (Z.eqb_spec (read 8 m dest) (wrap 8 compare_value)) as [E|E]; exec.
  - rewrite halves_of_jlong, E.
    rewrite (wrap_4_small (sp - 8 + 4 + 4)) by lia.
    repeat split. lia.
  - rewrite (upper_half (read 8 m dest)) by apply read_range.
    rewrite lower_upper.
    rewrite (wrap_4_small (sp - 8 + 4 + 4)) by lia.
    repeat split. lia.
Qed.

Lemma ia32_load_run (src : Z) (s : machine) :
  ptr32 src -> x87_free s ->
  let pdest := wrap 4 (esp (regs s) - 8) in
  let out := IA32.Atomic_load src s in
  fst out = read 8 (memory s) src /\
  memory (snd out) = write 8 (memory s) pdest (signed 8 (read 8 (memory s) src)) /\
  st (regs (snd out)) = st (regs s).
Proof.
  intros Hs Hx. destruct s as [[a b c d di sp z l r f] m].
  unfold x87_free in Hx. cbn [regs st] in Hx.
  exec. change (Z.of_nat 8) with 8.
  rewrite (ptr32_wrap src Hs). wrap_norm.
  rewrite x87_top_push, x87_pop_push by exact Hx.
  rewrite x87_signed_roundtrip.
  rewrite read_write_same, signed_wrap, wrap_read.
  repeat split.
Qed.

Lemma ia32_store_jlong_run (store_value dest : Z) (s : machine) :
  ptr32 dest -> x87_free s ->
  let src := wrap 4 (esp (regs s) - 8) in
  let out := IA32.Atomic_store_jlong_volatile store_value dest s in
  memory (snd out) =
    write 8 (write 8 (memory s) src store_value) dest (signed 8 store_value) /\
  st (regs (snd out)) = st (regs s).
Proof.
  intros Hd Hx. destruct s as [[a b c d di sp z l r f] m].
  unfold x87_free in Hx. cbn [regs st] in Hx.
  exec. change (Z.of_nat 8) with 8.
  rewrite (ptr32_wrap dest Hd). wrap_norm.
  rewrite x87_top_push, x87_pop_push by exact Hx.
  rewrite x87_signed_roundtrip.
  rewrite read_write_same, signed_of_wrap.
  repeat split.
Qed.

(** ** The read-modify-write operations meet their contracts *)

Lemma agree_refl (x : Z * mem) : agree x x.
Proof. split; reflexivity. Qed.

Lemma agree_trans (x y z : Z * mem) : agree x y -> agree y z -> agree x z.
Proof.
  intros [H1 H2] [H3 H4]. split; [congruence|].
  intros a. rewrite H2. apply H4.
Qed.

Lemma os_reference_ok : os_contract os_reference.
Proof. constructor; intros; apply agree_refl. Qed.

Lemma fetch_add_post (W : nat) (v0 d dest : Z) (m : mem) (r : Z) (m' : mem) :
  agree (r, m') (fetch_add W d dest (write W m dest v0)) ->
  add_post W v0 d dest r m'.
Proof.
  unfold agree, fetch_add, add_post. cbn [fst snd]. intros [Hr Hm].
  rewrite read_write_same, wrap_add_l in Hr, Hm.
  split; [exact Hr|].
  rewrite (read_ext W m' _ dest (fun b _ => Hm b)).
  rewrite read_write_same. apply wrap_wrap.
Qed.

Lemma exchange_post (W : nat) (n dest : Z) (m : mem) (r : Z) (m' : mem) :
  agree (r, m') (exchange W n dest m) -> xchg_post W n dest m r m'.
Proof.
  unfold agree, exchange, xchg_post. cbn [fst snd]. intros [Hr Hm].
  split; [exact Hr|].
  rewrite (read_ext W m' _ dest (fun b _ => Hm b)).
  apply read_write_same.
Qed.

Lemma compare_exchange_post (W : nat) (e dest c : Z) (m : mem) (r : Z) (m' : mem) :
  agree (r, m') (compare_exchange W e dest c m) -> cmpxchg_post W e dest c m r m'.
Proof.
  unfold agree, compare_exchange, cmpxchg_post. cbn [fst snd]. intros [Hr Hm].
  split; [exact Hr|].
  rewrite (read_ext W m' _ dest (fun b _ => Hm b)).
  destruct (Z.eqb_spec (read W m dest) (wrap W c)) as [E|E].
  - split; [intros _; apply read_write_same | intros H; contradiction].
  - split; [intros H; contradiction | intros _; reflexivity].
Qed.

Lemma fetch_add_only_slot (W : nat) (d dest : Z) (m : mem) (x : Z * mem) :
  agree x (fetch_add W d dest m) -> only_slot dest W m (snd x).
Proof.
  unfold agree, fetch_add, only_slot. cbn [fst snd]. intros [_ Hm] a Ha.
  rewrite Hm. apply write_outside, Ha.
Qed.

Lemma exchange_only_slot (W : nat) (n dest : Z) (m : mem) (x : Z * mem) :
  agree x (exchange W n dest m) -> only_slot dest W m (snd x).
Proof.
  unfold agree, exchange, only_slot. cbn [fst snd]. intros [_ Hm] a Ha.
  rewrite Hm. apply write_outside, Ha.
Qed.

Lemma compare_exchange_only_slot (W : nat) (e dest c : Z) (m : mem) (x : Z * mem) :
  agree x (compare_exchange W e dest c m) -> only_slot dest W m (snd x).
Proof.
  unfold agree, compare_exchange, only_slot. cbn [fst snd]. intros [_ Hm] a Ha.
  rewrite Hm. destruct (read W m dest =? wrap W c); [|reflexivity].
  apply write_outside, Ha.
Qed.

(** ** The 32-bit build refines the read-modify-write operations *)

Lemma ia32_add_refines (add_value dest : Z) (s : machine) :
  ptr32 dest ->
  agree (outcome (IA32.PlatformAdd_4_add_and_fetch add_value dest s))
        (fetch_add 4 add_value dest (memory s)).
Proof.
  intros Hd. destruct (ia32_add_and_fetch_run add_value dest s Hd) as (Hr & Hm & _).
  unfold agree, outcome, fetch_add. cbn [fst snd]. rewrite Hr, Hm.
  split; reflexivity.
Qed.

Lemma ia32_xchg_refines (exchange_value dest : Z) (s : machine) :
  ptr32 dest ->
  agree (outcome (IA32.Atomic_xchg exchange_value dest s))
        (exchange 4 exchange_value dest (memory s)).
Proof.
  intros Hd. destruct (ia32_xchg_run exchange_value dest s Hd) as (Hr & Hm & _).
  unfold agree, outcome, exchange. cbn [fst snd]. rewrite Hr, Hm.
  split; [reflexivity|]. intros a. apply write_wrap.
Qed.

Lemma cmpxchg_memory (W : nat) (m : mem) (dest e c a : Z) :
  write W m dest
    (if read W m dest =? wrap W c then wrap W e else read W m dest) a =
  (if read W m dest =? wrap W c then write W m dest e else m) a.
Proof.
  destruct (read W m dest =? wrap W c).
  - apply write_wrap.
  - apply write_read_id.
Qed.

Lemma ia32_cmpxchg_1_refines {cmo : Type} (e dest c : Z) (order : cmo) (s : machine) :
  ptr32 dest ->
  agree (outcome (IA32.PlatformCmpxchg_1 e dest c order s))
        (compare_exchange 1 e dest c (memory s)).
Proof.
  intros Hd. destruct (ia32_cmpxchg_1_run e dest c order s Hd) as (Hr & Hm & _).
  unfold agree, outcome, compare_exchange. cbn [fst snd]. rewrite Hr, Hm.
  split; [reflexivity|]. intros a. apply cmpxchg_memory.
Qed.

Lemma ia32_cmpxchg_4_refines {cmo : Type} (e dest c : Z) (order : cmo) (s : machine) :
  ptr32 dest ->
  agree (outcome (IA32.PlatformCmpxchg_4 e dest c order s))
        (compare_exchange 4 e dest c (memory s)).
Proof.
  intros Hd. destruct (ia32_cmpxchg_4_run e dest c order s Hd) as (Hr & Hm & _).
  unfold agree, outcome, compare_exchange. cbn [fst snd]. rewrite Hr, Hm.
  split; [reflexivity|]. intros a. apply cmpxchg_memory.
Qed.

(** The 8-byte compare-exchange does the same on the memory its two
    pushes leave. *)
Lemma ia32_cmpxchg_8_refines {cmo : Type} (e dest c : Z) (order : cmo) (s : machine) :
  ptr32 dest -> stack_room s 8 -> slot_off_frame s 8 dest 8 ->
  let sp := esp (regs s) in
  let pushed :=
    write 4 (write 4 (memory s) (sp - 4) (ebx (regs s))) (sp - 8) (edi (regs s)) in
  agree (outcome (IA32.PlatformCmpxchg_8 e dest c order s))
        (compare_exchange 8 e dest c pushed) /\
  read 8 pushed dest = read 8 (memory s) dest.
Proof.
  intros Hd Hs Hf sp pushed.
  destruct (ia32_cmpxchg_8_run e dest c order s Hd Hs Hf) as (Hr & Hm & _).
  assert (Hp : read 8 pushed dest = read 8 (memory s) dest).
  { unfold pushed, sp. unfold stack_room, slot_off_frame in Hs, Hf.
    rewrite !read_write_disjoint by lia. reflexivity. }
  split; [|exact Hp].
  unfold agree, outcome, compare_exchange. cbn [fst snd]. rewrite Hr, Hm, Hp.
  split; [reflexivity|]. intros a. fold sp. fold pushed.
  rewrite <- Hp. apply cmpxchg_memory.
Qed.

(** ** The 64-bit build refines them when the entry points do *)

Lemma amd64_add_helper (W : nat) (fn : Z -> Z -> mem -> Z * mem) (d dest : Z) (m : mem) :
  (forall v dest m, agree (fn v dest m) (fetch_add W v dest m)) ->
  agree (AMD64.add_using_helper W fn d dest m) (fetch_add W d dest m).
Proof.
  intros H. unfold AMD64.add_using_helper.
  specialize (H (cast W d) dest m).
  destruct (fn (cast W d) dest m) as [r m'].
  unfold agree, fetch_add, cast in *. cbn [fst snd] in *.
  destruct H as [Hr Hm]. rewrite wrap_add_r in Hr, Hm.
  split; [|exact Hm]. rewrite Hr. apply wrap_wrap.
Qed.

Lemma amd64_cmpxchg_helper (W : nat) (fn : Z -> Z -> Z -> mem -> Z * mem)
    (e dest c : Z) (m : mem) :
  (forall e dest c m, agree (fn e dest c m) (compare_exchange W e dest c m)) ->
  agree (AMD64.cmpxchg_using_helper W fn e dest c m) (compare_exchange W e dest c m).
Proof.
  intros H. unfold AMD64.cmpxchg_using_helper.
  specialize (H (cast W e) dest (cast W c) m).
  destruct (fn (cast W e) dest (cast W c) m) as [r m'].
  unfold agree, compare_exchange, cast in *. cbn [fst snd] in *.
  destruct H as [Hr Hm]. rewrite wrap_wrap in Hm.
  split.
  - rewrite Hr. apply wrap_read.
  - intros a. rewrite Hm. destruct (read W m dest =? wrap W c); [|reflexivity].
    apply write_wrap.
Qed.

Lemma amd64_xchg_helper (W : nat) (fn : Z -> Z -> mem -> Z * mem) (n dest : Z) (m : mem) :
  (forall v dest m, agree (fn v dest m) (exchange W v dest m)) ->
  agree (let (r, m') := fn n dest m in (cast W r, m')) (exchange W n dest m).
Proof.
  intros H. specialize (H n dest m).
  destruct (fn n dest m) as [r m'].
  unfold agree, exchange, cast in *. cbn [fst snd] in *.
  destruct H as [Hr Hm]. split; [|exact Hm]. rewrite Hr. apply wrap_read.
Qed.

(** * The claims *)

(** C1.  Compare-exchange, at every width 1, 4 and 8 and in both
    builds, returns the value the slot at [dest] held immediately
    before the call; if that value equals [compare_value] the slot
    then holds [exchange_value], otherwise the slot is unchanged.  In
    the 32-bit build this covers the 8-byte path that splits both
    operands into halves for [cmpxchg8b] (whose two pushes come before
    the read, hence the slot must not lie in the callee's frame); in
    the 64-bit build it holds of every provider of the entry points
    that meets its contract. *)
Theorem cmpxchg_returns_prior_value
    (cmo : Type) (order : cmo) (exchange_value dest compare_value : Z) :
  (forall s, ptr32 dest ->
     let out := IA32.PlatformCmpxchg_1 exchange_value dest compare_value order s in
     cmpxchg_post 1 exchange_value dest compare_value (memory s)
                  (fst out) (memory (snd out))) /\
  (forall s, ptr32 dest ->
     let out := IA32.PlatformCmpxchg_4 exchange_value dest compare_value order s in
     cmpxchg_post 4 exchange_value dest compare_value (memory s)
                  (fst out) (memory (snd out))) /\
  (forall s, ptr32 dest -> stack_room s 8 -> slot_off_frame s 8 dest 8 ->
     let out := IA32.PlatformCmpxchg_8 exchange_value dest compare_value order s in
     cmpxchg_post 8 exchange_value dest compare_value (memory s)
                  (fst out) (memory (snd out))) /\
  (forall o m, os_contract o ->
     let out := AMD64.PlatformCmpxchg_1 o exchange_value dest compare_value order m in
     cmpxchg_post 1 exchange_value dest compare_value m (fst out) (snd out)) /\
  (forall o m, os_contract o ->
     let out := AMD64.PlatformCmpxchg_4 o exchange_value dest compare_value order m in
     cmpxchg_post 4 exchange_value dest compare_value m (fst out) (snd out)) /\
  (forall o m, os_contract o ->
     let out := AMD64.PlatformCmpxchg_8 o exchange_value dest compare_value order m in
     cmpxchg_post 8 exchange_value dest compare_value m (fst out) (snd out)).
Proof.
  repeat apply conj.
  - intros s Hd out. apply compare_exchange_post.
    apply (ia32_cmpxchg_1_refines exchange_value dest compare_value order s Hd).
  - intros s Hd out. apply compare_exchange_post.
    apply (ia32_cmpxchg_4_refines exchange_value dest compare_value order s Hd).
  - intros s Hd Hs Hf out.
    destruct (ia32_cmpxchg_8_refines exchange_value dest compare_value order s Hd Hs Hf)
      as [Ha Hp].
    apply compare_exchange_post in Ha.
    unfold cmpxchg_post in *. rewrite Hp in Ha. exact Ha.
  - intros o m Ho out. apply compare_exchange_post.
    rewrite <- surjective_pairing.
    apply amd64_cmpxchg_helper, (atomic_cmpxchg_byte_ok o Ho).
  - intros o m Ho out. apply compare_exchange_post.
    rewrite <- surjective_pairing.
    apply amd64_cmpxchg_helper, (atomic_cmpxchg_ok o Ho).
  - intros o m Ho out. apply compare_exchange_post.
    rewrite <- surjective_pairing.
    apply amd64_cmpxchg_helper, (atomic_cmpxchg_long_ok o Ho).
Qed.

(** Scenario B of the specification as the instance: a slot that holds
    10, [cmpxchg(20, dest, 10)]; the first call returns 10 and leaves
    20, a second identical call returns 20 and leaves 20. *)
Lemma cmpxchg_returns_prior_value_witness :
  let m10 := write 8 zero_mem 4096 10 in
  (ptr32 4096 /\ stack_room (sample m10) 8 /\ slot_off_frame (sample m10) 8 4096 8 /\
   os_contract os_reference) /\
  (let o1 := IA32.PlatformCmpxchg_8 20 4096 10 tt (sample m10) in
   let o2 := IA32.PlatformCmpxchg_8 20 4096 10 tt (snd o1) in
   (fst o1, read 8 (memory (snd o1)) 4096, fst o2, read 8 (memory (snd o2)) 4096)
   = (10, 20, 20, 20)) /\
  (let out := IA32.PlatformCmpxchg_1 20 4096 10 tt (sample m10) in
   cmpxchg_post 1 20 4096 10 m10 (fst out) (memory (snd out))) /\
  (let out := IA32.PlatformCmpxchg_4 20 4096 10 tt (sample m10) in
   cmpxchg_post 4 20 4096 10 m10 (fst out) (memory (snd out))) /\
  (let out := IA32.PlatformCmpxchg_8 20 4096 10 tt (sample m10) in
   cmpxchg_post 8 20 4096 10 m10 (fst out) (memory (snd out))) /\
  (let out := AMD64.PlatformCmpxchg_1 os_reference 20 4096 10 tt m10 in
   cmpxchg_post 1 20 4096 10 m10 (fst out) (snd out)) /\
  (let out := AMD64.PlatformCmpxchg_4 os_reference 20 4096 10 tt m10 in
   cmpxchg_post 4 20 4096 10 m10 (fst out) (snd out)) /\
  (let out := AMD64.PlatformCmpxchg_8 os_reference 20 4096 10 tt m10 in
   cmpxchg_post 8 20 4096 10 m10 (fst out) (snd out)).
Proof.
  intros m10.
  assert (Hd : ptr32 4096) by (unfold ptr32; lia).
  assert (Hs : stack_room (sample m10) 8) by (unfold stack_room; simpl; lia).
  assert (Hf : slot_off_frame (sample m10) 8 4096 8)
    by (unfold slot_off_frame; simpl; lia).
  split; [exact (conj Hd (conj Hs (conj Hf os_reference_ok)))|].
  split; [reflexivity|].
  destruct (cmpxchg_returns_prior_value unit tt 20 4096 10)
    as (H1 & H4 & H8 & A1 & A4 & A8).
  exact (conj (H1 (sample m10) Hd)
        (conj (H4 (sample m10) Hd)
        (conj (H8 (sample m10) Hd Hs Hf)
        (conj (A1 os_reference m10 os_reference_ok)
        (conj (A4 os_reference m10 os_reference_ok)
              (A8 os_reference m10 os_reference_ok)))))).
Defined.

(** ** Exchange *)

Lemma ia32_xchg_cast_refines (n dest : Z) (s : machine) :
  ptr32 dest ->
  agree (outcome (bind (IA32.Atomic_xchg (cast 4 n) dest) (fun r => ret (cast 4 r)) s))
        (exchange 4 n dest (memory s)).
Proof.
  intros Hd. pose proof (ia32_xchg_refines (cast 4 n) dest s Hd) as H.
  unfold bind, ret. destruct (IA32.Atomic_xchg (cast 4 n) dest s) as [r s'].
  unfold agree, outcome, exchange, cast in *. cbn [fst snd] in *.
  destruct H as [Hr Hm]. split.
  - rewrite Hr. apply wrap_read.
  - intros a. rewrite Hm. apply write_wrap.
Qed.

Lemma amd64_xchg_ptr_void_refines (o : AMD64.os) (n dest : Z) (m : mem) :
  os_contract o ->
  agree (AMD64.Atomic_xchg_ptr_void o n dest m) (exchange 8 n dest m).
Proof.
  intros Ho. unfold AMD64.Atomic_xchg_ptr_void.
  eapply agree_trans; [apply (amd64_xchg_helper 8), (atomic_xchg_ptr_ok o Ho)|].
  unfold agree, exchange, cast. cbn [fst snd]. split; [reflexivity|].
  intros a. apply write_wrap.
Qed.

(** C5.  Exchange returns the value the slot at [dest] held immediately
    before the call and leaves the new value [n] in it.  This holds of
    [xchg] and of both pointer overloads [xchg_ptr], which pass through
    the integer type of the pointer's width (4 bytes in the 32-bit
    build, 8 in the 64-bit build, where it holds of every provider of
    the entry points that meets its contract). *)
Theorem xchg_returns_prior_value (n dest : Z) :
  (forall s, ptr32 dest ->
     let out := IA32.Atomic_xchg n dest s in
     xchg_post 4 n dest (memory s) (fst out) (memory (snd out))) /\
  (forall s, ptr32 dest ->
     let out := IA32.Atomic_xchg_ptr n dest s in
     xchg_post 4 n dest (memory s) (fst out) (memory (snd out))) /\
  (forall s, ptr32 dest ->
     let out := IA32.Atomic_xchg_ptr_void n dest s in
     xchg_post 4 n dest (memory s) (fst out) (memory (snd out))) /\
  (forall o m, os_contract o ->
     let out := AMD64.Atomic_xchg o n dest m in
     xchg_post 4 n dest m (fst out) (snd out)) /\
  (forall o m, os_contract o ->
     let out := AMD64.Atomic_xchg_ptr o n dest m in
     xchg_post 8 n dest m (fst out) (snd out)) /\
  (forall o m, os_contract o ->
     let out := AMD64.Atomic_xchg_ptr_void o n dest m in
     xchg_post 8 n dest m (fst out) (snd out)).
Proof.
  repeat apply conj.
  - intros s Hd out. apply exchange_post, (ia32_xchg_refines n dest s Hd).
  - intros s Hd out. apply exchange_post, (ia32_xchg_cast_refines n dest s Hd).
  - intros s Hd out. apply exchange_post, (ia32_xchg_cast_refines n dest s Hd).
  - intros o m Ho out. apply exchange_post. rewrite <- surjective_pairing.
    apply (amd64_xchg_helper 4), (atomic_xchg_ok o Ho).
  - intros o m Ho out. apply exchange_post. rewrite <- surjective_pairing.
    apply (amd64_xchg_helper 8), (atomic_xchg_ptr_ok o Ho).
  - intros o m Ho out. apply exchange_post. rewrite <- surjective_pairing.
    apply (amd64_xchg_ptr_void_refines o n dest m Ho).
Qed.

(** Scenario C of the specification as the instance: a slot that holds
    the address [A = 0x1000], exchanged for [B = 0x2000]. *)
Lemma xchg_returns_prior_value_witness :
  let dest := 4096 in
  let mA := write 8 zero_mem dest 0x1000 in
  (ptr32 dest /\ os_contract os_reference) /\
  IA32.Atomic_xchg_ptr_void 0x2000 dest (sample mA) = (0x1000, snd (IA32.Atomic_xchg_ptr_void 0x2000 dest (sample mA))) /\
  xchg_post 4 0x2000 dest mA
    (fst (IA32.Atomic_xchg 0x2000 dest (sample mA)))
    (memory (snd (IA32.Atomic_xchg 0x2000 dest (sample mA)))) /\
  xchg_post 4 0x2000 dest mA
    (fst (IA32.Atomic_xchg_ptr 0x2000 dest (sample mA)))
    (memory (snd (IA32.Atomic_xchg_ptr 0x2000 dest (sample mA)))) /\
  xchg_post 4 0x2000 dest mA
    (fst (IA32.Atomic_xchg_ptr_void 0x2000 dest (sample mA)))
    (memory (snd (IA32.Atomic_xchg_ptr_void 0x2000 dest (sample mA)))) /\
  xchg_post 4 0x2000 dest mA
    (fst (AMD64.Atomic_xchg os_reference 0x2000 dest mA))
    (snd (AMD64.Atomic_xchg os_reference 0x2000 dest mA)) /\
  xchg_post 8 0x2000 dest mA
    (fst (AMD64.Atomic_xchg_ptr os_reference 0x2000 dest mA))
    (snd (AMD64.Atomic_xchg_ptr os_reference 0x2000 dest mA)) /\
  xchg_post 8 0x2000 dest mA
    (fst (AMD64.Atomic_xchg_ptr_void os_reference 0x2000 dest mA))
    (snd (AMD64.Atomic_xchg_ptr_void os_reference 0x2000 dest mA)).
Proof.
  intros dest mA.
  assert (Hd : ptr32 dest) by (unfold ptr32, dest; lia).
  split; [exact (conj Hd os_reference_ok)|].
  split; [reflexivity|].
  destruct (xchg_returns_prior_value 0x2000 dest) as (H1 & H2 & H3 & A1 & A2 & A3).
  exact (conj (H1 (sample mA) Hd)
        (conj (H2 (sample mA) Hd)
        (conj (H3 (sample mA) Hd)
        (conj (A1 os_reference mA os_reference_ok)
        (conj (A2 os_reference mA os_reference_ok)
              (A3 os_reference mA os_reference_ok)))))).
Defined.

(** ** Add *)

(** The locked [xadd] leaves the pre-addition value in [eax] and the sum
    in memory; the [add] that follows works on registers only. *)
Lemma ia32_add_two_phases (add_value dest : Z) (s : machine) :
  ptr32 dest ->
  let body := IA32.add_and_fetch_asm add_value dest in
  let s1 := run_uops (concat (firstn 4 body)) s in
  let s2 := run_uops (concat (skipn 4 body)) s1 in
  eax (regs s1) = read 4 (memory s) dest /\
  memory s1 = write 4 (memory s) dest (wrap 4 (read 4 (memory s) dest + add_value)) /\
  memory s2 = memory s1 /\
  eax (regs s2) = wrap 4 (read 4 (memory s) dest + add_value) /\
  s2 = snd (IA32.PlatformAdd_4_add_and_fetch add_value dest s).
Proof.
  intros Hd. destruct s as [[a b c d di sp z l r f] m].
  cbv beta iota zeta delta [firstn skipn]. exec.
  rewrite (ptr32_wrap dest Hd). wrap_norm. repeat split.
Qed.

(** C3.  Starting from a slot that holds [v0], [add(d, dest)] returns
    [v0 + d] modulo [2^(8W)] and leaves it in the slot: at width 4 in
    the 32-bit build, where the locked [xadd] yields the pre-addition
    value [v0] and the sum is rebuilt by an [add] on registers that
    leaves memory alone, and at widths 4 and 8 in the 64-bit build, for
    every provider of the entry points that meets its contract. *)
Theorem add_returns_sum (v0 d dest : Z) :
  (forall s, ptr32 dest ->
     let s0 := mkMachine (regs s) (Atomic_store_jint v0 dest (memory s)) in
     let out := IA32.PlatformAdd_4_add_and_fetch d dest s0 in
     add_post 4 v0 d dest (fst out) (memory (snd out))) /\
  (forall s, ptr32 dest ->
     let s0 := mkMachine (regs s) (Atomic_store_jint v0 dest (memory s)) in
     let body := IA32.add_and_fetch_asm d dest in
     let s1 := run_uops (concat (firstn 4 body)) s0 in
     let s2 := run_uops (concat (skipn 4 body)) s1 in
     eax (regs s1) = wrap 4 v0 /\
     read 4 (memory s1) dest = wrap 4 (v0 + d) /\
     memory s2 = memory s1 /\
     eax (regs s2) = wrap 4 (v0 + d) /\
     s2 = snd (IA32.PlatformAdd_4_add_and_fetch d dest s0)) /\
  (forall o m, os_contract o ->
     let out := AMD64.PlatformAdd_4_add_and_fetch o d dest (Atomic_store_jint v0 dest m) in
     add_post 4 v0 d dest (fst out) (snd out)) /\
  (forall o m, os_contract o ->
     let out :=
       AMD64.PlatformAdd_8_add_and_fetch o d dest (AMD64.Atomic_store_jlong v0 dest m) in
     add_post 8 v0 d dest (fst out) (snd out)).
Proof.
  repeat apply conj.
  - intros s Hd s0 out. apply (fetch_add_post 4 v0 d dest (memory s)).
    apply (ia32_add_refines d dest s0 Hd).
  - intros s Hd s0 body s1 s2.
    destruct (ia32_add_two_phases d dest s0 Hd) as (H1 & H2 & H3 & H4 & H5).
    fold body in H1, H2, H3, H4, H5. fold s1 in H1, H2, H3, H4, H5.
    fold s2 in H3, H4, H5.
    unfold s0 in H1, H2, H4. cbn [memory] in H1, H2, H4.
    unfold Atomic_store_jint in H1, H2, H4.
    rewrite read_write_same in H1, H2, H4. rewrite wrap_add_l in H2, H4.
    repeat split; try assumption.
    rewrite H2, read_write_same. apply wrap_wrap.
  - intros o m Ho out. apply (fetch_add_post 4 v0 d dest m).
    rewrite <- surjective_pairing.
    apply amd64_add_helper, (atomic_add_ok o Ho).
  - intros o m Ho out. apply (fetch_add_post 8 v0 d dest m).
    rewrite <- surjective_pairing.
    apply amd64_add_helper, (atomic_add_ptr_ok o Ho).
Qed.

(** A wrap-around as the instance: the slot holds [0x7fffffff] (or its
    8-byte counterpart) and 1 is added; then [-1] is added to 0. *)
Lemma add_returns_sum_witness :
  let dest := 4096 in
  (ptr32 dest /\ os_contract os_reference) /\
  fst (IA32.PlatformAdd_4_add_and_fetch (-1) dest
         (sample (Atomic_store_jint 0 dest zero_mem))) = 0xffffffff /\
  (let out := IA32.PlatformAdd_4_add_and_fetch 1 dest
                (sample (Atomic_store_jint 0x7fffffff dest zero_mem)) in
   add_post 4 0x7fffffff 1 dest (fst out) (memory (snd out))) /\
  (let out := AMD64.PlatformAdd_4_add_and_fetch os_reference 1 dest
                (Atomic_store_jint 0x7fffffff dest zero_mem) in
   add_post 4 0x7fffffff 1 dest (fst out) (snd out)) /\
  (let out := AMD64.PlatformAdd_8_add_and_fetch os_reference 1 dest
                (AMD64.Atomic_store_jlong 0x7fffffffffffffff dest zero_mem) in
   add_post 8 0x7fffffffffffffff 1 dest (fst out) (snd out)).
Proof.
  intros dest.
  assert (Hd : ptr32 dest) by (unfold ptr32, dest; lia).
  split; [exact (conj Hd os_reference_ok)|].
  split; [reflexivity|].
  exact (conj (proj1 (add_returns_sum 0x7fffffff 1 dest) (sample zero_mem) Hd)
        (conj (proj1 (proj2 (proj2 (add_returns_sum 0x7fffffff 1 dest)))
                 os_reference zero_mem os_reference_ok)
              (proj2 (proj2 (proj2 (add_returns_sum 0x7fffffffffffffff 1 dest)))
                 os_reference zero_mem os_reference_ok))).
Defined.

(** ** The order argument *)

(** C6.  The [order] argument of compare-exchange has no effect: at
    every width 1, 4 and 8, for the same operands and the same state,
    two calls that differ only in [order] return the same value and
    leave the same state, in the 32-bit build and, whatever the entry
    points are, in the 64-bit build. *)
Theorem cmpxchg_ignores_order
    (cmo : Type) (o1 o2 : cmo) (exchange_value dest compare_value : Z) :
  (forall s,
     IA32.PlatformCmpxchg_1 exchange_value dest compare_value o1 s =
     IA32.PlatformCmpxchg_1 exchange_value dest compare_value o2 s) /\
  (forall s,
     IA32.PlatformCmpxchg_4 exchange_value dest compare_value o1 s =
     IA32.PlatformCmpxchg_4 exchange_value dest compare_value o2 s) /\
  (forall s,
     IA32.PlatformCmpxchg_8 exchange_value dest compare_value o1 s =
     IA32.PlatformCmpxchg_8 exchange_value dest compare_value o2 s) /\
  (forall o m,
     AMD64.PlatformCmpxchg_1 o exchange_value dest compare_value o1 m =
     AMD64.PlatformCmpxchg_1 o exchange_value dest compare_value o2 m) /\
  (forall o m,
     AMD64.PlatformCmpxchg_4 o exchange_value dest compare_value o1 m =
     AMD64.PlatformCmpxchg_4 o exchange_value dest compare_value o2 m) /\
  (forall o m,
     AMD64.PlatformCmpxchg_8 o exchange_value dest compare_value o1 m =
     AMD64.PlatformCmpxchg_8 o exchange_value dest compare_value o2 m).
Proof.
  repeat apply conj; intros.
  - unfold IA32.PlatformCmpxchg_1. reflexivity.
  - unfold IA32.PlatformCmpxchg_4. reflexivity.
  - unfold IA32.PlatformCmpxchg_8. reflexivity.
  - unfold AMD64.PlatformCmpxchg_1, AMD64.DEFINE_STUB_CMPXCHG. reflexivity.
  - unfold AMD64.PlatformCmpxchg_4, AMD64.DEFINE_STUB_CMPXCHG. reflexivity.
  - unfold AMD64.PlatformCmpxchg_8, AMD64.DEFINE_STUB_CMPXCHG. reflexivity.
Qed.

(** ** Increment and decrement *)

Lemma same_visible_of_runs (s s1 s2 : machine) :
  memory s1 = memory s2 -> preserved s s1 -> preserved s s2 -> same_visible s1 s2.
Proof.
  unfold same_visible, preserved.
  intros Hm (A1 & A2 & A3 & A4 & A5) (B1 & B2 & B3 & B4 & B5).
  split; [intros a; rewrite Hm; reflexivity|].
  repeat split; congruence.
Qed.

Lemma ia32_inc_is_add (dest : Z) (s : machine) :
  ptr32 dest ->
  same_visible (snd (IA32.Atomic_inc dest s))
               (snd (IA32.PlatformAdd_4_add_and_fetch 1 dest s)).
Proof.
  intros Hd.
  destruct (ia32_inc_run dest s Hd) as (Hm & Hp).
  destruct (ia32_add_and_fetch_run 1 dest s Hd) as (_ & Hm' & Hp').
  apply (same_visible_of_runs s); [|exact Hp|exact Hp'].
  rewrite Hm, Hm'. reflexivity.
Qed.

Lemma ia32_dec_is_add (dest : Z) (s : machine) :
  ptr32 dest ->
  same_visible (snd (IA32.Atomic_dec dest s))
               (snd (IA32.PlatformAdd_4_add_and_fetch (-1) dest s)).
Proof.
  intros Hd.
  destruct (ia32_dec_run dest s Hd) as (Hm & Hp).
  destruct (ia32_add_and_fetch_run (-1) dest s Hd) as (_ & Hm' & Hp').
  apply (same_visible_of_runs s); [|exact Hp|exact Hp'].
  rewrite Hm, Hm'. reflexivity.
Qed.

(** C4.  [inc(dest)] leaves the same state as [add(1, dest)] with its
    result dropped, and [dec(dest)] the same state as [add(-1, dest)]
    with its result dropped, and so do the pointer-width variants.  In
    the 32-bit build, where [inc] and [dec] are a locked [add] and a
    locked [sub] of their own, the two states agree on all a caller can
    observe: every byte of memory, the registers a callee preserves and
    the x87 unit.  In the 64-bit build the two are the same call,
    whatever the entry points are. *)
Theorem inc_dec_same_as_add (dest : Z) :
  (forall s, ptr32 dest ->
     same_visible (snd (IA32.Atomic_inc dest s)) (snd (IA32.Atomic_add 1 dest s))) /\
  (forall s, ptr32 dest ->
     same_visible (snd (IA32.Atomic_dec dest s)) (snd (IA32.Atomic_add (-1) dest s))) /\
  (forall s, ptr32 dest ->
     same_visible (snd (IA32.Atomic_inc_ptr dest s)) (snd (IA32.Atomic_add_ptr 1 dest s)) /\
     same_visible (snd (IA32.Atomic_inc_ptr_void dest s)) (snd (IA32.Atomic_add_ptr 1 dest s))) /\
  (forall s, ptr32 dest ->
     same_visible (snd (IA32.Atomic_dec_ptr dest s)) (snd (IA32.Atomic_add_ptr (-1) dest s)) /\
     same_visible (snd (IA32.Atomic_dec_ptr_void dest s)) (snd (IA32.Atomic_add_ptr (-1) dest s))) /\
  (forall o m,
     AMD64.Atomic_inc o dest m = snd (AMD64.Atomic_add o 1 dest m) /\
     AMD64.Atomic_dec o dest m = snd (AMD64.Atomic_add o (-1) dest m)) /\
  (forall o m,
     AMD64.Atomic_inc_ptr o dest m = snd (AMD64.Atomic_add_ptr o 1 dest m) /\
     AMD64.Atomic_inc_ptr_void o dest m = snd (AMD64.Atomic_add_ptr o 1 dest m) /\
     AMD64.Atomic_dec_ptr o dest m = snd (AMD64.Atomic_add_ptr o (-1) dest m) /\
     AMD64.Atomic_dec_ptr_void o dest m = snd (AMD64.Atomic_add_ptr o (-1) dest m)).
Proof.
  repeat apply conj.
  - intros s Hd. apply (ia32_inc_is_add dest s Hd).
  - intros s Hd. apply (ia32_dec_is_add dest s Hd).
  - intros s Hd. split; apply (ia32_inc_is_add dest s Hd).
  - intros s Hd. split; apply (ia32_dec_is_add dest s Hd).
  - intros o m. split; reflexivity.
  - intros o m. repeat split.
Qed.

(** A wrap-around as the instance: incrementing a slot that holds
    [0xffffffff] and decrementing a slot that holds 0. *)
Lemma inc_dec_same_as_add_witness :
  let dest := 4096 in
  let top := sample (Atomic_store_jint 0xffffffff dest zero_mem) in
  ptr32 dest /\
  read 4 (memory (snd (IA32.Atomic_inc dest top))) dest = 0 /\
  read 4 (memory (snd (IA32.Atomic_dec dest (sample zero_mem)))) dest = 0xffffffff /\
  same_visible (snd (IA32.Atomic_inc dest top)) (snd (IA32.Atomic_add 1 dest top)) /\
  same_visible (snd (IA32.Atomic_dec dest (sample zero_mem)))
               (snd (IA32.Atomic_add (-1) dest (sample zero_mem))) /\
  same_visible (snd (IA32.Atomic_inc_ptr dest top)) (snd (IA32.Atomic_add_ptr 1 dest top)) /\
  same_visible (snd (IA32.Atomic_dec_ptr_void dest top))
               (snd (IA32.Atomic_add_ptr (-1) dest top)).
Proof.
  intros dest top.
  assert (Hd : ptr32 dest) by (unfold ptr32, dest; lia).
  split; [exact Hd|].
  split; [reflexivity|]. split; [reflexivity|].
  destruct (inc_dec_same_as_add dest) as (H1 & H2 & H3 & H4 & _).
  exact (conj (H1 top Hd)
        (conj (H2 (sample zero_mem) Hd)
        (conj (proj1 (H3 top Hd)) (proj2 (H4 top Hd))))).
Defined.

(** ** Store and load *)

Lemma plain_store_load (W : nat) (v dest : Z) (m : mem) :
  fits W v -> plain_load W dest (write W m dest v) = v.
Proof.
  intros H. unfold plain_load. rewrite read_write_same. apply wrap_small, H.
Qed.

(** The 8-byte store of the 32-bit build leaves the pattern of
    [store_value] in the slot, and the x87 stack as it found it. *)
Lemma ia32_store_jlong_slot (store_value dest : Z) (s : machine) :
  ptr32 dest -> x87_free s ->
  let s' := snd (IA32.Atomic_store_jlong_volatile store_value dest s) in
  read 8 (memory s') dest = wrap 8 store_value /\ x87_free s'.
Proof.
  intros Hd Hx s'.
  destruct (ia32_store_jlong_run store_value dest s Hd Hx) as (Hm & Hst).
  fold s' in Hm, Hst. split.
  - rewrite Hm, read_write_same. apply signed_wrap.
  - unfold x87_free in *. rewrite Hst. exact Hx.
Qed.

Lemma ia32_store_load_jlong (v dest : Z) (s : machine) :
  ptr32 dest -> x87_free s ->
  fst (IA32.Atomic_load dest (snd (IA32.Atomic_store_jlong_volatile v dest s))) = wrap 8 v.
Proof.
  intros Hd Hx.
  destruct (ia32_store_jlong_slot v dest s Hd Hx) as (Hr & Hx').
  destruct (ia32_load_run dest _ Hd Hx') as (Hl & _).
  rewrite Hl. exact Hr.
Qed.

(** C2.  At every width 1, 4 and 8, storing a value [v] of that width
    and then loading the slot yields exactly [v].  The 1- and 4-byte
    slots, for which the file has no [load], are read back by a plain
    read; the 8-byte slot by [Atomic::load].  In the 32-bit build the
    8-byte store and load each pass the value through the x87 unit
    ([fild] then [fistp]), which reproduces every 64-bit pattern,
    whatever the rounding mode, provided the x87 stack has a free
    register on entry. *)
Theorem store_then_load (v dest : Z) :
  (fits 1 v -> forall m,
     plain_load 1 dest (Atomic_store_jbyte v dest m) = v /\
     plain_load 1 dest (Atomic_store_jbyte_volatile v dest m) = v) /\
  (fits 4 v -> forall m,
     plain_load 4 dest (Atomic_store_jint v dest m) = v /\
     plain_load 4 dest (Atomic_store_jint_volatile v dest m) = v) /\
  (forall W, fits W v -> forall m,
     plain_load W dest (Atomic_store_ptr W v dest m) = v /\
     plain_load W dest (Atomic_store_ptr_void W v dest m) = v /\
     plain_load W dest (Atomic_store_ptr_volatile W v dest m) = v /\
     plain_load W dest (Atomic_store_ptr_void_volatile W v dest m) = v) /\
  (fits 8 v -> forall s, ptr32 dest -> x87_free s ->
     fst (IA32.Atomic_load dest (snd (IA32.Atomic_store_jlong v dest s))) = v /\
     fst (IA32.Atomic_load dest (snd (IA32.Atomic_store_jlong_volatile v dest s))) = v) /\
  (fits 8 v -> forall m,
     fst (AMD64.Atomic_load dest (AMD64.Atomic_store_jlong v dest m)) = v /\
     fst (AMD64.Atomic_load dest (AMD64.Atomic_store_jlong_volatile v dest m)) = v).
Proof.
  repeat apply conj.
  - intros Hv m. split; apply plain_store_load, Hv.
  - intros Hv m. split; apply plain_store_load, Hv.
  - intros W Hv m. repeat split; apply plain_store_load, Hv.
  - intros Hv s Hd Hx.
    assert (H : fst (IA32.Atomic_load dest
                       (snd (IA32.Atomic_store_jlong_volatile v dest s))) = v).
    { rewrite (ia32_store_load_jlong v dest s Hd Hx). apply wrap_small, Hv. }
    split; exact H.
  - intros Hv m. split; apply (plain_store_load 8 v dest m Hv).
Qed.

(** Scenario A of the specification as the instance: the 8-byte
    pattern [0x1122334455667788]. *)
Lemma store_then_load_witness :
  let dest := 4096 in
  let s := sample zero_mem in
  (fits 1 0x88 /\ fits 4 0x55667788 /\ fits 8 0x1122334455667788 /\
   ptr32 dest /\ x87_free s) /\
  plain_load 1 dest (Atomic_store_jbyte 0x88 dest zero_mem) = 0x88 /\
  plain_load 4 dest (Atomic_store_jint 0x55667788 dest zero_mem) = 0x55667788 /\
  plain_load 8 dest (Atomic_store_ptr 8 0x1122334455667788 dest zero_mem)
    = 0x1122334455667788 /\
  fst (IA32.Atomic_load dest (snd (IA32.Atomic_store_jlong 0x1122334455667788 dest s)))
    = 0x1122334455667788 /\
  fst (AMD64.Atomic_load dest (AMD64.Atomic_store_jlong 0x1122334455667788 dest zero_mem))
    = 0x1122334455667788.
Proof.
  intros dest s.
  assert (H1 : fits 1 0x88) by (unfold fits, modulus; simpl; lia).
  assert (H4 : fits 4 0x55667788) by (unfold fits, modulus; simpl; lia).
  assert (H8 : fits 8 0x1122334455667788) by (unfold fits, modulus; simpl; lia).
  assert (Hd : ptr32 dest) by (unfold ptr32, dest; lia).
  assert (Hx : x87_free s) by (unfold x87_free, x87_depth; simpl; lia).
  split; [exact (conj H1 (conj H4 (conj H8 (conj Hd Hx))))|].
  exact (conj (proj1 (proj1 (store_then_load 0x88 dest) H1 zero_mem))
        (conj (proj1 (proj1 (proj2 (store_then_load 0x55667788 dest)) H4 zero_mem))
        (conj (proj1 (proj1 (proj2 (proj2 (store_then_load 0x1122334455667788 dest)))
                       8%nat H8 zero_mem))
        (conj (proj1 (proj1 (proj2 (proj2 (proj2 (store_then_load 0x1122334455667788 dest))))
                       H8 s Hd Hx))
              (proj1 (proj2 (proj2 (proj2 (proj2 (store_then_load 0x1122334455667788 dest))))
                       H8 zero_mem)))))).
Defined.

(** C10.  The interface has a store for the 2-byte [jshort], in both
    builds and for plain and [volatile] destinations alike: a plain
    assignment, after which the slot holds the 2-byte value [v] (and,
    for any integer [v], its 2-byte pattern), no other byte having
    changed. *)
Theorem store_jshort_assigns (v dest : Z) (m : mem) :
  (fits 2 v ->
     plain_load 2 dest (Atomic_store_jshort v dest m) = v /\
     plain_load 2 dest (Atomic_store_jshort_volatile v dest m) = v) /\
  plain_load 2 dest (Atomic_store_jshort v dest m) = wrap 2 v /\
  plain_load 2 dest (Atomic_store_jshort_volatile v dest m) = wrap 2 v /\
  only_slot dest 2 m (Atomic_store_jshort v dest m) /\
  only_slot dest 2 m (Atomic_store_jshort_volatile v dest m).
Proof.
  repeat apply conj.
  - intros Hv. split; apply plain_store_load, Hv.
  - apply read_write_same.
  - apply read_write_same.
  - intros a Ha. apply write_outside, Ha.
  - intros a Ha. apply write_outside, Ha.
Qed.

Lemma store_jshort_assigns_witness :
  fits 2 0x1234 /\
  plain_load 2 4096 (Atomic_store_jshort 0x1234 4096 zero_mem) = 0x1234 /\
  plain_load 2 4096 (Atomic_store_jshort_volatile 0x1234 4096 zero_mem) = 0x1234.
Proof.
  assert (H : fits 2 0x1234) by (unfold fits, modulus; simpl; lia).
  split; [exact H|].
  exact (proj1 (store_jshort_assigns 0x1234 4096 zero_mem) H).
Defined.
(** ** Frame *)

Lemma only_slot_write (W : nat) (m : mem) (dest v : Z) :
  only_slot dest W m (write W m dest v).
Proof. intros a Ha. apply write_outside, Ha. Qed.

Lemma ia32_inc_frame (dest : Z) (s : machine) :
  ptr32 dest -> only_slot dest 4 (memory s) (memory (snd (IA32.Atomic_inc dest s))).
Proof.
  intros Hd. destruct (ia32_inc_run dest s Hd) as (Hm & _).
  rewrite Hm. apply only_slot_write.
Qed.

Lemma ia32_dec_frame (dest : Z) (s : machine) :
  ptr32 dest -> only_slot dest 4 (memory s) (memory (snd (IA32.Atomic_dec dest s))).
Proof.
  intros Hd. destruct (ia32_dec_run dest s Hd) as (Hm & _).
  rewrite Hm. apply only_slot_write.
Qed.

Lemma ia32_cmpxchg_8_frame {cmo : Type} (e dest c : Z) (order : cmo) (s : machine) :
  ptr32 dest -> stack_room s 8 ->
  only_slot_and_frame dest 8 8 s (memory (snd (IA32.PlatformCmpxchg_8 e dest c order s))).
Proof.
  intros Hd Hs a Ha Hf. destruct s as [[ax b cx d di sp z l r f] m].
  unfold stack_room, in_frame in Hs, Hf. cbn [regs esp memory] in Hs, Hf |- *.
  unfold in_slot in Ha.
  exec. rewrite (ptr32_wrap dest Hd).
  rewrite (wrap_4_small (sp - 4)) by lia.
  rewrite (wrap_4_small (sp - 4 - 4)) by lia.
  match goal with |- context [if ?b then _ else _] => destruct b end; exec;
    rewrite !write_outside by (unfold in_slot; lia); reflexivity.
Qed.

Lemma ia32_store_jlong_frame (v dest : Z) (s : machine) :
  ptr32 dest -> stack_room s 8 ->
  only_slot_and_frame dest 8 8 s (memory (snd (IA32.Atomic_store_jlong_volatile v dest s))).
Proof.
  intros Hd Hs a Ha Hf. destruct s as [[ax b cx d di sp z l r f] m].
  unfold stack_room, in_frame in Hs, Hf. cbn [regs esp memory] in Hs, Hf |- *.
  unfold in_slot in Ha.
  exec. change (Z.of_nat 8) with 8. rewrite (ptr32_wrap dest Hd).
  rewrite (wrap_4_small (sp - 8)) by lia.
  rewrite !write_outside by (unfold in_slot; lia). reflexivity.
Qed.

Lemma ia32_load_frame (src : Z) (s : machine) (a : Z) :
  stack_room s 8 -> ~ in_frame s 8 a ->
  memory (snd (IA32.Atomic_load src s)) a = memory s a.
Proof.
  intros Hs Hf. destruct s as [[ax b cx d di sp z l r f] m].
  unfold stack_room, in_frame in Hs, Hf. cbn [regs esp memory] in Hs, Hf |- *.
  exec. change (Z.of_nat 8) with 8. wrap_norm.
  rewrite (wrap_4_small (sp - 8)) by lia.
  rewrite !write_outside by (unfold in_slot; lia). reflexivity.
Qed.

(** C9.  Every operation changes at most its own destination slot.

    The stores change no byte outside the slot at [dest].  In the
    32-bit build add, inc, dec, exchange and the 1- and 4-byte
    compare-exchange change no byte outside the 4-byte (1-byte) slot;
    the 8-byte compare-exchange and the 8-byte store change no byte
    outside the slot and the callee's own 8 bytes of stack (the two
    saved registers, the by-value parameter), and the 8-byte load
    changes no byte outside its own 8 bytes of stack, where its local
    temporary lives: no memory of the caller.  In the 64-bit build the
    8-byte store changes only the slot, the 8-byte load nothing, and
    the delegated operations only the slot, for every provider of the
    entry points that meets its contract. *)
Theorem only_destination_changes (cmo : Type) (order : cmo) (v c dest : Z) :
  (forall m,
     only_slot dest 1 m (Atomic_store_jbyte v dest m) /\
     only_slot dest 2 m (Atomic_store_jshort v dest m) /\
     only_slot dest 4 m (Atomic_store_jint v dest m) /\
     only_slot dest 1 m (Atomic_store_jbyte_volatile v dest m) /\
     only_slot dest 2 m (Atomic_store_jshort_volatile v dest m) /\
     only_slot dest 4 m (Atomic_store_jint_volatile v dest m)) /\
  (forall W m,
     only_slot dest W m (Atomic_store_ptr W v dest m) /\
     only_slot dest W m (Atomic_store_ptr_void W v dest m) /\
     only_slot dest W m (Atomic_store_ptr_volatile W v dest m) /\
     only_slot dest W m (Atomic_store_ptr_void_volatile W v dest m)) /\
  (forall s, ptr32 dest ->
     only_slot dest 4 (memory s) (memory (snd (IA32.PlatformAdd_4_add_and_fetch v dest s))) /\
     only_slot dest 4 (memory s) (memory (snd (IA32.Atomic_inc dest s))) /\
     only_slot dest 4 (memory s) (memory (snd (IA32.Atomic_inc_ptr dest s))) /\
     only_slot dest 4 (memory s) (memory (snd (IA32.Atomic_inc_ptr_void dest s))) /\
     only_slot dest 4 (memory s) (memory (snd (IA32.Atomic_dec dest s))) /\
     only_slot dest 4 (memory s) (memory (snd (IA32.Atomic_dec_ptr dest s))) /\
     only_slot dest 4 (memory s) (memory (snd (IA32.Atomic_dec_ptr_void dest s))) /\
     only_slot dest 4 (memory s) (memory (snd (IA32.Atomic_xchg v dest s))) /\
     only_slot dest 4 (memory s) (memory (snd (IA32.Atomic_xchg_ptr v dest s))) /\
     only_slot dest 4 (memory s) (memory (snd (IA32.Atomic_xchg_ptr_void v dest s))) /\
     only_slot dest 1 (memory s) (memory (snd (IA32.PlatformCmpxchg_1 v dest c order s))) /\
     only_slot dest 4 (memory s) (memory (snd (IA32.PlatformCmpxchg_4 v dest c order s)))) /\
  (forall s, ptr32 dest -> stack_room s 8 ->
     only_slot_and_frame dest 8 8 s
       (memory (snd (IA32.PlatformCmpxchg_8 v dest c order s))) /\
     only_slot_and_frame dest 8 8 s (memory (snd (IA32.Atomic_store_jlong v dest s))) /\
     only_slot_and_frame dest 8 8 s
       (memory (snd (IA32.Atomic_store_jlong_volatile v dest s)))) /\
  (forall s a, stack_room s 8 -> ~ in_frame s 8 a ->
     memory (snd (IA32.Atomic_load dest s)) a = memory s a) /\
  (forall m,
     only_slot dest 8 m (AMD64.Atomic_store_jlong v dest m) /\
     only_slot dest 8 m (AMD64.Atomic_store_jlong_volatile v dest m) /\
     snd (AMD64.Atomic_load dest m) = m) /\
  (forall o m, os_contract o ->
     only_slot dest 4 m (snd (AMD64.PlatformAdd_4_add_and_fetch o v dest m)) /\
     only_slot dest 8 m (snd (AMD64.PlatformAdd_8_add_and_fetch o v dest m)) /\
     only_slot dest 4 m (AMD64.Atomic_inc o dest m) /\
     only_slot dest 8 m (AMD64.Atomic_inc_ptr o dest m) /\
     only_slot dest 8 m (AMD64.Atomic_inc_ptr_void o dest m) /\
     only_slot dest 4 m (AMD64.Atomic_dec o dest m) /\
     only_slot dest 8 m (AMD64.Atomic_dec_ptr o dest m) /\
     only_slot dest 8 m (AMD64.Atomic_dec_ptr_void o dest m) /\
     only_slot dest 4 m (snd (AMD64.Atomic_xchg o v dest m)) /\
     only_slot dest 8 m (snd (AMD64.Atomic_xchg_ptr o v dest m)) /\
     only_slot dest 8 m (snd (AMD64.Atomic_xchg_ptr_void o v dest m)) /\
     only_slot dest 1 m (snd (AMD64.PlatformCmpxchg_1 o v dest c order m)) /\
     only_slot dest 4 m (snd (AMD64.PlatformCmpxchg_4 o v dest c order m)) /\
     only_slot dest 8 m (snd (AMD64.PlatformCmpxchg_8 o v dest c order m))).
Proof.
  repeat apply conj.
  - intros m. repeat split; apply only_slot_write.
  - intros W m. repeat split; apply only_slot_write.
  - intros s Hd.
    pose proof (fetch_add_only_slot 4 v dest (memory s) _
                  (ia32_add_refines v dest s Hd)) as Hadd.
    pose proof (exchange_only_slot 4 v dest (memory s) _
                  (ia32_xchg_refines v dest s Hd)) as Hx.
    pose proof (exchange_only_slot 4 v dest (memory s) _
                  (ia32_xchg_cast_refines v dest s Hd)) as Hxp.
    pose proof (compare_exchange_only_slot 1 v dest c (memory s) _
                  (ia32_cmpxchg_1_refines v dest c order s Hd)) as Hc1.
    pose proof (compare_exchange_only_slot 4 v dest c (memory s) _
                  (ia32_cmpxchg_4_refines v dest c order s Hd)) as Hc4.
    pose proof (ia32_inc_frame dest s Hd) as Hi.
    pose proof (ia32_dec_frame dest s Hd) as Hde.
    exact (conj Hadd (conj Hi (conj Hi (conj Hi (conj Hde (conj Hde (conj Hde
          (conj Hx (conj Hxp (conj Hxp (conj Hc1 Hc4))))))))))).
  - intros s Hd Hs.
    pose proof (ia32_store_jlong_frame v dest s Hd Hs) as Hst.
    exact (conj (ia32_cmpxchg_8_frame v dest c order s Hd Hs) (conj Hst Hst)).
  - intros s a Hs Hf. apply (ia32_load_frame dest s a Hs Hf).
  - intros m. repeat split; apply only_slot_write.
  - intros o m Ho.
    assert (A4 : forall d, only_slot dest 4 m (snd (AMD64.PlatformAdd_4_add_and_fetch o d dest m))).
    { intros d. apply (fetch_add_only_slot 4 d dest m _).
      apply amd64_add_helper, (atomic_add_ok o Ho). }
    assert (A8 : forall d, only_slot dest 8 m (snd (AMD64.PlatformAdd_8_add_and_fetch o d dest m))).
    { intros d. apply (fetch_add_only_slot 8 d dest m _).
      apply amd64_add_helper, (atomic_add_ptr_ok o Ho). }
    assert (X4 : only_slot dest 4 m (snd (AMD64.Atomic_xchg o v dest m))).
    { apply (exchange_only_slot 4 v dest m _).
      apply (amd64_xchg_helper 4), (atomic_xchg_ok o Ho). }
    assert (X8 : only_slot dest 8 m (snd (AMD64.Atomic_xchg_ptr o v dest m))).
    { apply (exchange_only_slot 8 v dest m _).
      apply (amd64_xchg_helper 8), (atomic_xchg_ptr_ok o Ho). }
    assert (X8v : only_slot dest 8 m (snd (AMD64.Atomic_xchg_ptr_void o v dest m))).
    { apply (exchange_only_slot 8 v dest m _).
      apply (amd64_xchg_ptr_void_refines o v dest m Ho). }
    assert (C1 : only_slot dest 1 m (snd (AMD64.PlatformCmpxchg_1 o v dest c order m))).
    { apply (compare_exchange_only_slot 1 v dest c m _).
      apply amd64_cmpxchg_helper, (atomic_cmpxchg_byte_ok o Ho). }
    assert (C4 : only_slot dest 4 m (snd (AMD64.PlatformCmpxchg_4 o v dest c order m))).
    { apply (compare_exchange_only_slot 4 v dest c m _).
      apply amd64_cmpxchg_helper, (atomic_cmpxchg_ok o Ho). }
    assert (C8 : only_slot dest 8 m (snd (AMD64.PlatformCmpxchg_8 o v dest c order m))).
    { apply (compare_exchange_only_slot 8 v dest c m _).
      apply amd64_cmpxchg_helper, (atomic_cmpxchg_long_ok o Ho). }
    exact (conj (A4 v) (conj (A8 v) (conj (A4 1) (conj (A8 1) (conj (A8 1)
          (conj (A4 (-1)) (conj (A8 (-1)) (conj (A8 (-1))
          (conj X4 (conj X8 (conj X8v (conj C1 (conj C4 C8))))))))))))).
Qed.

(** The byte at address [5000] as the instance: it is neither in the
    slot at [4096] nor in the frame below the stack pointer [2^16], and
    every operation leaves it alone. *)
Lemma only_destination_changes_witness :
  let dest := 4096 in
  let a := 5000 in
  let s := sample zero_mem in
  (ptr32 dest /\ stack_room s 8 /\ os_contract os_reference /\
   ~ in_slot dest 8 a /\ ~ in_slot dest 4 a /\ ~ in_frame s 8 a) /\
  Atomic_store_jint 7 dest zero_mem a = zero_mem a /\
  memory (snd (IA32.PlatformAdd_4_add_and_fetch 7 dest s)) a = memory s a /\
  memory (snd (IA32.PlatformCmpxchg_8 7 dest 0 tt s)) a = memory s a /\
  memory (snd (IA32.Atomic_store_jlong 7 dest s)) a = memory s a /\
  memory (snd (IA32.Atomic_load dest s)) a = memory s a /\
  snd (AMD64.PlatformCmpxchg_8 os_reference 7 dest 0 tt zero_mem) a = zero_mem a.
Proof.
  intros dest a s.
  assert (Hd : ptr32 dest) by (unfold ptr32, dest; lia).
  assert (Hs : stack_room s 8) by (unfold stack_room; simpl; lia).
  assert (H8 : ~ in_slot dest 8 a) by (unfold in_slot, dest, a; simpl; lia).
  assert (H4 : ~ in_slot dest 4 a) by (unfold in_slot, dest, a; simpl; lia).
  assert (Hf : ~ in_frame s 8 a) by (unfold in_frame, a; simpl; lia).
  split; [exact (conj Hd (conj Hs (conj os_reference_ok (conj H8 (conj H4 Hf)))))|].
  destruct (only_destination_changes unit tt 7 0 dest)
    as (St & _ & I4 & I8 & Il & _ & A).
  exact (conj (proj1 (proj2 (proj2 (St zero_mem))) a H4)
        (conj (proj1 (I4 s Hd) a H4)
        (conj (proj1 (I8 s Hd Hs) a H8 Hf)
        (conj (proj1 (proj2 (I8 s Hd Hs)) a H8 Hf)
        (conj (Il s a Hs Hf)
              (proj2 (proj2 (proj2 (proj2 (proj2 (proj2 (proj2 (proj2 (proj2
                 (proj2 (proj2 (proj2 (proj2
                   (A os_reference zero_mem os_reference_ok))))))))))))) a H8)))))).
Defined.

(** ** Concurrent callers *)

Lemma set_nth_length {A : Type} (i : nat) (x : A) (l : list A) :
  length (set_nth i x l) = length l.
Proof.
  revert i. induction l as [|y l IH]; intros [|i]; cbn [set_nth length]; auto.
Qed.

Lemma set_nth_Forall {A : Type} (P : A -> Prop) (i : nat) (x : A) (l : list A) :
  Forall P l -> P x -> Forall P (set_nth i x l).
Proof.
  intros Hl Hx. revert i. induction Hl as [|y l Hy Hl IH]; intros [|i]; cbn [set_nth].
  - constructor.
  - constructor.
  - constructor; assumption.
  - constructor; [assumption | apply IH].
Qed.

Lemma total_set_nth (f : thread -> nat) (i : nat) (t t' : thread) (l : list thread) :
  nth_error l i = Some t ->
  (total f (set_nth i t' l) + f t = total f l + f t')%nat.
Proof.
  revert i. induction l as [|y l IH]; intros [|i] H; cbn in H.
  - discriminate.
  - discriminate.
  - injection H as ->. cbn [set_nth total]. lia.
  - cbn [set_nth total]. specialize (IH i H). lia.
Qed.

Lemma total_le (f : thread -> nat) (n : nat) (l : list thread) :
  (forall t, f t <= n)%nat -> (total f l <= n * length l)%nat.
Proof.
  intros H. induction l as [|y l IH]; cbn [total length]; [lia|].
  specialize (H y). lia.
Qed.

Lemma nth_error_Forall {A : Type} (P : A -> Prop) (l : list A) (i : nat) (x : A) :
  Forall P l -> nth_error l i = Some x -> P x.
Proof.
  intros Hl. revert i. induction Hl as [|y l Hy Hl IH]; intros [|i] H; cbn in H.
  - discriminate.
  - discriminate.
  - injection H as <-. exact Hy.
  - apply (IH i H).
Qed.

(** One micro-operation of a caller: it moves one place on, and either
    leaves memory and its arrival status alone, or it is the locked
    [xadd], which adds one to the slot and makes it arrive. *)
Lemma caller_step (dest : Z) (t : thread) (m : mem) (u : uop) (rest : list uop) :
  ptr32 dest -> caller_ok dest t -> t_code t = u :: rest ->
  let s' := u (mkMachine (t_regs t) m) in
  let t' := mkThread (regs s') rest in
  caller_ok dest t' /\
  (length (t_code t) = S (length (t_code t'))) /\
  ((arrived t' = arrived t /\ memory s' = m) \/
   (arrived t = false /\ arrived t' = true /\
    memory s' = write 4 m dest (wrap 4 (read 4 m dest + 1)))).
Proof.
  intros Hd (k & Hk & Hc & Hedx & Heax) Hu.
  destruct t as [[a b c d di sp z l r f] code]. cbn [t_code t_regs] in *.
  rewrite Hc in Hu.
  assert (Hcases : (k = 0 \/ k = 1 \/ k = 2 \/ k = 3 \/ k = 4 \/ k = 5)%nat) by lia.
  cbn [edx eax] in Hedx, Heax.
  destruct Hcases as [->|[->|[->|[->|[->| ->]]]]];
    cbv beta iota zeta delta [skipn concat app IA32.add_and_fetch_asm mov mov_rr lock xadd_m32 add_rr] in Hu, Hc;
    try discriminate Hu;
    injection Hu as <- <-; subst code.
  - split; [exists 1%nat; split; [lia|]|split; [reflexivity|left; split; reflexivity]].
    split; [reflexivity|]. exec. split; [intros _; apply ptr32_wrap, Hd | intros ?; lia].
  - split; [exists 2%nat; split; [lia|]|split; [reflexivity|left; split; reflexivity]].
    split; [reflexivity|]. exec. split; [intros _; apply Hedx; lia | intros _; reflexivity].
  - split; [exists 3%nat; split; [lia|]|split; [reflexivity|left; split; reflexivity]].
    split; [reflexivity|]. exec.
    split; [intros _; apply Hedx; lia | intros _; rewrite Heax by lia; reflexivity].
  - rewrite Hedx, Heax by lia.
    split; [exists 4%nat; split; [lia|]|split; [reflexivity|right; repeat split]].
    split; [reflexivity|]. exec. split; [intros _; reflexivity | intros ?; lia].
  - split; [exists 5%nat; split; [lia|]|split; [reflexivity|left; split; reflexivity]].
    split; [reflexivity|]. exec. split; [intros _; apply Hedx; lia | intros ?; lia].
Qed.

Lemma step_counting (dest v0 : Z) (i : nat) (c c' : system) :
  ptr32 dest -> counting dest v0 c -> step i c = Some c' ->
  counting dest v0 c' /\
  remaining c = S (remaining c') /\
  length (threads c') = length (threads c).
Proof.
  intros Hd [Hall Hslot] Hstep. unfold step in Hstep.
  destruct (nth_error (threads c) i) as [t|] eqn:Hi; [|discriminate].
  destruct (t_code t) as [|u rest] eqn:Hcode; [discriminate|].
  injection Hstep as <-.
  pose proof (nth_error_Forall _ _ _ _ Hall Hi) as Ht.
  destruct (caller_step dest t (shared c) u rest Hd Ht Hcode) as (Hok & Hlen & Heff).
  set (s' := u (mkMachine (t_regs t) (shared c))) in *.
  set (t' := mkThread (regs s') rest) in *.
  pose proof (total_set_nth (fun t => if arrived t then 1 else 0)%nat i t t' _ Hi) as Harr.
  pose proof (total_set_nth (fun t => length (t_code t)) i t t' _ Hi) as Hrem.
  cbn beta in Harr, Hrem.
  unfold counting, remaining, arrivals. cbn [threads shared].
  split; [split|split].
  - apply set_nth_Forall; assumption.
  - unfold arrivals in Hslot.
    destruct Heff as [[Ha Hm]|(Ha & Ha' & Hm)]; fold s' in Hm; rewrite Hm.
    + rewrite Ha in Harr.
      replace (total (fun t0 => if arrived t0 then 1 else 0)%nat (set_nth i t' (threads c)))
        with (total (fun t0 => if arrived t0 then 1 else 0)%nat (threads c)) by lia.
      exact Hslot.
    + rewrite Ha, Ha' in Harr.
      replace (total (fun t0 => if arrived t0 then 1 else 0)%nat (set_nth i t' (threads c)))
        with (S (total (fun t0 => if arrived t0 then 1 else 0)%nat (threads c))) by lia.
      rewrite read_write_same, Hslot. wrap_norm.
      f_equal. lia.
  - lia.
  - apply set_nth_length.
Qed.

Lemma run_counting (dest v0 : Z) (sched : list nat) (c c' : system) :
  ptr32 dest -> counting dest v0 c -> run sched c = Some c' ->
  counting dest v0 c' /\
  remaining c = (length sched + remaining c')%nat /\
  length (threads c') = length (threads c).
Proof.
  intros Hd. revert c. induction sched as [|i sched IH]; intros c Hc Hrun; cbn [run] in Hrun.
  - injection Hrun as <-. repeat split; [apply Hc | apply Hc].
  - destruct (step i c) as [c1|] eqn:Hstep; [|discriminate].
    destruct (step_counting dest v0 i c c1 Hd Hc Hstep) as (Hc1 & Hr1 & Hl1).
    destruct (IH c1 Hc1 Hrun) as (Hc' & Hr' & Hl').
    split; [exact Hc'|]. cbn [length]. split; [lia | congruence].
Qed.

Lemma add_callers_counting (cs : list cpu) (dest v0 : Z) (m : mem) :
  let c := add_callers cs dest (Atomic_store_jint v0 dest m) in
  counting dest v0 c /\
  remaining c = (5 * length cs)%nat /\
  length (threads c) = length cs.
Proof.
  cbn zeta. unfold counting, remaining, arrivals, add_callers. cbn [threads shared].
  assert (H : forall l : list cpu,
             let ts := map (fun c => mkThread c (concat (IA32.add_and_fetch_asm 1 dest))) l in
             Forall (caller_ok dest) ts /\
             total (fun t => if arrived t then 1 else 0)%nat ts = 0%nat /\
             total (fun t => length (t_code t)) ts = (5 * length l)%nat /\
             length ts = length l).
  { induction l as [|x l (IH1 & IH2 & IH3 & IH4)]; cbn zeta; cbn [map total length].
    - repeat split. constructor.
    - repeat split.
      + constructor; [|exact IH1].
        exists 0%nat. split; [lia|]. split; [reflexivity|]. split; intros; lia.
      + rewrite IH2. reflexivity.
      + rewrite IH3. cbn [t_code]. change (length (concat (IA32.add_and_fetch_asm 1 dest))) with 5%nat. lia.
      + congruence. }
  destruct (H cs) as (H1 & H2 & H3 & H4).
  repeat split; try assumption.
  rewrite H2. unfold Atomic_store_jint. rewrite read_write_same.
  f_equal. lia.
Qed.

Lemma arrivals_le (c : system) : (arrivals c <= length (threads c))%nat.
Proof.
  unfold arrivals.
  pose proof (total_le (fun t => if arrived t then 1 else 0)%nat 1 (threads c)) as H.
  cbn beta in H. rewrite Nat.mul_1_l in H. apply H.
  intros t. destruct (arrived t); lia.
Qed.

Lemma finished_arrivals (c : system) :
  finished c = true -> arrivals c = length (threads c) /\ remaining c = 0%nat.
Proof.
  unfold finished, arrivals, remaining.
  induction (threads c) as [|t l IH]; cbn [forallb total length]; [auto|].
  intros H. apply andb_true_iff in H. destruct H as [Ht Hl].
  destruct (IH Hl) as [IH1 IH2]. rewrite IH1, IH2.
  unfold done in Ht. unfold arrived.
  destruct (t_code t); [|discriminate]. split; reflexivity.
Qed.

Lemma unfinished_steps (c : system) :
  finished c = false -> exists i c', step i c = Some c'.
Proof.
  unfold finished, step.
  destruct c as [ts m]. cbn [threads shared].
  induction ts as [|t l IH]; cbn [forallb]; [discriminate|].
  intros H. apply andb_false_iff in H.
  destruct (done t) eqn:Hd.
  - destruct H as [H|H]; [discriminate|].
    destruct (IH H) as (i & c' & Hs).
    exists (S i). cbn [nth_error].
    destruct (nth_error l i) as [t1|]; [|discriminate].
    destruct (t_code t1) as [|u rest]; [discriminate|].
    eexists. reflexivity.
  - exists 0%nat. cbn [nth_error]. unfold done in Hd.
    destruct (t_code t) as [|u rest]; [discriminate|].
    eexists. reflexivity.
Qed.

(** Whatever has been scheduled so far, the callers can be run to the
    end. *)
Lemma interleaving_completes (dest v0 : Z) (c : system) :
  ptr32 dest -> counting dest v0 c ->
  exists sched c', run sched c = Some c' /\ finished c' = true.
Proof.
  intros Hd. remember (remaining c) as n eqn:Hn. revert c Hn.
  induction n as [|n IH]; intros c Hn Hc.
  - exists [], c. split; [reflexivity|].
    destruct (finished c) eqn:Hf; [reflexivity|].
    destruct (unfinished_steps c Hf) as (i & c' & Hs).
    destruct (step_counting dest v0 i c c' Hd Hc Hs) as (_ & Hr & _). lia.
  - destruct (finished c) eqn:Hf.
    + apply finished_arrivals in Hf. lia.
    + destruct (unfinished_steps c Hf) as (i & c1 & Hs).
      destruct (step_counting dest v0 i c c1 Hd Hc Hs) as (Hc1 & Hr & _).
      destruct (IH c1 ltac:(lia) Hc1) as (sched & c' & Hrun & Hfin).
      exists (i :: sched), c'. cbn [run]. rewrite Hs. split; assumption.
Qed.

(** C8.  [N] concurrent callers of [add(1, dest)] on a slot initialised
    to 0, in the 32-bit build.  Each caller executes the [__asm] block
    of [add_and_fetch] one micro-operation at a time, the locked [xadd]
    being a single one, and a schedule interleaves them in any order.
    Along every schedule a read of the slot yields the number of
    callers whose [xadd] is behind them, a value between 0 and [N] and
    never a torn one; every schedule can be continued while a caller
    is unfinished and has exactly [5 N] steps when all are finished;
    and then the slot holds [N] (as a 4-byte value, hence [N] itself
    below [2^32]). *)
Theorem no_lost_update
    (cs : list cpu) (dest : Z) (m : mem) (sched : list nat) (c : system) :
  ptr32 dest ->
  run sched (add_callers cs dest (Atomic_store_jint 0 dest m)) = Some c ->
  let N := length cs in
  (arrivals c <= N)%nat /\
  plain_load 4 dest (shared c) = wrap 4 (Z.of_nat (arrivals c)) /\
  (finished c = true -> plain_load 4 dest (shared c) = wrap 4 (Z.of_nat N)) /\
  (finished c = true -> Z.of_nat N < 2 ^ 32 -> plain_load 4 dest (shared c) = Z.of_nat N) /\
  (length sched + remaining c = 5 * N)%nat /\
  (finished c = true <-> length sched = (5 * N)%nat) /\
  (finished c = false -> exists i c', step i c = Some c') /\
  (exists sched' c', run (sched ++ sched') (add_callers cs dest (Atomic_store_jint 0 dest m))
                       = Some c' /\ finished c' = true).
Proof.
  intros Hd Hrun N. unfold plain_load.
  destruct (add_callers_counting cs dest 0 m) as (H0 & Hr0 & Hl0).
  destruct (run_counting dest 0 sched _ c Hd H0 Hrun) as (Hc & Hr & Hl).
  pose proof (arrivals_le c) as Hle.
  assert (Hslot : read 4 (shared c) dest = wrap 4 (Z.of_nat (arrivals c))).
  { destruct Hc as [_ Hs]. rewrite Hs. f_equal. }
  assert (Hfin : finished c = true -> read 4 (shared c) dest = wrap 4 (Z.of_nat N)).
  { intros Hf. apply finished_arrivals in Hf. destruct Hf as [Ha _].
    rewrite Hslot, Ha, Hl, Hl0. reflexivity. }
  repeat apply conj.
  - unfold N. lia.
  - exact Hslot.
  - exact Hfin.
  - intros Hf HN. rewrite (Hfin Hf). apply wrap_4_small. lia.
  - unfold N. lia.
  - intros Hf. apply finished_arrivals in Hf. unfold N. lia.
  - intros Hlen. destruct (finished c) eqn:Hf; [reflexivity|].
    destruct (unfinished_steps c Hf) as (i & c' & Hs).
    destruct (step_counting dest 0 i c c' Hd Hc Hs) as (_ & Hr' & _).
    unfold N in Hlen. lia.
  - apply unfinished_steps.
  - destruct (interleaving_completes dest 0 c Hd Hc) as (sched' & c' & Hrun' & Hf').
    exists sched', c'. split; [|exact Hf'].
    clear - Hrun Hrun'. revert Hrun.
    generalize (add_callers cs dest (Atomic_store_jint 0 dest m)).
    induction sched as [|i sched IH]; intros c0 H; cbn [run app] in *.
    + injection H as ->. exact Hrun'.
    + destruct (step i c0) as [c1|]; [apply IH, H | discriminate].
Qed.

(** Three callers, interleaved so that each [xadd] falls between the
    register moves of the others. *)
Lemma no_lost_update_witness :
  let dest := 4096 in
  let sched := [0; 1; 2; 2; 1; 0; 2; 0; 1; 1; 2; 0; 0; 1; 2]%nat in
  let init := add_callers [sample_cpu; sample_cpu; sample_cpu] dest
                (Atomic_store_jint 0 dest zero_mem) in
  match run sched init with
  | Some c =>
      ptr32 dest /\ finished c = true /\ plain_load 4 dest (shared c) = 3
  | None => False
  end.
Proof.
  intros dest sched init.
  destruct (run sched init) as [c|] eqn:Hrun.
  - assert (Hd : ptr32 dest) by (unfold ptr32, dest; lia).
    destruct (no_lost_update [sample_cpu; sample_cpu; sample_cpu] dest zero_mem sched c
                Hd Hrun) as (_ & _ & _ & HN & _ & Hiff & _).
    assert (Hf : finished c = true) by (apply Hiff; reflexivity).
    split; [exact Hd|]. split; [exact Hf|].
    apply (HN Hf). cbn. lia.
  - vm_compute in Hrun. discriminate Hrun.
Defined.

(** The result rests on the [lock] prefix: without it, two callers
    whose reads both come before either write leave 1 in the slot. *)
Remark unlocked_xadd_loses_an_update :
  let dest := 4096 in
  let code := concat (unlocked_add_asm 1 dest) in
  let init := mkSystem [mkThread sample_cpu code; mkThread sample_cpu code]
                       (Atomic_store_jint 0 dest zero_mem) in
  let sched := [0; 0; 0; 1; 1; 1; 0; 1; 0; 1; 0; 1]%nat in
  match run sched init with
  | Some c => finished c = true /\ read 4 (shared c) dest = 1
  | None => False
  end.
Proof. vm_compute. split; reflexivity. Qed.

(** * Beyond the claims *)

(** ** Memory, byte by byte *)

(** The byte a write leaves at [b]. *)
Lemma write_at (W : nat) (m : mem) (a v b : Z) :
  write W m a v b =
  if (a <=? b) && (b <? a + Z.of_nat W) then byte_of_Z (v / 256 ^ (b - a)) else m b.
Proof.
  revert m a v. induction W as [|W IH]; intros m a v; cbn [write].
  - destruct (Z.leb_spec a b), (Z.ltb_spec b (a + Z.of_nat 0)); cbn [andb]; try reflexivity; lia.
  - rewrite IH. unfold upd.
    destruct (Z.leb_spec (a + 1) b), (Z.ltb_spec b (a + 1 + Z.of_nat W)),
             (Z.leb_spec a b), (Z.ltb_spec b (a + Z.of_nat (S W))),
             (Z.eqb_spec b a); cbn [andb]; try reflexivity; try lia.
    + rewrite Z.div_div by (try apply Z.pow_pos_nonneg; lia).
      replace (256 * 256 ^ (b - (a + 1))) with (256 ^ (b - a)); [reflexivity|].
      replace (b - a) with (Z.succ (b - (a + 1))) by lia.
      rewrite Z.pow_succ_r by lia. reflexivity.
    + subst b. rewrite Z.sub_diag. change (256 ^ 0) with 1. rewrite Z.div_1_r. reflexivity.
Qed.

Lemma write_write_same (W : nat) (m : mem) (a v1 v2 b : Z) :
  write W (write W m a v1) a v2 b = write W m a v2 b.
Proof.
  rewrite !write_at. destruct ((a <=? b) && (b <? a + Z.of_nat W)); reflexivity.
Qed.

Lemma write_write_disjoint (W : nat) (m : mem) (a1 a2 v1 v2 b : Z) :
  disjoint_slots a1 a2 W ->
  write W (write W m a1 v1) a2 v2 b = write W (write W m a2 v2) a1 v1 b.
Proof.
  unfold disjoint_slots. intros H. rewrite !write_at.
  destruct (Z.leb_spec a1 b), (Z.ltb_spec b (a1 + Z.of_nat W)),
           (Z.leb_spec a2 b), (Z.ltb_spec b (a2 + Z.of_nat W));
    cbn [andb]; try reflexivity; lia.
Qed.

(** ** The calling convention *)

(** X1.  [PlatformCmpxchg<8>] hands back [ebx] and [edi], which
    [cmpxchg8b] makes it use, with the values they had on entry, and
    the stack pointer, the x87 stack and the rounding control as they
    were: the two pushes and the two pops go through the stack, which
    the locked instruction does not touch as long as the slot lies
    outside the frame. *)
Theorem cmpxchg_8_restores_saved_registers
    (cmo : Type) (order : cmo) (exchange_value dest compare_value : Z) (s : machine) :
  ptr32 dest -> stack_room s 8 -> slot_off_frame s 8 dest 8 -> saved_regs_32 s ->
  preserved s (snd (IA32.PlatformCmpxchg_8 exchange_value dest compare_value order s)).
Proof.
  intros Hd Hs Hf [Hb Hdi]. destruct s as [[a b c d di sp z l r f] m].
  unfold stack_room, slot_off_frame in Hs, Hf. cbn [regs esp ebx edi] in Hs, Hf, Hb, Hdi.
  exec. rewrite (ptr32_wrap dest Hd).
  rewrite (wrap_4_small (sp - 4)) by lia.
  rewrite (wrap_4_small (sp - 4 - 4)) by lia.
  replace (sp - 4 - 4) with (sp - 8) by lia.
  set (m1 := write 4 (write 4 m (sp - 4) b) (sp - 8) di).
  assert (Hpop : forall v,
            read 4 (write 8 m1 dest v) (sp - 8) = di /\
            read 4 (write 8 m1 dest v) (sp - 4) = b).
  { intros v. rewrite !(read_write_disjoint 4 8) by lia. unfold m1. split.
    - rewrite read_write_same. apply wrap_4_small, Hdi.
    - rewrite (read_write_disjoint 4 4) by lia.
      rewrite read_write_same. apply wrap_4_small, Hb. }
  match goal with |- context [if ?b then _ else _] => destruct b end; exec;
    rewrite wrap_add_l;
    replace (sp - 8 + 4 + 4) with sp by lia;
    rewrite (wrap_4_small (sp - 8 + 4)) by lia;
    replace (sp - 8 + 4) with (sp - 4) by lia;
    rewrite (proj1 (Hpop _)), (proj2 (Hpop _));
    rewrite (wrap_4_small b), (wrap_4_small di), (wrap_4_small sp) by lia;
    repeat split.
Qed.

Lemma cmpxchg_8_restores_saved_registers_witness :
  let s := mkMachine (mkCpu 1 0xdeadbeef 2 3 0xcafe (2 ^ 16) false 0 RC_chop [])
                     (write 8 zero_mem 4096 10) in
  (ptr32 4096 /\ stack_room s 8 /\ slot_off_frame s 8 4096 8 /\ saved_regs_32 s) /\
  ebx (regs (snd (IA32.PlatformCmpxchg_8 20 4096 10 tt s))) = 0xdeadbeef /\
  preserved s (snd (IA32.PlatformCmpxchg_8 20 4096 10 tt s)).
Proof.
  intros s.
  assert (Hd : ptr32 4096) by (unfold ptr32; lia).
  assert (Hs : stack_room s 8) by (unfold stack_room; simpl; lia).
  assert (Hf : slot_off_frame s 8 4096 8) by (unfold slot_off_frame; simpl; lia).
  assert (Hr : saved_regs_32 s) by (unfold saved_regs_32; simpl; lia).
  split; [exact (conj Hd (conj Hs (conj Hf Hr)))|].
  split; [reflexivity|].
  exact (cmpxchg_8_restores_saved_registers unit tt 20 4096 10 s Hd Hs Hf Hr).
Defined.

(** X2.  The 8-byte load and store of the 32-bit build are balanced:
    each pushes one value on the x87 stack and pops it again, and
    releases the 8 bytes of frame it reserved, so the x87 stack, the
    rounding control, the stack pointer and the callee-saved registers
    are on return what they were on entry.  This needs a free x87
    register on entry: on a full stack the push drops the oldest
    entry. *)
Theorem load_store_jlong_balanced (v p : Z) (s : machine) :
  x87_free s -> esp_32 s ->
  preserved s (snd (IA32.Atomic_load p s)) /\
  preserved s (snd (IA32.Atomic_store_jlong v p s)) /\
  preserved s (snd (IA32.Atomic_store_jlong_volatile v p s)).
Proof.
  intros Hx He. destruct s as [[a b c d di sp z l r f] m].
  unfold x87_free, esp_32 in Hx, He. cbn [regs st esp] in Hx, He.
  assert (Hsp : wrap 4 (wrap 4 (sp - 8) + 8) = sp).
  { rewrite wrap_add_l. replace (sp - 8 + 8) with sp by lia. apply wrap_4_small, He. }
  split; [|split]; exec; change (Z.of_nat 8) with 8;
    rewrite x87_pop_push by exact Hx; rewrite Hsp; repeat split.
Qed.

Lemma load_store_jlong_balanced_witness :
  let s := mkMachine (mkCpu 1 2 3 4 5 (2 ^ 16) false 0 RC_up [X87_num false (2 ^ 63) (-63)])
                     zero_mem in
  (x87_free s /\ esp_32 s) /\
  st (regs (snd (IA32.Atomic_store_jlong 0x1122334455667788 4096 s)))
    = [X87_num false (2 ^ 63) (-63)] /\
  preserved s (snd (IA32.Atomic_load 4096 s)) /\
  preserved s (snd (IA32.Atomic_store_jlong 0x1122334455667788 4096 s)) /\
  preserved s (snd (IA32.Atomic_store_jlong_volatile 0x1122334455667788 4096 s)).
Proof.
  intros s.
  assert (Hx : x87_free s) by (unfold x87_free, x87_depth; simpl; lia).
  assert (He : esp_32 s) by (unfold esp_32; simpl; lia).
  split; [exact (conj Hx He)|].
  split; [reflexivity|].
  exact (load_store_jlong_balanced 0x1122334455667788 4096 s Hx He).
Defined.

(** ** The two builds against each other *)

Lemma agree_sym (x y : Z * mem) : agree x y -> agree y x.
Proof. intros [H1 H2]. split; [symmetry; exact H1 | intros a; symmetry; apply H2]. Qed.

Lemma write_signed (m : mem) (a v b : Z) :
  write 8 m a (signed 8 v) b = write 8 m a v b.
Proof.
  rewrite <- (write_wrap 8 m a (signed 8 v)), signed_wrap. apply write_wrap.
Qed.

(** X3.  The 8-byte store and load of the 32-bit build, which go
    through the x87 unit, do what the plain 8-byte assignment and read
    of the 64-bit build do: the store leaves the same content in every
    byte outside the callee's own 8 bytes of frame, and the load
    returns the same value. *)
Theorem jlong_access_same_in_both_builds (v p : Z) (s : machine) :
  ptr32 p -> x87_free s ->
  (stack_room s 8 -> forall a, ~ in_frame s 8 a ->
     memory (snd (IA32.Atomic_store_jlong v p s)) a
       = AMD64.Atomic_store_jlong v p (memory s) a /\
     memory (snd (IA32.Atomic_store_jlong_volatile v p s)) a
       = AMD64.Atomic_store_jlong_volatile v p (memory s) a) /\
  fst (IA32.Atomic_load p s) = fst (AMD64.Atomic_load p (memory s)).
Proof.
  intros Hp Hx. split.
  - intros Hs a Ha.
    destruct (ia32_store_jlong_run v p s Hp Hx) as (Hm & _).
    unfold stack_room, in_frame in Hs, Ha.
    assert (H : memory (snd (IA32.Atomic_store_jlong_volatile v p s)) a
                = write 8 (memory s) p v a).
    { rewrite Hm, write_signed. apply write_ext.
      rewrite (wrap_4_small (esp (regs s) - 8)) by lia.
      apply write_outside. unfold in_slot. change (Z.of_nat 8) with 8. lia. }
    split; exact H.
  - destruct (ia32_load_run p s Hp Hx) as (Hl & _). rewrite Hl. reflexivity.
Qed.

Lemma jlong_access_same_in_both_builds_witness :
  let s := sample (write 8 zero_mem 4096 0xfedcba9876543210) in
  (ptr32 4096 /\ x87_free s /\ stack_room s 8 /\ ~ in_frame s 8 4099) /\
  memory (snd (IA32.Atomic_store_jlong (-2) 4096 s)) 4099
    = AMD64.Atomic_store_jlong (-2) 4096 (memory s) 4099 /\
  fst (IA32.Atomic_load 4096 s) = fst (AMD64.Atomic_load 4096 (memory s)).
Proof.
  intros s.
  assert (Hp : ptr32 4096) by (unfold ptr32; lia).
  assert (Hx : x87_free s) by (unfold x87_free, x87_depth; simpl; lia).
  assert (Hs : stack_room s 8) by (unfold stack_room; simpl; lia).
  assert (Ha : ~ in_frame s 8 4099) by (unfold in_frame; simpl; lia).
  split; [exact (conj Hp (conj Hx (conj Hs Ha)))|].
  destruct (jlong_access_same_in_both_builds (-2) 4096 s Hp Hx) as [Hst Hl].
  exact (conj (proj1 (Hst Hs 4099 Ha)) Hl).
Defined.

Lemma ia32_inc_refines (dest : Z) (s : machine) :
  ptr32 dest ->
  agree (1, memory (snd (IA32.Atomic_inc dest s)))
        (1, snd (fetch_add 4 1 dest (memory s))).
Proof.
  intros Hd. destruct (ia32_inc_run dest s Hd) as (Hm & _).
  unfold agree, fetch_add. cbn [fst snd]. rewrite Hm. split; reflexivity.
Qed.

Lemma ia32_dec_refines (dest : Z) (s : machine) :
  ptr32 dest ->
  agree (1, memory (snd (IA32.Atomic_dec dest s)))
        (1, snd (fetch_add 4 (-1) dest (memory s))).
Proof.
  intros Hd. destruct (ia32_dec_run dest s Hd) as (Hm & _).
  unfold agree, fetch_add. cbn [fst snd]. rewrite Hm. split; reflexivity.
Qed.

Lemma amd64_cmpxchg_8_run {cmo : Type} (o : AMD64.os) (e dest c : Z) (order : cmo) (m : mem) :
  os_contract o ->
  fst (AMD64.PlatformCmpxchg_8 o e dest c order m) = read 8 m dest /\
  forall a, snd (AMD64.PlatformCmpxchg_8 o e dest c order m) a
            = (if read 8 m dest =? wrap 8 c then write 8 m dest e else m) a.
Proof.
  intros Ho.
  exact (amd64_cmpxchg_helper 8 (AMD64.atomic_cmpxchg_long_func o) e dest c m
           (atomic_cmpxchg_long_ok o Ho)).
Qed.

(** X4.  The two builds are interchangeable.  For every provider of the
    entry points that meets its contract, the inline assembly of the
    32-bit build and the delegating wrappers of the 64-bit build return
    the same value and leave the same content in every byte: for add,
    exchange and the 1- and 4-byte compare-exchange, and for inc and
    dec as to memory.  The 8-byte compare-exchange returns the same
    value and leaves the same content in every byte outside the two
    registers it saves on the stack. *)
Theorem builds_agree
    (cmo : Type) (order : cmo) (o : AMD64.os) (v c dest : Z) (s : machine) :
  os_contract o -> ptr32 dest ->
  agree (outcome (IA32.PlatformAdd_4_add_and_fetch v dest s))
        (AMD64.PlatformAdd_4_add_and_fetch o v dest (memory s)) /\
  agree (outcome (IA32.Atomic_xchg v dest s)) (AMD64.Atomic_xchg o v dest (memory s)) /\
  agree (outcome (IA32.PlatformCmpxchg_1 v dest c order s))
        (AMD64.PlatformCmpxchg_1 o v dest c order (memory s)) /\
  agree (outcome (IA32.PlatformCmpxchg_4 v dest c order s))
        (AMD64.PlatformCmpxchg_4 o v dest c order (memory s)) /\
  (forall a, memory (snd (IA32.Atomic_inc dest s)) a = AMD64.Atomic_inc o dest (memory s) a) /\
  (forall a, memory (snd (IA32.Atomic_dec dest s)) a = AMD64.Atomic_dec o dest (memory s) a) /\
  (stack_room s 8 -> slot_off_frame s 8 dest 8 ->
   fst (IA32.PlatformCmpxchg_8 v dest c order s)
     = fst (AMD64.PlatformCmpxchg_8 o v dest c order (memory s)) /\
   forall a, ~ in_frame s 8 a ->
     memory (snd (IA32.PlatformCmpxchg_8 v dest c order s)) a
       = snd (AMD64.PlatformCmpxchg_8 o v dest c order (memory s)) a).
Proof.
  intros Ho Hd.
  assert (A4 : forall d, agree (AMD64.PlatformAdd_4_add_and_fetch o d dest (memory s))
                               (fetch_add 4 d dest (memory s))).
  { intros d. apply amd64_add_helper, (atomic_add_ok o Ho). }
  split; [|split; [|split; [|split; [|split; [|split]]]]].
  - eapply agree_trans; [apply (ia32_add_refines v dest s Hd)|]. apply agree_sym, A4.
  - eapply agree_trans; [apply (ia32_xchg_refines v dest s Hd)|].
    apply agree_sym, (amd64_xchg_helper 4), (atomic_xchg_ok o Ho).
  - eapply agree_trans; [apply (ia32_cmpxchg_1_refines v dest c order s Hd)|].
    apply agree_sym, amd64_cmpxchg_helper, (atomic_cmpxchg_byte_ok o Ho).
  - eapply agree_trans; [apply (ia32_cmpxchg_4_refines v dest c order s Hd)|].
    apply agree_sym, amd64_cmpxchg_helper, (atomic_cmpxchg_ok o Ho).
  - intros a. destruct (ia32_inc_refines dest s Hd) as [_ H1].
    destruct (A4 1) as [_ H2]. cbn [snd] in H1. rewrite H1.
    unfold AMD64.Atomic_inc, AMD64.Atomic_add. rewrite H2. reflexivity.
  - intros a. destruct (ia32_dec_refines dest s Hd) as [_ H1].
    destruct (A4 (-1)) as [_ H2]. cbn [snd] in H1. rewrite H1.
    unfold AMD64.Atomic_dec, AMD64.Atomic_add. rewrite H2. reflexivity.
  - intros Hs Hf.
    destruct (ia32_cmpxchg_8_run v dest c order s Hd Hs Hf) as (Hr & Hm & _).
    destruct (amd64_cmpxchg_8_run o v dest c order (memory s) Ho) as [Hr' Hm'].
    split.
    + rewrite Hr, Hr'. reflexivity.
    + intros a Ha. rewrite Hm, Hm'. unfold in_frame in Ha.
      assert (Hpa : write 4 (write 4 (memory s) (esp (regs s) - 4) (ebx (regs s)))
                      (esp (regs s) - 8) (edi (regs s)) a = memory s a).
      { rewrite !write_outside by (unfold in_slot; change (Z.of_nat 4) with 4; lia).
        reflexivity. }
      destruct (read 8 (memory s) dest =? wrap 8 c).
      * rewrite write_wrap. apply write_ext, Hpa.
      * transitivity (write 8 (memory s) dest (read 8 (memory s) dest) a).
        -- apply write_ext, Hpa.
        -- apply write_read_id.
Qed.

Lemma builds_agree_witness :
  let s := sample (write 8 zero_mem 4096 10) in
  (os_contract os_reference /\ ptr32 4096 /\ stack_room s 8 /\ slot_off_frame s 8 4096 8) /\
  agree (outcome (IA32.PlatformAdd_4_add_and_fetch (-11) 4096 s))
        (AMD64.PlatformAdd_4_add_and_fetch os_reference (-11) 4096 (memory s)) /\
  agree (outcome (IA32.PlatformCmpxchg_1 20 4096 10 tt s))
        (AMD64.PlatformCmpxchg_1 os_reference 20 4096 10 tt (memory s)) /\
  fst (IA32.PlatformCmpxchg_8 20 4096 10 tt s)
    = fst (AMD64.PlatformCmpxchg_8 os_reference 20 4096 10 tt (memory s)).
Proof.
  intros s.
  assert (Hd : ptr32 4096) by (unfold ptr32; lia).
  assert (Hs : stack_room s 8) by (unfold stack_room; simpl; lia).
  assert (Hf : slot_off_frame s 8 4096 8) by (unfold slot_off_frame; simpl; lia).
  split; [exact (conj os_reference_ok (conj Hd (conj Hs Hf)))|].
  destruct (builds_agree unit tt os_reference (-11) 10 4096 s os_reference_ok Hd)
    as (Ha & _).
  destruct (builds_agree unit tt os_reference 20 10 4096 s os_reference_ok Hd)
    as (_ & _ & H1 & _ & _ & _ & H8).
  exact (conj Ha (conj H1 (proj1 (H8 Hs Hf)))).
Defined.

(** ** How the operations compose *)

(** X5.  In the 32-bit build, two adds in a row are one add of the
    sum: [add(d2)] after [add(d1)] returns what [add(d1 + d2)] returns
    and leaves the same content in every byte.  In particular [dec]
    undoes [inc] and [inc] undoes [dec]: after the pair every byte of
    memory is what it was, also across the wrap-around. *)
Theorem add_composes (d1 d2 dest : Z) (s : machine) :
  ptr32 dest ->
  (let o2 := IA32.PlatformAdd_4_add_and_fetch d2 dest
               (snd (IA32.PlatformAdd_4_add_and_fetch d1 dest s)) in
   let o := IA32.PlatformAdd_4_add_and_fetch (d1 + d2) dest s in
   fst o2 = fst o /\ forall a, memory (snd o2) a = memory (snd o) a) /\
  (forall a, memory (snd (IA32.Atomic_dec dest (snd (IA32.Atomic_inc dest s)))) a
             = memory s a) /\
  (forall a, memory (snd (IA32.Atomic_inc dest (snd (IA32.Atomic_dec dest s)))) a
             = memory s a).
Proof.
  intros Hd. split; [|split].
  - cbn zeta.
    destruct (ia32_add_and_fetch_run d1 dest s Hd) as (_ & Hm1 & _).
    destruct (ia32_add_and_fetch_run d2 dest
                (snd (IA32.PlatformAdd_4_add_and_fetch d1 dest s)) Hd) as (Hr2 & Hm2 & _).
    destruct (ia32_add_and_fetch_run (d1 + d2) dest s Hd) as (Hr & Hm & _).
    rewrite Hm1 in Hr2, Hm2. rewrite read_write_same in Hr2, Hm2.
    rewrite wrap_wrap, wrap_add_l in Hr2, Hm2.
    rewrite <- Z.add_assoc in Hr2, Hm2.
    split; [rewrite Hr2, Hr; reflexivity|].
    intros a. rewrite Hm2, Hm. apply write_write_same.
  - intros a.
    destruct (ia32_inc_run dest s Hd) as (Hm1 & _).
    destruct (ia32_dec_run dest (snd (IA32.Atomic_inc dest s)) Hd) as (Hm2 & _).
    rewrite Hm2, Hm1, read_write_same, wrap_wrap, write_write_same.
    replace (wrap 4 (wrap 4 (read 4 (memory s) dest + 1) - 1))
      with (read 4 (memory s) dest); [apply write_read_id|].
    replace (wrap 4 (read 4 (memory s) dest + 1) - 1)
      with (wrap 4 (read 4 (memory s) dest + 1) + (-1)) by lia.
    rewrite wrap_add_l.
    replace (read 4 (memory s) dest + 1 + -1) with (read 4 (memory s) dest) by lia.
    symmetry. apply wrap_read.
  - intros a.
    destruct (ia32_dec_run dest s Hd) as (Hm1 & _).
    destruct (ia32_inc_run dest (snd (IA32.Atomic_dec dest s)) Hd) as (Hm2 & _).
    rewrite Hm2, Hm1, read_write_same, wrap_wrap, write_write_same.
    replace (wrap 4 (wrap 4 (read 4 (memory s) dest - 1) + 1))
      with (read 4 (memory s) dest); [apply write_read_id|].
    rewrite wrap_add_l.
    replace (read 4 (memory s) dest - 1 + 1) with (read 4 (memory s) dest) by lia.
    symmetry. apply wrap_read.
Qed.

Lemma add_composes_witness :
  let s := sample (Atomic_store_jint 0xfffffffe 4096 zero_mem) in
  ptr32 4096 /\
  fst (IA32.PlatformAdd_4_add_and_fetch 5 4096
         (snd (IA32.PlatformAdd_4_add_and_fetch (-3) 4096 s))) = 0 /\
  (let o2 := IA32.PlatformAdd_4_add_and_fetch 5 4096
               (snd (IA32.PlatformAdd_4_add_and_fetch (-3) 4096 s)) in
   let o := IA32.PlatformAdd_4_add_and_fetch (-3 + 5) 4096 s in
   fst o2 = fst o /\ forall a, memory (snd o2) a = memory (snd o) a) /\
  (forall a, memory (snd (IA32.Atomic_dec 4096 (snd (IA32.Atomic_inc 4096 s)))) a
             = memory s a).
Proof.
  intros s.
  assert (Hd : ptr32 4096) by (unfold ptr32; lia).
  split; [exact Hd|]. split; [reflexivity|].
  destruct (add_composes (-3) 5 4096 s Hd) as (H1 & H2 & _).
  exact (conj H1 H2).
Defined.

(** X6.  In the 32-bit build, operations on two 4-byte slots that share
    no byte do not interfere: in either order each call returns what it
    returns when run alone first, and the two orders leave the same
    content in every byte.  This holds of two adds and of two
    compare-exchanges. *)
Theorem disjoint_slots_commute
    (cmo : Type) (order : cmo) (x1 x2 c1 c2 d1 d2 : Z) (s : machine) :
  ptr32 d1 -> ptr32 d2 -> disjoint_slots d1 d2 4 ->
  (let a1 := IA32.PlatformAdd_4_add_and_fetch x1 d1 s in
   let a2 := IA32.PlatformAdd_4_add_and_fetch x2 d2 s in
   let a12 := IA32.PlatformAdd_4_add_and_fetch x2 d2 (snd a1) in
   let a21 := IA32.PlatformAdd_4_add_and_fetch x1 d1 (snd a2) in
   fst a12 = fst a2 /\ fst a21 = fst a1 /\
   forall a, memory (snd a12) a = memory (snd a21) a) /\
  (let a1 := IA32.PlatformCmpxchg_4 x1 d1 c1 order s in
   let a2 := IA32.PlatformCmpxchg_4 x2 d2 c2 order s in
   let a12 := IA32.PlatformCmpxchg_4 x2 d2 c2 order (snd a1) in
   let a21 := IA32.PlatformCmpxchg_4 x1 d1 c1 order (snd a2) in
   fst a12 = fst a2 /\ fst a21 = fst a1 /\
   forall a, memory (snd a12) a = memory (snd a21) a).
Proof.
  intros H1 H2 Hdis.
  assert (Hdis' : disjoint_slots d2 d1 4) by (unfold disjoint_slots in *; lia).
  assert (R12 : forall m v, read 4 (write 4 m d1 v) d2 = read 4 m d2).
  { intros m v. apply read_write_disjoint. unfold disjoint_slots in Hdis. lia. }
  assert (R21 : forall m v, read 4 (write 4 m d2 v) d1 = read 4 m d1).
  { intros m v. apply read_write_disjoint. unfold disjoint_slots in Hdis. lia. }
  split; cbn zeta.
  - destruct (ia32_add_and_fetch_run x1 d1 s H1) as (Ra1 & Ma1 & _).
    destruct (ia32_add_and_fetch_run x2 d2 s H2) as (Ra2 & Ma2 & _).
    destruct (ia32_add_and_fetch_run x2 d2
                (snd (IA32.PlatformAdd_4_add_and_fetch x1 d1 s)) H2) as (Ra12 & Ma12 & _).
    destruct (ia32_add_and_fetch_run x1 d1
                (snd (IA32.PlatformAdd_4_add_and_fetch x2 d2 s)) H1) as (Ra21 & Ma21 & _).
    rewrite Ma1, R12 in Ra12, Ma12. rewrite Ma2, R21 in Ra21, Ma21.
    split; [congruence|]. split; [congruence|].
    intros a. rewrite Ma12, Ma21. apply write_write_disjoint, Hdis.
  - destruct (ia32_cmpxchg_4_run x1 d1 c1 order s H1) as (Ra1 & Ma1 & _).
    destruct (ia32_cmpxchg_4_run x2 d2 c2 order s H2) as (Ra2 & Ma2 & _).
    destruct (ia32_cmpxchg_4_run x2 d2 c2 order
                (snd (IA32.PlatformCmpxchg_4 x1 d1 c1 order s)) H2) as (Ra12 & Ma12 & _).
    destruct (ia32_cmpxchg_4_run x1 d1 c1 order
                (snd (IA32.PlatformCmpxchg_4 x2 d2 c2 order s)) H1) as (Ra21 & Ma21 & _).
    rewrite Ma1, R12 in Ra12, Ma12. rewrite Ma2, R21 in Ra21, Ma21.
    split; [congruence|]. split; [congruence|].
    intros a. rewrite Ma12, Ma21. apply write_write_disjoint, Hdis.
Qed.

Lemma disjoint_slots_commute_witness :
  let s := sample (write 4 (write 4 zero_mem 4096 10) 4100 0xffffffff) in
  (ptr32 4096 /\ ptr32 4100 /\ disjoint_slots 4096 4100 4) /\
  (fst (IA32.PlatformAdd_4_add_and_fetch 1 4100
          (snd (IA32.PlatformAdd_4_add_and_fetch 5 4096 s))),
   fst (IA32.PlatformAdd_4_add_and_fetch 5 4096
          (snd (IA32.PlatformAdd_4_add_and_fetch 1 4100 s)))) = (0, 15) /\
  (forall a,
     memory (snd (IA32.PlatformAdd_4_add_and_fetch 1 4100
                    (snd (IA32.PlatformAdd_4_add_and_fetch 5 4096 s)))) a
     = memory (snd (IA32.PlatformAdd_4_add_and_fetch 5 4096
                      (snd (IA32.PlatformAdd_4_add_and_fetch 1 4100 s)))) a).
Proof.
  intros s.
  assert (H1 : ptr32 4096) by (unfold ptr32; lia).
  assert (H2 : ptr32 4100) by (unfold ptr32; lia).
  assert (Hd : disjoint_slots 4096 4100 4) by (unfold disjoint_slots; simpl; lia).
  split; [exact (conj H1 (conj H2 Hd))|]. split; [reflexivity|].
  exact (proj2 (proj2 (proj1 (disjoint_slots_commute unit tt 5 1 0 0 4096 4100 s H1 H2 Hd)))).
Defined.

(** ** Concurrent callers: the values returned *)

Lemma nth_error_set_nth {A : Type} (l : list A) (i j : nat) (x y : A) :
  nth_error l i = Some y ->
  nth_error (set_nth i x l) j = if Nat.eqb j i then Some x else nth_error l j.
Proof.
  revert i j. induction l as [|z l IH]; intros [|i] [|j] H; cbn in H; try discriminate;
    cbn [set_nth nth_error Nat.eqb]; try reflexivity.
  apply IH, H.
Qed.

(** One micro-operation of a caller of [add(1, dest)], as to its
    ticket: it keeps the ticket it has, and the [xadd] gives it the
    slot's value plus one. *)
Lemma caller_step_ticket (dest : Z) (t : thread) (m : mem) (u : uop) (rest : list uop) :
  ptr32 dest -> caller_ok dest t -> addend_kept t -> t_code t = u :: rest ->
  let s' := u (mkMachine (t_regs t) m) in
  let t' := mkThread (regs s') rest in
  addend_kept t' /\
  (arrived t = true -> ticket t' = ticket t) /\
  (arrived t = false -> arrived t' = true -> ticket t' = wrap 4 (read 4 m dest + 1)).
Proof.
  intros Hd (k & Hk & Hc & Hedx & Heax) Hecx Hu.
  destruct t as [[a b c d di sp z l r f] code].
  unfold addend_kept, ticket, arrived, done in *. cbn [t_code t_regs edx eax ecx] in *.
  rewrite Hc in Hu.
  assert (Hcases : (k = 0 \/ k = 1 \/ k = 2 \/ k = 3 \/ k = 4 \/ k = 5)%nat) by lia.
  destruct Hcases as [->|[->|[->|[->|[->| ->]]]]];
    cbv beta iota zeta delta [skipn concat app IA32.add_and_fetch_asm mov mov_rr lock xadd_m32 add_rr] in Hu, Hc;
    try discriminate Hu;
    injection Hu as <- <-; subst code; cbn [length Nat.leb] in *.
  - repeat split; intros; try discriminate; lia.
  - repeat split; intros; try discriminate; lia.
  - repeat split; intros; try discriminate. exec. rewrite Heax by lia. reflexivity.
  - specialize (Hecx ltac:(lia)). specialize (Hedx ltac:(lia)). subst c d.
    repeat split; intros; try discriminate;
      exec; rewrite ?(ptr32_wrap dest Hd); wrap_norm; reflexivity.
  - specialize (Hecx ltac:(lia)). subst c.
    repeat split; intros; try lia.
    exec. wrap_norm. reflexivity.
Qed.

Lemma step_ticketed (dest : Z) (i : nat) (c c' : system) :
  ptr32 dest -> Z.of_nat (length (threads c)) < 2 ^ 32 ->
  ticketed dest c -> step i c = Some c' -> ticketed dest c'.
Proof.
  intros Hd HN (Hc & Hkept & Hbound & Hdiff) Hstep.
  destruct (step_counting dest 0 i c c' Hd Hc Hstep) as (Hc' & _ & Hlen').
  pose proof (arrivals_le c') as Hle'. rewrite Hlen' in Hle'.
  unfold step in Hstep.
  destruct (nth_error (threads c) i) as [t|] eqn:Hi; [|discriminate].
  destruct (t_code t) as [|u rest] eqn:Hcode; [discriminate|].
  injection Hstep as <-.
  destruct Hc as [Hall Hslot].
  pose proof (nth_error_Forall _ _ _ _ Hall Hi) as Ht.
  pose proof (nth_error_Forall _ _ _ _ Hkept Hi) as Hk.
  destruct (caller_step dest t (shared c) u rest Hd Ht Hcode) as (_ & _ & Heff).
  destruct (caller_step_ticket dest t (shared c) u rest Hd Ht Hk Hcode)
    as (Hkept' & Hsame & Hnew).
  set (s' := u (mkMachine (t_regs t) (shared c))) in *.
  set (t' := mkThread (regs s') rest) in *.
  pose proof (total_set_nth (fun t => if arrived t then 1 else 0)%nat i t t' _ Hi) as Harr.
  cbn beta in Harr.
  unfold arrivals in *. cbn [threads shared] in *.
  set (n := total (fun t0 => if arrived t0 then 1 else 0)%nat (threads c)) in *.
  set (n' := total (fun t0 => if arrived t0 then 1 else 0)%nat (set_nth i t' (threads c))) in *.
  assert (K1 : (n <= n')%nat).
  { destruct Heff as [[Ha _]|(Ha & Ha' & _)]; [rewrite Ha in Harr | rewrite Ha, Ha' in Harr]; lia. }
  assert (K2 : arrived t' = true ->
               (arrived t = true /\ ticket t' = ticket t) \/
               (arrived t = false /\ ticket t' = Z.of_nat n' /\ n' = S n)).
  { intros Ha'. destruct (arrived t) eqn:Ha.
    - left. split; [reflexivity | apply Hsame; reflexivity].
    - right. split; [reflexivity|].
      rewrite Ha' in Harr. assert (Hn : n' = S n) by lia.
      split; [|exact Hn].
      rewrite (Hnew eq_refl Ha'), Hslot. cbn [Z.add]. wrap_norm.
      rewrite wrap_4_small by lia. lia. }
  split; [exact Hc'|]. unfold arrivals. cbn [threads shared]. fold n'.
  clearbody n n'. split; [|split].
  - apply set_nth_Forall; assumption.
  - intros j tj Hj Haj. rewrite (nth_error_set_nth _ _ _ _ _ Hi) in Hj.
    destruct (Nat.eqb_spec j i) as [->|Hne].
    + injection Hj as <-. destruct (K2 Haj) as [[Ha Ht']|(Ha & Ht' & Hn)].
      * rewrite Ht'. specialize (Hbound i t Hi Ha). lia.
      * rewrite Ht'. lia.
    + specialize (Hbound j tj Hj Haj). lia.
  - intros j1 j2 t1 t2 Hne H1 H2 Ha1 Ha2.
    rewrite (nth_error_set_nth _ _ _ _ _ Hi) in H1.
    rewrite (nth_error_set_nth _ _ _ _ _ Hi) in H2.
    destruct (Nat.eqb_spec j1 i) as [->|Hn1], (Nat.eqb_spec j2 i) as [->|Hn2].
    + congruence.
    + injection H1 as <-. pose proof (Hbound j2 t2 H2 Ha2) as B2.
      destruct (K2 Ha1) as [[Ha Ht']|(Ha & Ht' & Hn)]; rewrite Ht'.
      * apply (Hdiff i j2 t t2); assumption.
      * lia.
    + injection H2 as <-. pose proof (Hbound j1 t1 H1 Ha1) as B1.
      destruct (K2 Ha2) as [[Ha Ht']|(Ha & Ht' & Hn)]; rewrite Ht'.
      * apply (Hdiff j1 i t1 t); assumption.
      * lia.
    + apply (Hdiff j1 j2 t1 t2); assumption.
Qed.

Lemma run_ticketed (dest : Z) (sched : list nat) (c c' : system) :
  ptr32 dest -> Z.of_nat (length (threads c)) < 2 ^ 32 ->
  ticketed dest c -> run sched c = Some c' -> ticketed dest c'.
Proof.
  intros Hd. revert c. induction sched as [|i sched IH]; intros c HN Hc Hrun; cbn [run] in Hrun.
  - injection Hrun as <-. exact Hc.
  - destruct (step i c) as [c1|] eqn:Hstep; [|discriminate].
    pose proof (step_ticketed dest i c c1 Hd HN Hc Hstep) as Hc1.
    destruct (step_counting dest 0 i c c1 Hd (proj1 Hc) Hstep) as (_ & _ & Hl).
    apply (IH c1); [rewrite Hl; exact HN | exact Hc1 | exact Hrun].
Qed.

Lemma add_callers_ticketed (cs : list cpu) (dest : Z) (m : mem) :
  ticketed dest (add_callers cs dest (Atomic_store_jint 0 dest m)).
Proof.
  destruct (add_callers_counting cs dest 0 m) as (Hc & _ & _).
  assert (Hnew : forall i t,
            nth_error (threads (add_callers cs dest (Atomic_store_jint 0 dest m))) i = Some t ->
            length (t_code t) = 5%nat).
  { intros i t H. unfold add_callers in H. cbn [threads] in H.
    apply nth_error_In, in_map_iff in H. destruct H as (x & <- & _). reflexivity. }
  split; [exact Hc|]. split; [|split].
  - unfold add_callers. cbn [threads]. apply Forall_forall. intros t Ht.
    apply in_map_iff in Ht. destruct Ht as (x & <- & _).
    unfold addend_kept. cbn [t_code].
    change (length (concat (IA32.add_and_fetch_asm 1 dest))) with 5%nat. lia.
  - intros i t Hi Ha. unfold arrived in Ha. rewrite (Hnew i t Hi) in Ha. discriminate.
  - intros i j ti tj _ Hi _ Ha _. unfold arrived in Ha. rewrite (Hnew i ti Hi) in Ha.
    discriminate.
Qed.

(** X7.  [N] concurrent callers of [add(1, dest)] on a slot initialised
    to 0, in the 32-bit build, with [N] below [2^32]: along every
    schedule, the callers that are done have returned values between 1
    and [N], and no two of them the same value.  So when all are done
    the values returned are 1 to [N], each exactly once. *)
Theorem add_results_distinct
    (cs : list cpu) (dest : Z) (m : mem) (sched : list nat) (c : system) :
  ptr32 dest -> Z.of_nat (length cs) < 2 ^ 32 ->
  run sched (add_callers cs dest (Atomic_store_jint 0 dest m)) = Some c ->
  (forall i t, nth_error (threads c) i = Some t -> done t = true ->
     1 <= eax (t_regs t) <= Z.of_nat (length cs)) /\
  (forall i j ti tj, i <> j ->
     nth_error (threads c) i = Some ti -> nth_error (threads c) j = Some tj ->
     done ti = true -> done tj = true -> eax (t_regs ti) <> eax (t_regs tj)).
Proof.
  intros Hd HN Hrun.
  destruct (add_callers_counting cs dest 0 m) as (_ & _ & Hl0).
  assert (HN0 : Z.of_nat (length (threads (add_callers cs dest (Atomic_store_jint 0 dest m))))
                < 2 ^ 32) by (rewrite Hl0; exact HN).
  destruct (run_ticketed dest sched _ c Hd HN0 (add_callers_ticketed cs dest m) Hrun)
    as (Hc & _ & Hbound & Hdiff).
  destruct (run_counting dest 0 sched _ c Hd (proj1 (add_callers_ticketed cs dest m)) Hrun)
    as (_ & _ & Hl).
  pose proof (arrivals_le c) as Hle. rewrite Hl, Hl0 in Hle.
  assert (Hdone : forall t, done t = true -> arrived t = true /\ ticket t = eax (t_regs t)).
  { intros t Ht. unfold ticket. rewrite Ht. split; [|reflexivity].
    unfold done in Ht. unfold arrived. destruct (t_code t); [reflexivity|discriminate]. }
  split.
  - intros i t Hi Ht. destruct (Hdone t Ht) as [Ha He].
    specialize (Hbound i t Hi Ha). rewrite He in Hbound. lia.
  - intros i j ti tj Hne Hi Hj Hti Htj.
    destruct (Hdone ti Hti) as [Hai Hei]. destruct (Hdone tj Htj) as [Haj Hej].
    rewrite <- Hei, <- Hej. apply (Hdiff i j ti tj); assumption.
Qed.

Lemma add_results_distinct_witness :
  let dest := 4096 in
  let sched := [0; 1; 2; 2; 1; 0; 2; 0; 1; 1; 2; 0; 0; 1; 2]%nat in
  let init := add_callers [sample_cpu; sample_cpu; sample_cpu] dest
                (Atomic_store_jint 0 dest zero_mem) in
  exists c,
    (ptr32 dest /\ Z.of_nat 3 < 2 ^ 32 /\ run sched init = Some c) /\
    map (fun t => eax (t_regs t)) (threads c) = [3; 1; 2] /\
    (forall i j ti tj, i <> j ->
       nth_error (threads c) i = Some ti -> nth_error (threads c) j = Some tj ->
       done ti = true -> done tj = true -> eax (t_regs ti) <> eax (t_regs tj)).
Proof.
  intros dest sched init.
  remember (match run sched init with Some c => c | None => init end) as c0 eqn:Ec.
  assert (Hd : ptr32 dest) by (unfold ptr32, dest; lia).
  assert (HN : Z.of_nat 3 < 2 ^ 32) by (cbn; lia).
  assert (Hrun : run sched init = Some c0) by (rewrite Ec; vm_compute; reflexivity).
  assert (Hres : map (fun t => eax (t_regs t)) (threads c0) = [3; 1; 2])
    by (rewrite Ec; vm_compute; reflexivity).
  exists c0.
  split; [exact (conj Hd (conj HN Hrun))|].
  split; [exact Hres|].
  exact (proj2 (add_results_distinct [sample_cpu; sample_cpu; sample_cpu] dest
                  zero_mem sched c0 Hd HN Hrun)).
Defined.

(** ** Concurrent callers of compare-exchange *)

(** The block is the one [PlatformCmpxchg<4>::operator()] executes. *)
Lemma cmpxchg_4_asm_is_the_block {cmo : Type} (e dest c : Z) (order : cmo) :
  IA32.PlatformCmpxchg_4 e dest c order
  = bind (__asm (cmpxchg_4_asm e dest c)) (fun _ => result_eax).
Proof. reflexivity. Qed.

Lemma Forall2_nth_error_r {A B : Type} (R : A -> B -> Prop) (l : list A) (ts : list B)
    (i : nat) (t : B) :
  Forall2 R l ts -> nth_error ts i = Some t ->
  exists p, nth_error l i = Some p /\ R p t.
Proof.
  intros H. revert i. induction H as [|p y l ts Hpy H IH]; intros [|i] Hi; cbn in Hi.
  - discriminate.
  - discriminate.
  - injection Hi as <-. exists p. split; [reflexivity | exact Hpy].
  - apply (IH i Hi).
Qed.

Lemma Forall2_set_nth {A B : Type} (R : A -> B -> Prop) (l : list A) (ts : list B)
    (i : nat) (p : A) (t' : B) :
  Forall2 R l ts -> nth_error l i = Some p -> R p t' -> Forall2 R l (set_nth i t' ts).
Proof.
  intros H. revert i. induction H as [|q y l ts Hqy H IH]; intros [|i] Hi Hp; cbn in Hi.
  - discriminate.
  - discriminate.
  - injection Hi as ->. cbn [set_nth]. constructor; assumption.
  - cbn [set_nth]. constructor; [assumption | apply (IH i Hi Hp)].
Qed.

(** One micro-operation of a caller of [cmpxchg(e, dest, X)]: either it
    is not done yet and memory is as it was; or it has succeeded: the
    slot held [X], its result is [X] and the slot holds [e]; or it has
    failed: its result is the slot's value, which is not [X] and is
    still there. *)
Lemma cas_step (dest X : Z) (p : cpu * Z) (t : thread) (m : mem) (u : uop) (rest : list uop) :
  ptr32 dest -> cas_thread dest X p t -> t_code t = u :: rest ->
  let s' := u (mkMachine (t_regs t) m) in
  let t' := mkThread (regs s') rest in
  cas_thread dest X p t' /\
  ((done t' = false /\ memory s' = m) \/
   (done t' = true /\ read 4 m dest = wrap 4 X /\ eax (t_regs t') = wrap 4 X /\
    read 4 (memory s') dest = wrap 4 (snd p)) \/
   (done t' = true /\ read 4 m dest <> wrap 4 X /\ eax (t_regs t') = read 4 m dest /\
    read 4 (memory s') dest = read 4 m dest)).
Proof.
  intros Hd (k & Hk & Hc & Hedx & Hecx & Heax) Hu.
  destruct t as [[a b c d di sp z l r f] code]. destruct p as [c0 e].
  unfold cas_thread, cas_at, done. cbn [t_code t_regs edx eax ecx snd] in *.
  rewrite Hc in Hu.
  assert (Hcases : (k = 0 \/ k = 1 \/ k = 2 \/ k = 3 \/ k = 4)%nat) by lia.
  assert (Hblock : concat (cmpxchg_4_asm e dest X)
                   = [ on_regs (fun c => set32 c EDX dest);
                       on_regs (fun c => set32 c ECX e);
                       on_regs (fun c => set32 c EAX X);
                       run_uops (cmpxchg_m32 EDX ECX) ]) by reflexivity.
  rewrite Hblock in Hu, Hc.
  destruct Hcases as [->|[->|[->|[->| ->]]]]; cbn [skipn] in Hu, Hc;
    try discriminate Hu;
    pose proof (f_equal (@hd uop (fun s => s)) Hu) as Eu;
    pose proof (f_equal (@tl uop) Hu) as Er;
    cbn [hd tl] in Eu, Er; subst u rest code; clear Hu.
  - split; [exists 1%nat; split; [lia|]|left; split; reflexivity].
    split; [reflexivity|]. exec.
    repeat split; intros; first [lia | apply ptr32_wrap, Hd].
  - split; [exists 2%nat; split; [lia|]|left; split; reflexivity].
    split; [reflexivity|]. exec.
    repeat split; intros; first [lia | apply Hedx; lia].
  - split; [exists 3%nat; split; [lia|]|left; split; reflexivity].
    split; [reflexivity|]. exec.
    repeat split; intros; first [lia | apply Hedx; lia | apply Hecx; lia].
  - specialize (Hedx ltac:(lia)). specialize (Hecx ltac:(lia)). specialize (Heax eq_refl).
    subst a c d. exec.
    destruct (Z.eqb_spec (read 4 m dest) (wrap 4 X)) as [E|E]; exec.
    + split; [exists 4%nat; split; [lia|]|].
      * repeat split; intros; try lia.
      * right; left. rewrite read_write_same, wrap_wrap. repeat split. exact E.
    + split; [exists 4%nat; split; [lia|]|].
      * repeat split; intros; try lia.
      * right; right. rewrite read_write_same, !wrap_read. repeat split. exact E.
Qed.

Lemma step_cas (l : list (cpu * Z)) (dest X : Z) (i : nat) (c c' : system) :
  ptr32 dest -> Forall (fun p => wrap 4 (snd p) <> wrap 4 X) l ->
  cas_inv l dest X c -> step i c = Some c' -> cas_inv l dest X c'.
Proof.
  intros Hd Hne (Hall & Hfree & Htaken) Hstep. unfold step in Hstep.
  destruct (nth_error (threads c) i) as [t|] eqn:Hi; [|discriminate].
  destruct (t_code t) as [|u rest] eqn:Hcode; [discriminate|].
  injection Hstep as <-.
  destruct (Forall2_nth_error_r _ _ _ _ _ Hall Hi) as (p & Hp & Hpt).
  assert (Hnd : done t = false) by (unfold done; rewrite Hcode; reflexivity).
  destruct (cas_step dest X p t (shared c) u rest Hd Hpt Hcode) as (Hpt' & Heff).
  set (s' := u (mkMachine (t_regs t) (shared c))) in *.
  set (t' := mkThread (regs s') rest) in *.
  assert (Hpne : wrap 4 (snd p) <> wrap 4 X).
  { exact (proj1 (Forall_forall _ _) Hne p (nth_error_In _ _ Hp)). }
  unfold cas_inv. cbn [threads shared].
  split; [apply (Forall2_set_nth _ _ _ _ p); assumption|].
  destruct Heff as [[Hd' Hm]|[(Hd' & Hold & Hres & Hnew)|(Hd' & Hold & Hres & Hnew)]].
  - rewrite Hm. split.
    + intros Hx j tj Hj. rewrite (nth_error_set_nth _ _ _ _ _ Hi) in Hj.
      destruct (Nat.eqb_spec j i); [injection Hj as <-; exact Hd' | apply (Hfree Hx j tj Hj)].
    + intros Hx. destruct (Htaken Hx) as (w & pw & tw & Hlw & Hw & Hdw & Hew & Hsw & Hothers).
      assert (Hwi : w <> i) by (intros ->; rewrite Hi in Hw; injection Hw as <-; congruence).
      exists w, pw, tw. repeat split; try assumption.
      * rewrite (nth_error_set_nth _ _ _ _ _ Hi).
        destruct (Nat.eqb_spec w i); [contradiction | exact Hw].
      * intros j tj Hjw Hj Hdj. rewrite (nth_error_set_nth _ _ _ _ _ Hi) in Hj.
        destruct (Nat.eqb_spec j i); [injection Hj as <-; congruence|].
        apply (Hothers j tj Hjw Hj Hdj).
  - split; [intros Hx; rewrite Hnew in Hx; contradiction|].
    intros _. exists i, p, t'. repeat split; try assumption.
    + rewrite (nth_error_set_nth _ _ _ _ _ Hi), Nat.eqb_refl. reflexivity.
    + intros j tj Hji Hj Hdj. rewrite (nth_error_set_nth _ _ _ _ _ Hi) in Hj.
      destruct (Nat.eqb_spec j i); [contradiction|].
      rewrite (Hfree Hold j tj Hj) in Hdj. discriminate.
  - split; [intros Hx; rewrite Hnew in Hx; contradiction|].
    intros _. rewrite Hnew.
    destruct (Htaken Hold) as (w & pw & tw & Hlw & Hw & Hdw & Hew & Hsw & Hothers).
    assert (Hwi : w <> i) by (intros ->; rewrite Hi in Hw; injection Hw as <-; congruence).
    exists w, pw, tw. repeat split; try assumption.
    + rewrite (nth_error_set_nth _ _ _ _ _ Hi).
      destruct (Nat.eqb_spec w i); [contradiction | exact Hw].
    + intros j tj Hjw Hj Hdj. rewrite (nth_error_set_nth _ _ _ _ _ Hi) in Hj.
      destruct (Nat.eqb_spec j i); [injection Hj as <-; exact Hres|].
      apply (Hothers j tj Hjw Hj Hdj).
Qed.

Lemma run_cas (l : list (cpu * Z)) (dest X : Z) (sched : list nat) (c c' : system) :
  ptr32 dest -> Forall (fun p => wrap 4 (snd p) <> wrap 4 X) l ->
  cas_inv l dest X c -> run sched c = Some c' -> cas_inv l dest X c'.
Proof.
  intros Hd Hne. revert c. induction sched as [|i sched IH]; intros c Hc Hrun; cbn [run] in Hrun.
  - injection Hrun as <-. exact Hc.
  - destruct (step i c) as [c1|] eqn:Hstep; [|discriminate].
    apply (IH c1); [apply (step_cas l dest X i c c1 Hd Hne Hc Hstep) | exact Hrun].
Qed.

Lemma cas_callers_inv (l : list (cpu * Z)) (dest X : Z) (m : mem) :
  cas_inv l dest X (cas_callers l dest X (Atomic_store_jint X dest m)).
Proof.
  unfold cas_inv, cas_callers. cbn [threads shared]. split; [|split].
  - induction l as [|p l IH]; cbn [map]; constructor; [|exact IH].
    exists 0%nat. split; [lia|]. unfold cas_at. cbn [t_code].
    split; [reflexivity|]. repeat split; intros; lia.
  - intros _ i t Hi. apply nth_error_In, in_map_iff in Hi.
    destruct Hi as (p & <- & _). reflexivity.
  - intros H. exfalso. apply H. unfold Atomic_store_jint. apply read_write_same.
Qed.

(** X8.  Concurrent callers of the 4-byte compare-exchange in the
    32-bit build, all with the same [compare_value] [X] on a slot that
    holds [X], each with an exchange value other than [X].  Along every
    schedule at most one caller that is done has returned [X], that is
    has succeeded.  When all are done exactly one has: the slot holds
    its exchange value, and every other caller has returned that value,
    not [X], and has left the slot alone. *)
Theorem cmpxchg_one_winner
    (l : list (cpu * Z)) (dest X : Z) (m : mem) (sched : list nat) (c : system) :
  ptr32 dest -> Forall (fun p => wrap 4 (snd p) <> wrap 4 X) l ->
  run sched (cas_callers l dest X (Atomic_store_jint X dest m)) = Some c ->
  (forall i j ti tj, i <> j ->
     nth_error (threads c) i = Some ti -> nth_error (threads c) j = Some tj ->
     done ti = true -> done tj = true ->
     ~ (eax (t_regs ti) = wrap 4 X /\ eax (t_regs tj) = wrap 4 X)) /\
  (l <> [] -> finished c = true ->
   exists w p tw,
     nth_error l w = Some p /\ nth_error (threads c) w = Some tw /\
     eax (t_regs tw) = wrap 4 X /\
     plain_load 4 dest (shared c) = wrap 4 (snd p) /\
     forall j tj, j <> w -> nth_error (threads c) j = Some tj ->
       eax (t_regs tj) = wrap 4 (snd p) /\ eax (t_regs tj) <> wrap 4 X).
Proof.
  intros Hd Hne Hrun.
  destruct (run_cas l dest X sched _ c Hd Hne (cas_callers_inv l dest X m) Hrun)
    as (Hall & Hfree & Htaken).
  assert (Hwin : forall w p, nth_error l w = Some p -> wrap 4 (snd p) <> wrap 4 X).
  { intros w p Hp. exact (proj1 (Forall_forall _ _) Hne p (nth_error_In _ _ Hp)). }
  split.
  - intros i j ti tj Hij Hi Hj Hdi Hdj [Hei Hej].
    destruct (Z.eq_dec (read 4 (shared c) dest) (wrap 4 X)) as [Hx|Hx].
    + rewrite (Hfree Hx i ti Hi) in Hdi. discriminate.
    + destruct (Htaken Hx) as (w & p & tw & _ & _ & _ & _ & _ & Hothers).
      destruct (Nat.eq_dec i w) as [->|Hiw].
      * apply Hx. rewrite <- (Hothers j tj ltac:(congruence) Hj Hdj). exact Hej.
      * apply Hx. rewrite <- (Hothers i ti Hiw Hi Hdi). exact Hei.
  - intros Hl Hfin. unfold plain_load.
    assert (Hdone : forall j tj, nth_error (threads c) j = Some tj -> done tj = true).
    { intros j tj Hj. unfold finished in Hfin.
      apply (proj1 (forallb_forall _ _) Hfin), (nth_error_In _ _ Hj). }
    destruct (Z.eq_dec (read 4 (shared c) dest) (wrap 4 X)) as [Hx|Hx].
    + exfalso.
      assert (Hfirst : exists t, nth_error (threads c) 0 = Some t).
      { destruct Hall as [|p t l ts _ _]; [congruence | exists t; reflexivity]. }
      destruct Hfirst as (t & Ht).
      pose proof (Hfree Hx 0%nat t Ht) as Hf. rewrite (Hdone 0%nat t Ht) in Hf.
      discriminate.
    + destruct (Htaken Hx) as (w & p & tw & Hlw & Hw & _ & Hew & Hsw & Hothers).
      exists w, p, tw.
      split; [exact Hlw|]. split; [exact Hw|]. split; [exact Hew|]. split; [exact Hsw|].
      intros j tj Hjw Hj.
      rewrite (Hothers j tj Hjw Hj (Hdone j tj Hj)). split; [exact Hsw | exact Hx].
Qed.

Lemma cmpxchg_one_winner_witness :
  let dest := 4096 in
  let l := [(sample_cpu, 20); (sample_cpu, 30); (sample_cpu, 40)] in
  let sched := [0; 1; 2; 2; 1; 0; 2; 0; 1; 1; 2; 0]%nat in
  let init := cas_callers l dest 10 (Atomic_store_jint 10 dest zero_mem) in
  exists c,
    (ptr32 dest /\ Forall (fun p => wrap 4 (snd p) <> wrap 4 10) l /\
     run sched init = Some c /\ l <> [] /\ finished c = true) /\
    map (fun t => eax (t_regs t)) (threads c) = [30; 10; 30] /\
    exists w p tw,
      nth_error l w = Some p /\ nth_error (threads c) w = Some tw /\
      eax (t_regs tw) = wrap 4 10 /\
      plain_load 4 dest (shared c) = wrap 4 (snd p) /\
      forall j tj, j <> w -> nth_error (threads c) j = Some tj ->
        eax (t_regs tj) = wrap 4 (snd p) /\ eax (t_regs tj) <> wrap 4 10.
Proof.
  intros dest l sched init.
  remember (match run sched init with Some c => c | None => init end) as c0 eqn:Ec.
  assert (Hd : ptr32 dest) by (unfold ptr32, dest; lia).
  assert (Hne : Forall (fun p => wrap 4 (snd p) <> wrap 4 10) l)
    by (repeat constructor; vm_compute; discriminate).
  assert (Hrun : run sched init = Some c0) by (rewrite Ec; vm_compute; reflexivity).
  assert (Hl : l <> []) by discriminate.
  assert (Hfin : finished c0 = true) by (rewrite Ec; vm_compute; reflexivity).
  assert (Hres : map (fun t => eax (t_regs t)) (threads c0) = [30; 10; 30])
    by (rewrite Ec; vm_compute; reflexivity).
  exists c0.
  split; [exact (conj Hd (conj Hne (conj Hrun (conj Hl Hfin))))|].
  split; [exact Hres|].
  exact (proj2 (cmpxchg_one_winner l dest 10 zero_mem sched c0 Hd Hne Hrun) Hl Hfin).
Defined.

(** ** At the edges *)

(** X9.  What the free x87 register is needed for.  On entry with all
    eight x87 registers in use (and the x87 exceptions masked, as they
    are by default), the [fild] of the 8-byte store and load overflows
    the register stack: the store leaves the integer indefinite
    [0x8000000000000000] in the slot whatever the value stored, the
    load returns it whatever the slot holds, and either drops the
    oldest entry of the x87 stack. *)
Theorem jlong_access_on_full_x87_stack (v p : Z) (s : machine) :
  ptr32 p -> length (st (regs s)) = x87_depth ->
  plain_load 8 p (memory (snd (IA32.Atomic_store_jlong v p s))) = 0x8000000000000000 /\
  st (regs (snd (IA32.Atomic_store_jlong v p s))) = removelast (st (regs s)) /\
  fst (IA32.Atomic_load p s) = 0x8000000000000000 /\
  st (regs (snd (IA32.Atomic_load p s))) = removelast (st (regs s)).
Proof.
  intros Hp Hfull. destruct s as [[a b c d di sp z l r f] m].
  cbn [regs st] in Hfull. unfold plain_load.
  assert (Hpush : forall x, x87_push x f = X87_nan :: removelast f).
  { intros x. unfold x87_push. rewrite Hfull, Nat.ltb_irrefl. reflexivity. }
  repeat split; exec; change (Z.of_nat 8) with 8; rewrite ?(ptr32_wrap p Hp);
    rewrite Hpush; cbn [x87_top tl x87_to_int]; rewrite ?wrap_wrap, ?read_write_same;
    reflexivity.
Qed.

Lemma jlong_access_on_full_x87_stack_witness :
  let s := mkMachine (mkCpu 0 0 0 0 0 (2 ^ 16) false 0 RC_nearest
                        (repeat (X87_num false (2 ^ 63) (-63)) 8))
                     (write 8 zero_mem 4096 7) in
  (ptr32 4096 /\ length (st (regs s)) = x87_depth) /\
  plain_load 8 4096 (memory (snd (IA32.Atomic_store_jlong 0x1122334455667788 4096 s)))
    = 0x8000000000000000 /\
  fst (IA32.Atomic_load 4096 s) = 0x8000000000000000.
Proof.
  intros s.
  assert (Hp : ptr32 4096) by (unfold ptr32; lia).
  assert (Hf : length (st (regs s)) = x87_depth) by reflexivity.
  split; [exact (conj Hp Hf)|].
  destruct (jlong_access_on_full_x87_stack 0x1122334455667788 4096 s Hp Hf)
    as (H1 & _ & H3 & _).
  exact (conj H1 H3).
Defined.

Lemma read_split (W1 W2 : nat) (m : mem) (a : Z) :
  read (W1 + W2) m a = read W1 m a + modulus W1 * read W2 m (a + Z.of_nat W1).
Proof.
  revert a. induction W1 as [|W1 IH]; intros a.
  - cbn [Nat.add read]. change (modulus 0) with 1. rewrite Z.add_0_r. lia.
  - cbn [Nat.add read]. rewrite IH, modulus_succ.
    replace (a + 1 + Z.of_nat W1) with (a + Z.of_nat (S W1)) by lia. lia.
Qed.

(** X10.  The halves of the 8-byte compare-exchange.  When
    [PlatformCmpxchg<8>] succeeds, the [jint] at [dest] is [ex_lo],
    the low 32 bits of [exchange_value], and the [jint] at [dest + 4]
    is [ex_hi], its high 32 bits; the value returned is made of
    [cmp_lo] and [cmp_hi] in the same way. *)
Theorem cmpxchg_8_halves
    (cmo : Type) (order : cmo) (exchange_value dest compare_value : Z) (s : machine) :
  ptr32 dest -> stack_room s 8 -> slot_off_frame s 8 dest 8 ->
  read 8 (memory s) dest = wrap 8 compare_value ->
  let out := IA32.PlatformCmpxchg_8 exchange_value dest compare_value order s in
  plain_load 4 dest (memory (snd out)) = cast 4 exchange_value /\
  plain_load 4 (dest + 4) (memory (snd out))
    = jint_at (object_repr 8 exchange_value) 1 /\
  fst out = cast 4 compare_value + 2 ^ 32 * jint_at (object_repr 8 compare_value) 1.
Proof.
  intros Hd Hs Hf Heq out.
  destruct (ia32_cmpxchg_8_run exchange_value dest compare_value order s Hd Hs Hf)
    as (Hr & Hm & _).
  fold out in Hr, Hm. rewrite Heq, Z.eqb_refl in Hm.
  assert (H8 : read 8 (memory (snd out)) dest = wrap 8 exchange_value).
  { rewrite Hm, read_write_same. apply wrap_wrap. }
  rewrite (read_split 4 4) in H8. change (modulus 4) with (2 ^ 32) in H8.
  change (Z.of_nat 4) with 4 in H8.
  pose proof (read_range 4 (memory (snd out)) dest) as R1.
  pose proof (read_range 4 (memory (snd out)) (dest + 4)) as R2.
  change (modulus 4) with (2 ^ 32) in R1, R2.
  pose proof (wrap_range 4 exchange_value) as W1.
  pose proof (wrap_range 4 (exchange_value / 2 ^ 32)) as W2.
  change (modulus 4) with (2 ^ 32) in W1, W2.
  rewrite <- halves_of_jlong in H8.
  unfold plain_load, cast. rewrite !jint_at_1.
  split; [lia|]. split; [lia|].
  rewrite Hr, Heq. symmetry. apply halves_of_jlong.
Qed.

Lemma cmpxchg_8_halves_witness :
  let s := sample (write 8 zero_mem 4096 10) in
  (ptr32 4096 /\ stack_room s 8 /\ slot_off_frame s 8 4096 8 /\
   read 8 (memory s) 4096 = wrap 8 10) /\
  (let out := IA32.PlatformCmpxchg_8 0x1122334455667788 4096 10 tt s in
   plain_load 4 4096 (memory (snd out)) = 0x55667788 /\
   plain_load 4 4100 (memory (snd out)) = 0x11223344) /\
  (let out := IA32.PlatformCmpxchg_8 0x1122334455667788 4096 10 tt s in
   plain_load 4 4096 (memory (snd out)) = cast 4 0x1122334455667788 /\
   plain_load 4 (4096 + 4) (memory (snd out))
     = jint_at (object_repr 8 0x1122334455667788) 1 /\
   fst out = cast 4 10 + 2 ^ 32 * jint_at (object_repr 8 10) 1).
Proof.
  intros s.
  assert (Hd : ptr32 4096) by (unfold ptr32; lia).
  assert (Hs : stack_room s 8) by (unfold stack_room; simpl; lia).
  assert (Hf : slot_off_frame s 8 4096 8) by (unfold slot_off_frame; simpl; lia).
  assert (He : read 8 (memory s) 4096 = wrap 8 10) by reflexivity.
  split; [exact (conj Hd (conj Hs (conj Hf He)))|].
  split; [split; reflexivity|].
  exact (cmpxchg_8_halves unit tt 0x1122334455667788 4096 10 s Hd Hs Hf He).
Defined.

Lemma signed_small (W : nat) (x : Z) :
  - (modulus W / 2) <= x < modulus W / 2 -> signed W x = x.
Proof.
  intros H. unfold signed, wrap.
  pose proof (modulus_pos W) as Hm.
  assert (He : modulus W / 2 <= modulus W).
  { apply Z.div_le_upper_bound; lia. }
  destruct (Z_lt_le_dec x 0) as [Hneg|Hpos].
  - assert (Hx : x mod modulus W = x + modulus W).
    { symmetry. apply Z.mod_unique with (-1); lia. }
    rewrite Hx.
    pose proof (Z.div_mod (modulus W) 2 ltac:(lia)) as H2.
    pose proof (Z.mod_pos_bound (modulus W) 2 ltac:(lia)) as H3.
    destruct (Z.ltb_spec (x + modulus W) (modulus W / 2)); lia.
  - rewrite Z.mod_small by lia.
    destruct (Z.ltb_spec x (modulus W / 2)); lia.
Qed.

(** X11.  The signed reading of add.  In the 32-bit build, when the sum
    of the [jint] in the slot and the addend stays within the range of
    [jint], [add_and_fetch] returns exactly that sum as a signed value
    and leaves it in the slot: negative addends and negative contents
    need no special case. *)
Theorem add_signed_without_overflow (v0 d dest : Z) (s : machine) :
  ptr32 dest -> - 2 ^ 31 <= v0 + d < 2 ^ 31 ->
  let s0 := mkMachine (regs s) (Atomic_store_jint v0 dest (memory s)) in
  let out := IA32.PlatformAdd_4_add_and_fetch d dest s0 in
  signed 4 (fst out) = v0 + d /\
  signed 4 (plain_load 4 dest (memory (snd out))) = v0 + d.
Proof.
  intros Hd Hr s0 out.
  destruct (ia32_add_and_fetch_run d dest s0 Hd) as (H1 & H2 & _).
  fold out in H1, H2. unfold s0 in H1, H2. cbn [memory] in H1, H2.
  unfold Atomic_store_jint in H1, H2. rewrite read_write_same, wrap_add_l in H1, H2.
  assert (Hs : signed 4 (wrap 4 (v0 + d)) = v0 + d).
  { rewrite signed_of_wrap. apply signed_small. change (modulus 4 / 2) with (2 ^ 31). exact Hr. }
  unfold plain_load. rewrite H1, H2, read_write_same, wrap_wrap. split; exact Hs.
Qed.

Lemma add_signed_without_overflow_witness :
  (ptr32 4096 /\ - 2 ^ 31 <= (-5) + (-7) < 2 ^ 31) /\
  (let s0 := mkMachine (regs (sample zero_mem))
               (Atomic_store_jint (-5) 4096 (memory (sample zero_mem))) in
   let out := IA32.PlatformAdd_4_add_and_fetch (-7) 4096 s0 in
   signed 4 (fst out) = (-5) + (-7) /\
   signed 4 (plain_load 4 4096 (memory (snd out))) = (-5) + (-7)).
Proof.
  assert (Hd : ptr32 4096) by (unfold ptr32; lia).
  assert (Hr : - 2 ^ 31 <= (-5) + (-7) < 2 ^ 31) by lia.
  split; [exact (conj Hd Hr)|].
  exact (add_signed_without_overflow (-5) (-7) 4096 (sample zero_mem) Hd Hr).
Defined.

(** ** The width of the pointer operations *)

Lemma halves_of_sum (lo hi x : Z) :
  0 <= lo < 2 ^ 32 -> 0 <= hi < 2 ^ 32 -> lo + 2 ^ 32 * hi = x ->
  lo = x mod 2 ^ 32 /\ hi = x / 2 ^ 32.
Proof.
  intros Hlo Hhi <-. split.
  - apply (Z.mod_unique _ _ hi); lia.
  - apply (Z.div_unique _ _ hi lo); lia.
Qed.

(** X12.  [inc_ptr] is 4 bytes wide in the 32-bit build and 8 bytes
    wide in the 64-bit build.  On a slot whose low [jint] is
    [0xffffffff], the [lock add dword ptr] of the 32-bit build wraps the
    low [jint] to 0 and leaves the [jint] at [dest + 4] as it was; the
    64-bit build, through [os::atomic_add_ptr_func], also wraps the low
    [jint] to 0 and carries into the [jint] at [dest + 4]. *)
Theorem inc_ptr_carry (o : AMD64.os) (dest : Z) (s : machine) :
  os_contract o -> ptr32 dest -> read 4 (memory s) dest = 2 ^ 32 - 1 ->
  let hi := read 4 (memory s) (dest + 4) in
  (read 4 (memory (snd (IA32.Atomic_inc_ptr dest s))) dest = 0 /\
   read 4 (memory (snd (IA32.Atomic_inc_ptr dest s))) (dest + 4) = hi) /\
  (read 4 (AMD64.Atomic_inc_ptr o dest (memory s)) dest = 0 /\
   read 4 (AMD64.Atomic_inc_ptr o dest (memory s)) (dest + 4) = wrap 4 (hi + 1)).
Proof.
  intros Ho Hd Hlo hi. split.
  - unfold IA32.Atomic_inc_ptr.
    destruct (ia32_inc_run dest s Hd) as (Hm & _). rewrite Hm, Hlo.
    rewrite read_write_same, wrap_wrap.
    rewrite read_write_disjoint by (change (Z.of_nat 4) with 4; lia).
    split; reflexivity.
  - unfold AMD64.Atomic_inc_ptr, AMD64.Atomic_add_ptr, AMD64.PlatformAdd_8_add_and_fetch.
    destruct (amd64_add_helper 8 (AMD64.atomic_add_ptr_func o) 1 dest (memory s)
                (atomic_add_ptr_ok o Ho)) as (_ & Hm).
    set (m' := snd (AMD64.add_using_helper 8 (AMD64.atomic_add_ptr_func o) 1 dest (memory s)))
      in *.
    unfold fetch_add in Hm. cbn [snd] in Hm.
    assert (H8 : read 8 m' dest = wrap 8 (read 8 (memory s) dest + 1)).
    { rewrite (read_ext 8 m' _ dest (fun b _ => Hm b)).
      rewrite read_write_same. apply wrap_wrap. }
    change (read 8 m' dest) with (read (4 + 4) m' dest) in H8.
    change (read 8 (memory s) dest) with (read (4 + 4) (memory s) dest) in H8.
    rewrite (read_split 4 4 m' dest) in H8.
    rewrite (read_split 4 4 (memory s) dest) in H8.
    change (Z.of_nat 4) with 4 in H8. change (modulus 4) with (2 ^ 32) in H8.
    fold hi in H8. rewrite Hlo in H8.
    pose proof (read_range 4 m' dest) as R1.
    pose proof (read_range 4 m' (dest + 4)) as R2.
    change (modulus 4) with (2 ^ 32) in R1, R2.
    destruct (halves_of_sum _ _ _ R1 R2 H8) as (E1 & E2).
    assert (Ew : wrap 8 (2 ^ 32 - 1 + 2 ^ 32 * hi + 1) = 2 ^ 32 * wrap 4 (hi + 1)).
    { unfold wrap. change (modulus 8) with (2 ^ 32 * 2 ^ 32).
      change (modulus 4) with (2 ^ 32).
      replace (2 ^ 32 - 1 + 2 ^ 32 * hi + 1) with (2 ^ 32 * (hi + 1)) by lia.
      apply Z.mul_mod_distr_l; lia. }
    rewrite Ew in E1, E2.
    rewrite Z.mul_comm, Z.mod_mul in E1 by lia.
    rewrite Z.mul_comm, Z.div_mul in E2 by lia.
    split; assumption.
Qed.

Lemma inc_ptr_carry_witness :
  let s := sample (AMD64.Atomic_store_jlong 0x00000001ffffffff 4096 zero_mem) in
  (os_contract os_reference /\ ptr32 4096 /\ read 4 (memory s) 4096 = 2 ^ 32 - 1) /\
  read 8 (memory (snd (IA32.Atomic_inc_ptr 4096 s))) 4096 = 0x0000000100000000 /\
  read 8 (AMD64.Atomic_inc_ptr os_reference 4096 (memory s)) 4096 = 0x0000000200000000 /\
  (read 4 (memory (snd (IA32.Atomic_inc_ptr 4096 s))) 4096 = 0 /\
   read 4 (memory (snd (IA32.Atomic_inc_ptr 4096 s))) (4096 + 4)
     = read 4 (memory s) (4096 + 4)) /\
  (read 4 (AMD64.Atomic_inc_ptr os_reference 4096 (memory s)) 4096 = 0 /\
   read 4 (AMD64.Atomic_inc_ptr os_reference 4096 (memory s)) (4096 + 4)
     = wrap 4 (read 4 (memory s) (4096 + 4) + 1)).
Proof.
  intros s.
  assert (Hd : ptr32 4096) by (unfold ptr32; lia).
  assert (Hlo : read 4 (memory s) 4096 = 2 ^ 32 - 1) by (vm_compute; reflexivity).
  split; [exact (conj os_reference_ok (conj Hd Hlo))|].
  split; [vm_compute; reflexivity|].
  split; [vm_compute; reflexivity|].
  exact (inc_ptr_carry os_reference 4096 s os_reference_ok Hd Hlo).
Defined.

(** ** Calls that leave memory as it was *)

(** X13.  A compare-exchange whose [exchange_value] is its
    [compare_value], or whose comparison fails, changes no byte of
    memory in the 32-bit build: [cmpxchg(x, dest, x)] is an atomic read
    of the slot.  For the 8-byte width this holds of every byte outside
    the 8 bytes of stack where [ebx] and [edi] are saved. *)
Theorem cmpxchg_as_read
    (cmo : Type) (order : cmo) (x c dest : Z) (s : machine) :
  ptr32 dest ->
  (wrap 1 x = wrap 1 c \/ read 1 (memory s) dest <> wrap 1 c ->
   fst (IA32.PlatformCmpxchg_1 x dest c order s) = read 1 (memory s) dest /\
   forall a, memory (snd (IA32.PlatformCmpxchg_1 x dest c order s)) a = memory s a) /\
  (wrap 4 x = wrap 4 c \/ read 4 (memory s) dest <> wrap 4 c ->
   fst (IA32.PlatformCmpxchg_4 x dest c order s) = read 4 (memory s) dest /\
   forall a, memory (snd (IA32.PlatformCmpxchg_4 x dest c order s)) a = memory s a) /\
  (stack_room s 8 -> slot_off_frame s 8 dest 8 ->
   wrap 8 x = wrap 8 c \/ read 8 (memory s) dest <> wrap 8 c ->
   fst (IA32.PlatformCmpxchg_8 x dest c order s) = read 8 (memory s) dest /\
   forall a, ~ in_frame s 8 a ->
     memory (snd (IA32.PlatformCmpxchg_8 x dest c order s)) a = memory s a).
Proof.
  intros Hd. split; [|split].
  - intros H. destruct (ia32_cmpxchg_1_run x dest c order s Hd) as (Hr & Hm & _).
    split; [exact Hr|]. intros a. rewrite Hm.
    destruct (Z.eqb_spec (read 1 (memory s) dest) (wrap 1 c)) as [E|E].
    + destruct H as [H|H]; [|contradiction]. rewrite H, <- E. apply write_read_id.
    + apply write_read_id.
  - intros H. destruct (ia32_cmpxchg_4_run x dest c order s Hd) as (Hr & Hm & _).
    split; [exact Hr|]. intros a. rewrite Hm.
    destruct (Z.eqb_spec (read 4 (memory s) dest) (wrap 4 c)) as [E|E].
    + destruct H as [H|H]; [|contradiction]. rewrite H, <- E. apply write_read_id.
    + apply write_read_id.
  - intros Hs Hf H.
    destruct (ia32_cmpxchg_8_run x dest c order s Hd Hs Hf) as (Hr & Hm & _).
    split; [exact Hr|]. intros a Ha. rewrite Hm.
    assert (Hv : (if read 8 (memory s) dest =? wrap 8 c then wrap 8 x
                  else read 8 (memory s) dest) = read 8 (memory s) dest).
    { destruct (Z.eqb_spec (read 8 (memory s) dest) (wrap 8 c)) as [E|E]; [|reflexivity].
      destruct H as [H|H]; [|contradiction]. rewrite H, <- E. reflexivity. }
    rewrite Hv. clear Hv Hm Hr.
    unfold in_frame in Ha. unfold slot_off_frame in Hf.
    change (Z.of_nat 8) with 8 in Hf.
    set (m1 := write 4 (write 4 (memory s) (esp (regs s) - 4) (ebx (regs s)))
                 (esp (regs s) - 8) (edi (regs s))).
    assert (Hr1 : read 8 m1 dest = read 8 (memory s) dest).
    { unfold m1. rewrite !read_write_disjoint by (change (Z.of_nat 4) with 4;
        change (Z.of_nat 8) with 8; lia). reflexivity. }
    rewrite <- Hr1, write_read_id. unfold m1.
    rewrite !write_outside by (unfold in_slot; change (Z.of_nat 4) with 4; lia).
    reflexivity.
Qed.

Lemma cmpxchg_as_read_witness :
  let s := sample (Atomic_store_jint 0x11223344 4096 zero_mem) in
  ptr32 4096 /\
  (wrap 4 0x11223344 = wrap 4 0x11223344 \/ read 4 (memory s) 4096 <> wrap 4 0x11223344) /\
  fst (IA32.PlatformCmpxchg_4 0x11223344 4096 0x11223344 tt s) = 0x11223344 /\
  (fst (IA32.PlatformCmpxchg_4 0x11223344 4096 0x11223344 tt s) = read 4 (memory s) 4096 /\
   forall a, memory (snd (IA32.PlatformCmpxchg_4 0x11223344 4096 0x11223344 tt s)) a
             = memory s a).
Proof.
  intros s.
  assert (Hd : ptr32 4096) by (unfold ptr32; lia).
  split; [exact Hd|].
  split; [left; reflexivity|].
  split; [vm_compute; reflexivity|].
  exact (proj1 (proj2 (cmpxchg_as_read unit tt 0x11223344 0x11223344 4096 s Hd))
           (or_introl eq_refl)).
Defined.

(** X14.  Exchanging back undoes an exchange.  In the 32-bit build, a
    second [xchg] that passes the value the first returned gives back
    the value the first one stored and restores every byte of memory. *)
Theorem xchg_round_trip (v dest : Z) (s : machine) :
  ptr32 dest ->
  let o1 := IA32.Atomic_xchg v dest s in
  let o2 := IA32.Atomic_xchg (fst o1) dest (snd o1) in
  fst o2 = wrap 4 v /\ forall a, memory (snd o2) a = memory s a.
Proof.
  intros Hd o1 o2.
  destruct (ia32_xchg_run v dest s Hd) as (Hr1 & Hm1 & _). fold o1 in Hr1, Hm1.
  destruct (ia32_xchg_run (fst o1) dest (snd o1) Hd) as (Hr2 & Hm2 & _).
  fold o2 in Hr2, Hm2.
  rewrite Hm1 in Hr2. rewrite read_write_same, wrap_wrap in Hr2.
  split; [exact Hr2|].
  intros a. rewrite Hm2, Hm1, Hr1, wrap_read, write_write_same.
  apply write_read_id.
Qed.

Lemma xchg_round_trip_witness :
  let s := sample (Atomic_store_jint 7 4096 zero_mem) in
  ptr32 4096 /\
  (let o1 := IA32.Atomic_xchg (-1) 4096 s in
   let o2 := IA32.Atomic_xchg (fst o1) 4096 (snd o1) in
   fst o2 = wrap 4 (-1) /\ forall a, memory (snd o2) a = memory s a).
Proof.
  intros s.
  assert (Hd : ptr32 4096) by (unfold ptr32; lia).
  exact (conj Hd (xchg_round_trip (-1) 4096 s Hd)).
Defined.

(** ** Add by compare-exchange *)

(** X15.  One round of the compare-exchange loop is an add.  In the
    32-bit build, [cmpxchg(old + d, dest, old)] with [old] the content
    of the slot succeeds, leaves in every byte what [add_and_fetch(d,
    dest)] leaves, and the value [add_and_fetch] returns is the value
    the compare-exchange returned plus [d], modulo [2^32]. *)
Theorem add_by_cmpxchg (cmo : Type) (order : cmo) (d dest : Z) (s : machine) :
  ptr32 dest ->
  let old := plain_load 4 dest (memory s) in
  let cas := IA32.PlatformCmpxchg_4 (old + d) dest old order s in
  let add := IA32.PlatformAdd_4_add_and_fetch d dest s in
  fst cas = old /\
  fst add = wrap 4 (fst cas + d) /\
  forall a, memory (snd cas) a = memory (snd add) a.
Proof.
  intros Hd old cas add.
  destruct (ia32_cmpxchg_4_run (old + d) dest old order s Hd) as (Hr & Hm & _).
  fold cas in Hr, Hm.
  destruct (ia32_add_and_fetch_run d dest s Hd) as (Hr' & Hm' & _).
  fold add in Hr', Hm'.
  unfold plain_load in old. fold old in Hr, Hm, Hr', Hm'.
  assert (Ho : wrap 4 old = old) by apply wrap_read.
  rewrite Ho, Z.eqb_refl in Hm.
  split; [exact Hr|]. split; [rewrite Hr, Hr'; reflexivity|].
  intros a. rewrite Hm, Hm'. reflexivity.
Qed.

Lemma add_by_cmpxchg_witness :
  let s := sample (Atomic_store_jint 0xffffffff 4096 zero_mem) in
  ptr32 4096 /\
  fst (IA32.PlatformAdd_4_add_and_fetch 2 4096 s) = 1 /\
  (let old := plain_load 4 4096 (memory s) in
   let cas := IA32.PlatformCmpxchg_4 (old + 2) 4096 old tt s in
   let add := IA32.PlatformAdd_4_add_and_fetch 2 4096 s in
   fst cas = old /\
   fst add = wrap 4 (fst cas + 2) /\
   forall a, memory (snd cas) a = memory (snd add) a).
Proof.
  intros s.
  assert (Hd : ptr32 4096) by (unfold ptr32; lia).
  split; [exact Hd|]. split; [vm_compute; reflexivity|].
  exact (add_by_cmpxchg unit tt 2 4096 s Hd).
Defined.

(** ** Concurrent callers of inc and dec *)

(** The blocks are the ones [Atomic::inc] and [Atomic::dec] execute. *)
Lemma counter_asm_is_the_block (dest : Z) :
  IA32.Atomic_inc dest = __asm (counter_asm true dest) /\
  IA32.Atomic_dec dest = __asm (counter_asm false dest).
Proof. split; reflexivity. Qed.

(** One micro-operation of a caller of [inc] or [dec]: either it is not
    done yet and memory is as it was, or it is done and the slot holds
    one more, or one less, than it did. *)
Lemma counter_step (dest : Z) (p : cpu * bool) (t : thread) (m : mem) (u : uop)
    (rest : list uop) :
  ptr32 dest -> counter_thread dest p t -> t_code t = u :: rest ->
  let s' := u (mkMachine (t_regs t) m) in
  let t' := mkThread (regs s') rest in
  counter_thread dest p t' /\
  ((done t' = false /\ memory s' = m) \/
   (done t' = true /\ read 4 (memory s') dest = wrap 4 (read 4 m dest + delta (snd p)))).
Proof.
  intros Hd (k & Hk & Hc & Hedx) Hu.
  destruct t as [[a b c d di sp z l r f] code]. destruct p as [c0 up].
  unfold counter_thread, counter_at, done. cbn [t_code t_regs edx snd] in *.
  rewrite Hc in Hu.
  assert (Hcases : (k = 0 \/ k = 1 \/ k = 2)%nat) by lia.
  assert (Hblock : concat (counter_asm up dest)
                   = [ on_regs (fun c => set32 c EDX dest);
                       run_uops (if up then add_m32_imm EDX 1 else sub_m32_imm EDX 1) ])
    by (destruct up; reflexivity).
  rewrite Hblock in Hu, Hc.
  destruct Hcases as [->|[->| ->]]; cbn [skipn] in Hu, Hc;
    try discriminate Hu;
    pose proof (f_equal (@hd uop (fun s => s)) Hu) as Eu;
    pose proof (f_equal (@tl uop) Hu) as Er;
    cbn [hd tl] in Eu, Er; subst u rest code; clear Hu.
  - split; [exists 1%nat; split; [lia|]|left; split; reflexivity].
    split; [rewrite Hblock; reflexivity|]. exec. intros _. apply ptr32_wrap, Hd.
  - specialize (Hedx ltac:(lia)). subst d.
    split; [exists 2%nat; split; [lia|]|].
    + split; [rewrite Hblock; reflexivity|]. intros _. destruct up; exec; reflexivity.
    + right. split; [reflexivity|].
      destruct up; exec; rewrite read_write_same, wrap_wrap; reflexivity.
Qed.

Lemma net_set_nth (l : list (cpu * bool)) (ts : list thread) (i : nat)
    (p : cpu * bool) (t t' : thread) :
  nth_error l i = Some p -> nth_error ts i = Some t ->
  net l (set_nth i t' ts)
  = net l ts - (if done t then delta (snd p) else 0) + (if done t' then delta (snd p) else 0).
Proof.
  revert ts i. induction l as [|q l IH]; intros [|y ts] [|i] Hl Ht; cbn in Hl, Ht;
    try discriminate.
  - injection Hl as ->. injection Ht as ->. cbn [set_nth net]. lia.
  - cbn [set_nth net]. rewrite (IH ts i Hl Ht). lia.
Qed.

Lemma net_finished (dest : Z) (l : list (cpu * bool)) (ts : list thread) :
  Forall2 (counter_thread dest) l ts -> forallb done ts = true ->
  net l ts = incs l - decs l.
Proof.
  unfold incs, decs. intros H. induction H as [|p t l ts _ H IH]; intros Hf.
  - reflexivity.
  - cbn [forallb] in Hf. apply andb_prop in Hf. destruct Hf as [Ht Hf].
    cbn [net filter]. rewrite Ht, (IH Hf).
    destruct (snd p); cbn [negb delta length]; lia.
Qed.

Lemma step_counter (l : list (cpu * bool)) (dest v0 : Z) (i : nat) (c c' : system) :
  ptr32 dest -> counter_inv l dest v0 c -> step i c = Some c' -> counter_inv l dest v0 c'.
Proof.
  intros Hd (Hall & Hslot) Hstep. unfold step in Hstep.
  destruct (nth_error (threads c) i) as [t|] eqn:Hi; [|discriminate].
  destruct (t_code t) as [|u rest] eqn:Hcode; [discriminate|].
  injection Hstep as <-.
  destruct (Forall2_nth_error_r _ _ _ _ _ Hall Hi) as (p & Hp & Hpt).
  assert (Hnd : done t = false) by (unfold done; rewrite Hcode; reflexivity).
  destruct (counter_step dest p t (shared c) u rest Hd Hpt Hcode) as (Hpt' & Heff).
  set (s' := u (mkMachine (t_regs t) (shared c))) in *.
  set (t' := mkThread (regs s') rest) in *.
  unfold counter_inv. cbn [threads shared].
  split; [apply (Forall2_set_nth _ _ _ _ p); assumption|].
  rewrite (net_set_nth l (threads c) i p t t' Hp Hi), Hnd.
  destruct Heff as [[Hd' Hm]|[Hd' Hm]]; rewrite Hd'.
  - rewrite Hm, Hslot. f_equal. lia.
  - rewrite Hm, Hslot, wrap_add_l. f_equal. lia.
Qed.

Lemma run_counter (l : list (cpu * bool)) (dest v0 : Z) (sched : list nat) (c c' : system) :
  ptr32 dest -> counter_inv l dest v0 c -> run sched c = Some c' -> counter_inv l dest v0 c'.
Proof.
  intros Hd. revert c. induction sched as [|i sched IH]; intros c Hc Hrun; cbn [run] in Hrun.
  - injection Hrun as <-. exact Hc.
  - destruct (step i c) as [c1|] eqn:Hstep; [|discriminate].
    apply (IH c1); [apply (step_counter l dest v0 i c c1 Hd Hc Hstep) | exact Hrun].
Qed.

Lemma counter_callers_inv (l : list (cpu * bool)) (dest v0 : Z) (m : mem) :
  counter_inv l dest v0 (counter_callers l dest (Atomic_store_jint v0 dest m)).
Proof.
  unfold counter_inv, counter_callers. cbn [threads shared]. split.
  - induction l as [|p l IH]; cbn [map]; constructor; [|exact IH].
    exists 0%nat. split; [lia|]. unfold counter_at. cbn [t_code].
    split; [reflexivity|]. intros; lia.
  - assert (Hn : net l (map (fun p => mkThread (fst p) (concat (counter_asm (snd p) dest))) l)
                 = 0).
    { induction l as [|p l IH]; [reflexivity|]. cbn [map net]. rewrite IH.
      destruct (snd p); reflexivity. }
    rewrite Hn, Z.add_0_r. unfold Atomic_store_jint. apply read_write_same.
Qed.

(** X16.  Concurrent callers of [inc(dest)] and [dec(dest)] in the
    32-bit build, on a slot initialised to [v0], interleaved in any
    order with the locked [add] or [sub] as one step.  Along every
    schedule the slot holds [v0] plus the number of callers of [inc]
    that are done minus the number of callers of [dec] that are done,
    modulo [2^32].  When all are done it holds [v0] plus the number of
    callers of [inc] minus that of [dec]; with as many of the one as of
    the other it holds [v0] again. *)
Theorem inc_dec_balance
    (l : list (cpu * bool)) (v0 dest : Z) (m : mem) (sched : list nat) (c : system) :
  ptr32 dest ->
  run sched (counter_callers l dest (Atomic_store_jint v0 dest m)) = Some c ->
  plain_load 4 dest (shared c) = wrap 4 (v0 + net l (threads c)) /\
  (finished c = true ->
   plain_load 4 dest (shared c) = wrap 4 (v0 + incs l - decs l)) /\
  (finished c = true -> incs l = decs l ->
   plain_load 4 dest (shared c) = wrap 4 v0).
Proof.
  intros Hd Hrun.
  destruct (run_counter l dest v0 sched _ c Hd (counter_callers_inv l dest v0 m) Hrun)
    as (Hall & Hslot).
  unfold plain_load.
  assert (Hfin : finished c = true -> read 4 (shared c) dest = wrap 4 (v0 + incs l - decs l)).
  { intros Hf. rewrite Hslot, (net_finished dest l (threads c) Hall Hf). f_equal. lia. }
  split; [exact Hslot|]. split; [exact Hfin|].
  intros Hf He. rewrite (Hfin Hf). f_equal. lia.
Qed.

Lemma inc_dec_balance_witness :
  let dest := 4096 in
  let l := [(sample_cpu, true); (sample_cpu, false); (sample_cpu, false); (sample_cpu, true)] in
  let sched := [0; 1; 2; 1; 3; 2; 0; 3]%nat in
  let init := counter_callers l dest (Atomic_store_jint 0 dest zero_mem) in
  exists c,
    (ptr32 dest /\ run sched init = Some c) /\
    finished c = true /\ incs l = decs l /\
    plain_load 4 dest (shared c) = 0 /\
    (finished c = true -> incs l = decs l ->
     plain_load 4 dest (shared c) = wrap 4 0).
Proof.
  intros dest l sched init.
  remember (match run sched init with Some c => c | None => init end) as c0 eqn:Ec.
  assert (Hd : ptr32 dest) by (unfold ptr32, dest; lia).
  assert (Hrun : run sched init = Some c0) by (rewrite Ec; vm_compute; reflexivity).
  assert (Hf : finished c0 = true) by (rewrite Ec; vm_compute; reflexivity).
  assert (Hv : plain_load 4 dest (shared c0) = 0) by (rewrite Ec; vm_compute; reflexivity).
  exists c0.
  split; [exact (conj Hd Hrun)|].
  split; [exact Hf|]. split; [reflexivity|]. split; [exact Hv|].
  exact (proj2 (proj2 (inc_dec_balance l 0 dest zero_mem sched c0 Hd Hrun))).
Defined.

(** ** Concurrent callers of exchange *)

(** The block is the one [Atomic::xchg] executes. *)
Lemma xchg_asm_is_the_block (e dest : Z) :
  IA32.Atomic_xchg e dest = bind (__asm (xchg_asm e dest)) (fun _ => result_eax).
Proof. reflexivity. Qed.

(** One micro-operation of a caller of [xchg(e, dest)]: either it is
    not done yet and memory is as it was, or it is done: its result is
    what the slot held and the slot holds the value it brought. *)
Lemma xchg_step (dest : Z) (p : cpu * Z) (t : thread) (m : mem) (u : uop) (rest : list uop) :
  ptr32 dest -> xchg_thread dest p t -> t_code t = u :: rest ->
  let s' := u (mkMachine (t_regs t) m) in
  let t' := mkThread (regs s') rest in
  xchg_thread dest p t' /\
  ((done t' = false /\ memory s' = m) \/
   (done t' = true /\ eax (t_regs t') = read 4 m dest /\
    read 4 (memory s') dest = wrap 4 (snd p))).
Proof.
  intros Hd (k & Hk & Hc & Heax & Hecx) Hu.
  destruct t as [[a b c d di sp z l r f] code]. destruct p as [c0 e].
  unfold xchg_thread, xchg_at, done. cbn [t_code t_regs eax ecx snd] in *.
  rewrite Hc in Hu.
  assert (Hcases : (k = 0 \/ k = 1 \/ k = 2 \/ k = 3)%nat) by lia.
  assert (Hblock : concat (xchg_asm e dest)
                   = [ on_regs (fun c => set32 c EAX e);
                       on_regs (fun c => set32 c ECX dest);
                       hd (fun s => s) (xchg_r_m32 EAX ECX) ]) by reflexivity.
  rewrite Hblock in Hu, Hc.
  destruct Hcases as [->|[->|[->| ->]]]; cbn [skipn] in Hu, Hc;
    try discriminate Hu;
    pose proof (f_equal (@hd uop (fun s => s)) Hu) as Eu;
    pose proof (f_equal (@tl uop) Hu) as Er;
    cbn [hd tl] in Eu, Er; subst u rest code; clear Hu.
  - split; [exists 1%nat; split; [lia|]|left; split; reflexivity].
    split; [reflexivity|]. exec. split; intros; first [lia | reflexivity].
  - split; [exists 2%nat; split; [lia|]|left; split; reflexivity].
    split; [reflexivity|]. exec.
    split; intros; first [apply Heax; lia | apply ptr32_wrap, Hd].
  - specialize (Heax ltac:(lia)). specialize (Hecx eq_refl). subst a c.
    split; [exists 3%nat; split; [lia|]|].
    + split; [reflexivity|]. split; intros; lia.
    + right. unfold xchg_r_m32. cbn [hd]. exec.
      rewrite read_write_same, wrap_wrap, wrap_read. repeat split.
Qed.

Lemma holds_nth_error (l : list (cpu * Z)) (ts : list thread) (i : nat)
    (p : cpu * Z) (t : thread) :
  nth_error l i = Some p -> nth_error ts i = Some t ->
  nth_error (holds l ts) i = Some (hold p t).
Proof.
  revert ts i. induction l as [|q l IH]; intros [|y ts] [|i] Hl Ht; cbn in Hl, Ht;
    try discriminate.
  - injection Hl as ->. injection Ht as ->. reflexivity.
  - cbn [holds nth_error]. apply (IH ts i Hl Ht).
Qed.

Lemma holds_set_nth (l : list (cpu * Z)) (ts : list thread) (i : nat)
    (p : cpu * Z) (t' : thread) :
  nth_error l i = Some p ->
  holds l (set_nth i t' ts) = set_nth i (hold p t') (holds l ts).
Proof.
  revert ts i. induction l as [|q l IH]; intros [|y ts] [|i] Hl; cbn in Hl;
    try discriminate; cbn [set_nth holds]; try reflexivity.
  - injection Hl as ->. reflexivity.
  - rewrite (IH ts i Hl). reflexivity.
Qed.

(** Putting [s] in place of the [i]-th element [h] and [h] in front is
    a permutation of [s] in front of the list. *)
Lemma Permutation_swap_nth (hs : list Z) (i : nat) (h s : Z) :
  nth_error hs i = Some h -> Permutation (h :: set_nth i s hs) (s :: hs).
Proof.
  revert i. induction hs as [|x hs IH]; intros [|i] H; cbn in H; try discriminate.
  - injection H as ->. cbn [set_nth]. apply perm_swap.
  - cbn [set_nth].
    apply (perm_trans (perm_swap x h (set_nth i s hs))).
    apply (perm_trans (perm_skip x (IH i H))).
    apply perm_swap.
Qed.

Lemma set_nth_same {A : Type} (l : list A) (i : nat) (x : A) :
  nth_error l i = Some x -> set_nth i x l = l.
Proof.
  revert i. induction l as [|y l IH]; intros [|i] H; cbn in H; try discriminate;
    cbn [set_nth].
  - injection H as ->. reflexivity.
  - rewrite (IH i H). reflexivity.
Qed.

Lemma step_xchg (l : list (cpu * Z)) (dest v0 : Z) (i : nat) (c c' : system) :
  ptr32 dest -> xchg_inv l dest v0 c -> step i c = Some c' -> xchg_inv l dest v0 c'.
Proof.
  intros Hd (Hall & Hperm) Hstep. unfold step in Hstep.
  destruct (nth_error (threads c) i) as [t|] eqn:Hi; [|discriminate].
  destruct (t_code t) as [|u rest] eqn:Hcode; [discriminate|].
  injection Hstep as <-.
  destruct (Forall2_nth_error_r _ _ _ _ _ Hall Hi) as (p & Hp & Hpt).
  assert (Hh : hold p t = wrap 4 (snd p)) by (unfold hold, done; rewrite Hcode; reflexivity).
  destruct (xchg_step dest p t (shared c) u rest Hd Hpt Hcode) as (Hpt' & Heff).
  set (s' := u (mkMachine (t_regs t) (shared c))) in *.
  set (t' := mkThread (regs s') rest) in *.
  pose proof (holds_nth_error l (threads c) i p t Hp Hi) as Hn.
  unfold xchg_inv. cbn [threads shared].
  split; [apply (Forall2_set_nth _ _ _ _ p); assumption|].
  rewrite (holds_set_nth l (threads c) i p t' Hp).
  destruct Heff as [[Hd' Hm]|(Hd' & Hres & Hnew)].
  - assert (Hh' : hold p t' = hold p t) by (unfold hold at 1; rewrite Hd', Hh; reflexivity).
    rewrite Hm, Hh', (set_nth_same _ _ _ Hn). exact Hperm.
  - assert (Hh' : hold p t' = read 4 (shared c) dest)
      by (unfold hold; rewrite Hd'; exact Hres).
    rewrite Hnew, Hh', <- Hh.
    apply (perm_trans (Permutation_swap_nth _ _ _ _ Hn)). exact Hperm.
Qed.

Lemma run_xchg (l : list (cpu * Z)) (dest v0 : Z) (sched : list nat) (c c' : system) :
  ptr32 dest -> xchg_inv l dest v0 c -> run sched c = Some c' -> xchg_inv l dest v0 c'.
Proof.
  intros Hd. revert c. induction sched as [|i sched IH]; intros c Hc Hrun; cbn [run] in Hrun.
  - injection Hrun as <-. exact Hc.
  - destruct (step i c) as [c1|] eqn:Hstep; [|discriminate].
    apply (IH c1); [apply (step_xchg l dest v0 i c c1 Hd Hc Hstep) | exact Hrun].
Qed.

Lemma xchg_callers_inv (l : list (cpu * Z)) (dest v0 : Z) (m : mem) :
  xchg_inv l dest v0 (xchg_callers l dest (Atomic_store_jint v0 dest m)).
Proof.
  unfold xchg_inv, xchg_callers. cbn [threads shared]. split.
  - induction l as [|p l IH]; cbn [map]; constructor; [|exact IH].
    exists 0%nat. split; [lia|]. unfold xchg_at. cbn [t_code].
    split; [reflexivity|]. split; intros; lia.
  - unfold Atomic_store_jint. rewrite read_write_same.
    apply perm_skip.
    assert (Hn : holds l (map (fun p => mkThread (fst p) (concat (xchg_asm (snd p) dest))) l)
                 = map (fun p => wrap 4 (snd p)) l).
    { induction l as [|p l IH]; [reflexivity|]. cbn [map holds]. rewrite IH. reflexivity. }
    rewrite Hn. apply Permutation_refl.
Qed.

Lemma holds_finished (dest : Z) (l : list (cpu * Z)) (ts : list thread) :
  Forall2 (xchg_thread dest) l ts -> forallb done ts = true ->
  holds l ts = map (fun t => eax (t_regs t)) ts.
Proof.
  intros H. induction H as [|p t l ts _ H IH]; intros Hf.
  - reflexivity.
  - cbn [forallb] in Hf. apply andb_prop in Hf. destruct Hf as [Ht Hf].
    cbn [holds map]. unfold hold. rewrite Ht, (IH Hf). reflexivity.
Qed.

(** X17.  Concurrent callers of [xchg(e_i, dest)] in the 32-bit build,
    on a slot initialised to [v0], interleaved in any order.  No value
    is lost and none is handed out twice: when all are done, the value
    left in the slot and the values the callers returned are, in some
    order, [v0] and the values [e_i] the callers brought (as 4-byte
    patterns).  So if these are pairwise different, no two callers have
    returned the same value, and none has returned the value left in
    the slot. *)
Theorem xchg_conserves_values
    (l : list (cpu * Z)) (v0 dest : Z) (m : mem) (sched : list nat) (c : system) :
  ptr32 dest ->
  run sched (xchg_callers l dest (Atomic_store_jint v0 dest m)) = Some c ->
  Permutation (plain_load 4 dest (shared c) :: holds l (threads c))
              (wrap 4 v0 :: map (fun p => wrap 4 (snd p)) l) /\
  (finished c = true ->
   Permutation (plain_load 4 dest (shared c) :: map (fun t => eax (t_regs t)) (threads c))
               (wrap 4 v0 :: map (fun p => wrap 4 (snd p)) l) /\
   (NoDup (wrap 4 v0 :: map (fun p => wrap 4 (snd p)) l) ->
    NoDup (plain_load 4 dest (shared c) :: map (fun t => eax (t_regs t)) (threads c)))).
Proof.
  intros Hd Hrun.
  destruct (run_xchg l dest v0 sched _ c Hd (xchg_callers_inv l dest v0 m) Hrun)
    as (Hall & Hperm).
  unfold plain_load. split; [exact Hperm|].
  intros Hf. rewrite (holds_finished dest l (threads c) Hall Hf) in Hperm.
  split; [exact Hperm|].
  intros Hnd. apply (Permutation_NoDup (Permutation_sym Hperm) Hnd).
Qed.

Lemma xchg_conserves_values_witness :
  let dest := 4096 in
  let l := [(sample_cpu, 10); (sample_cpu, 20); (sample_cpu, 30)] in
  let sched := [0; 1; 2; 2; 1; 0; 2; 0; 1]%nat in
  let init := xchg_callers l dest (Atomic_store_jint 5 dest zero_mem) in
  exists c,
    (ptr32 dest /\ run sched init = Some c) /\
    finished c = true /\
    plain_load 4 dest (shared c) :: map (fun t => eax (t_regs t)) (threads c)
      = [20; 30; 10; 5] /\
    Permutation (plain_load 4 dest (shared c) :: map (fun t => eax (t_regs t)) (threads c))
                (wrap 4 5 :: map (fun p => wrap 4 (snd p)) l).
Proof.
  intros dest l sched init.
  remember (match run sched init with Some c => c | None => init end) as c0 eqn:Ec.
  assert (Hd : ptr32 dest) by (unfold ptr32, dest; lia).
  assert (Hrun : run sched init = Some c0) by (rewrite Ec; vm_compute; reflexivity).
  assert (Hf : finished c0 = true) by (rewrite Ec; vm_compute; reflexivity).
  assert (Hv : plain_load 4 dest (shared c0) :: map (fun t => eax (t_regs t)) (threads c0)
               = [20; 30; 10; 5]) by (rewrite Ec; vm_compute; reflexivity).
  exists c0.
  split; [exact (conj Hd Hrun)|].
  split; [exact Hf|]. split; [exact Hv|].
  exact (proj1 (proj2 (xchg_conserves_values l 5 dest zero_mem sched c0 Hd Hrun) Hf)).
Defined.
